(** * PhoneValue back-end quote engine

    A shallow embedding of the two revisions of the quote server:
    [src/server.js] (the grade-based revision, module [Server]) and
    [src/unnamed/part_000] (the condition-record revision, module
    [Part000]), together with the fragment of the JavaScript runtime
    they rely on ([parseFloat], [parseInt], [Math.*], string
    conversion, truthiness).

    Conventions of the embedding:
    - a JavaScript string is its sequence of UTF-16 code units;
    - a JavaScript number is [NaN], an infinity, or a finite value kept
      as a rational.  [Server] and [Part000] compute on these values
      exactly; [ServerD] and [Part000D] are the same programs with
      every operation rounded to binary64 as the engine rounds it
      (module [Double]; [Binary64] gives the same operations on the
      Standard Library's [spec_float], as a cross-check).  Statements
      about control flow, replies, requests and texts are made on the
      exact programs; statements that depend on the value of a
      computed price are made on the rounded ones.  The sign of zero
      is not represented;
    - [fetch], [cheerio] and [Math.random] are supplied by a [World];
      outbound requests are recorded in a log that is threaded through
      every call;
    - a thrown exception is a value of [completion], so that
      [try]/[catch] is an ordinary function. *)

From Stdlib Require Import ZArith QArith Qcanon Qround List String Ascii Lia Lqa Bool.
From Stdlib Require Import SpecFloat DecimalN DecimalPos Qabs Qpower.
Import ListNotations.

Local Open Scope Z_scope.

(** ** Strings *)

Definition JsString := list N.

(** Code units of a source literal, written in the file as UTF-8. *)
Fixpoint utf8 (bs : list N) : JsString :=
  match bs with
  | [] => []
  | b :: rest =>
    if (b <? 128)%N then b :: utf8 rest
    else match rest with
         | [] => []
         | c :: rest1 =>
           if (b <? 224)%N then ((b - 192) * 64 + (c - 128))%N :: utf8 rest1
           else match rest1 with
                | [] => []
                | d :: rest2 =>
                  ((b - 224) * 4096 + (c - 128) * 64 + (d - 128))%N :: utf8 rest2
                end
         end
  end.

Definition js (s : string) : JsString :=
  utf8 (map N_of_ascii (list_ascii_of_string s)).

Definition unit_eqb (a b : N) : bool := (a =? b)%N.

Fixpoint str_eqb (a b : JsString) : bool :=
  match a, b with
  | [], [] => true
  | x :: a', y :: b' => unit_eqb x y && str_eqb a' b'
  | _, _ => false
  end.

Fixpoint starts_with (p s : JsString) : bool :=
  match p, s with
  | [], _ => true
  | x :: p', y :: s' => unit_eqb x y && starts_with p' s'
  | _ :: _, [] => false
  end.

Fixpoint drop_while (p : N -> bool) (s : JsString) : JsString :=
  match s with
  | [] => []
  | c :: t => if p c then drop_while p t else s
  end.

Fixpoint span (p : N -> bool) (s : JsString) : JsString * JsString :=
  match s with
  | [] => ([], [])
  | c :: t =>
    if p c then let '(a, b) := span p t in (c :: a, b) else ([], s)
  end.

Definition isDigit (c : N) : bool := ((48 <=? c) && (c <=? 57))%N.

(** WhiteSpace and LineTerminator code points of ECMAScript, the set
    skipped by [parseFloat], [parseInt] and [String.prototype.trim]. *)
Definition isWhiteSpace (c : N) : bool :=
  ((9 <=? c) && (c <=? 13) || (c =? 32) || (c =? 160) || (c =? 5760)
   || (8192 <=? c) && (c <=? 8202) || (c =? 8232) || (c =? 8233)
   || (c =? 8239) || (c =? 8287) || (c =? 12288) || (c =? 65279))%N.

(** [s.trim()] *)
Definition trim (s : JsString) : JsString :=
  rev (drop_while isWhiteSpace (rev (drop_while isWhiteSpace s))).

(** [s.replace(/ /g, by)] *)
Definition replace_spaces (by_ : JsString) (s : JsString) : JsString :=
  flat_map (fun c => if unit_eqb c 32 then by_ else [c]) s.

(** [s.replace(pat, "")] with a string pattern: only the first
    occurrence is removed. *)
Fixpoint remove_first (pat s : JsString) {struct s} : JsString :=
  if starts_with pat s then skipn (List.length pat) s
  else match s with
       | [] => []
       | c :: t => c :: remove_first pat t
       end.

(** The class [0-9.-] of the price regular expression. *)
Definition isPriceChar (c : N) : bool :=
  isDigit c || unit_eqb c 46 || unit_eqb c 45.

(** [s.replace(/[^0-9.-]+/g, "")] *)
Definition strip_non_price (s : JsString) : JsString := filter isPriceChar s.

(** ** Numbers *)

Inductive Number : Type :=
| NaN
| PosInf
| NegInf
| Fin (q : Qc).

Definition ofZ (z : Z) : Number := Fin (Q2Qc (inject_Z z)).

(** The decimal literal [m / 10^d], e.g. [dec 15 2] for [0.15]. *)
Definition dec (m : Z) (d : positive) : Number :=
  Fin (Q2Qc (m # Pos.pow 10 d)).

Definition Qc_sign (q : Qc) : comparison := (this q ?= 0)%Q.

Definition Nneg (a : Number) : Number :=
  match a with
  | NaN => NaN
  | PosInf => NegInf
  | NegInf => PosInf
  | Fin q => Fin (- q)%Qc
  end.

Definition Nadd (a b : Number) : Number :=
  match a, b with
  | NaN, _ | _, NaN => NaN
  | PosInf, NegInf | NegInf, PosInf => NaN
  | PosInf, _ | _, PosInf => PosInf
  | NegInf, _ | _, NegInf => NegInf
  | Fin x, Fin y => Fin (x + y)%Qc
  end.

Definition Nsub (a b : Number) : Number := Nadd a (Nneg b).

Definition inf_times (positive_inf : bool) (q : Qc) : Number :=
  match Qc_sign q with
  | Eq => NaN
  | Gt => if positive_inf then PosInf else NegInf
  | Lt => if positive_inf then NegInf else PosInf
  end.

Definition Nmul (a b : Number) : Number :=
  match a, b with
  | NaN, _ | _, NaN => NaN
  | PosInf, PosInf | NegInf, NegInf => PosInf
  | PosInf, NegInf | NegInf, PosInf => NegInf
  | PosInf, Fin q | Fin q, PosInf => inf_times true q
  | NegInf, Fin q | Fin q, NegInf => inf_times false q
  | Fin x, Fin y => Fin (x * y)%Qc
  end.

(** [a <= b]; every comparison with [NaN] is false. *)
Definition Nle (a b : Number) : bool :=
  match a, b with
  | NaN, _ | _, NaN => false
  | NegInf, _ | _, PosInf => true
  | PosInf, _ | _, NegInf => false
  | Fin x, Fin y => Qle_bool x y
  end.

Definition Nlt (a b : Number) : bool :=
  match a, b with
  | NaN, _ | _, NaN => false
  | _, _ => negb (Nle b a)
  end.

Definition isNaN (a : Number) : bool :=
  match a with NaN => true | _ => false end.

Definition isFinite (a : Number) : bool :=
  match a with Fin _ => true | _ => false end.

(** [Number.isInteger] *)
Definition isInteger (a : Number) : bool :=
  match a with
  | Fin q => Qeq_bool q (inject_Z (Qfloor q))
  | _ => false
  end.

Definition Math_max (a b : Number) : Number :=
  match a, b with
  | NaN, _ | _, NaN => NaN
  | _, _ => if Nle a b then b else a
  end.

Definition Math_floor (a : Number) : Number :=
  match a with
  | Fin q => ofZ (Qfloor q)
  | _ => a
  end.

(** [Math.round]: the integer nearest to the argument, ties going up. *)
Definition Math_round (a : Number) : Number :=
  match a with
  | Fin q => ofZ (Qfloor (q + (1 # 2)))
  | _ => a
  end.

(** ** Parsing numbers out of strings *)

Definition digit_value (c : N) : Z := Z.of_N c - 48.

Definition digits_value (ds : JsString) : Z :=
  fold_left (fun acc c => 10 * acc + digit_value c) ds 0.

(** [10^e] for an integer exponent of either sign. *)
Definition pow10 (e : Z) : Qc :=
  if 0 <=? e then Q2Qc (inject_Z (10 ^ e))
  else Q2Qc (1 # Z.to_pos (10 ^ (- e))).

(** An optional sign: the flag is [true] for a leading minus. *)
Definition take_sign (s : JsString) : bool * JsString :=
  match s with
  | c :: t =>
    if unit_eqb c 45 then (true, t)
    else if unit_eqb c 43 then (false, t)
    else (false, s)
  | [] => (false, s)
  end.

(** ExponentPart of a decimal literal; [0] when it is absent or
    incomplete (an [e] that no digit follows is not consumed). *)
Definition exponent_part (s : JsString) : Z :=
  match s with
  | c :: t =>
    if unit_eqb c 101 || unit_eqb c 69 then
      let '(neg, t1) := take_sign t in
      match fst (span isDigit t1) with
      | [] => 0
      | ds => if neg then - digits_value ds else digits_value ds
      end
    else 0
  | [] => 0
  end.

(** [parseFloat]: leading white space is skipped and the longest prefix
    that is a StrDecimalLiteral is converted; [NaN] when there is
    none. *)
Definition parseFloat (input : JsString) : Number :=
  let '(neg, s) := take_sign (drop_while isWhiteSpace input) in
  if starts_with (js "Infinity") s then (if neg then NegInf else PosInf)
  else
    let '(ip, s1) := span isDigit s in
    let '(fp, s2) :=
      match s1 with
      | c :: t => if unit_eqb c 46 then span isDigit t else ([], s1)
      | [] => ([], s1)
      end in
    match ip ++ fp with
    | [] => NaN
    | ds =>
      let m := Q2Qc (inject_Z (digits_value ds)) in
      let v := (m * pow10 (exponent_part s2 - Z.of_nat (List.length fp)))%Qc in
      Fin (if neg then (- v)%Qc else v)
    end.

Definition isHexDigit (c : N) : bool :=
  (isDigit c || (97 <=? c) && (c <=? 102) || (65 <=? c) && (c <=? 70))%N.

Definition hex_value (c : N) : Z :=
  if isDigit c then Z.of_N c - 48
  else if (97 <=? c)%N then Z.of_N c - 87
  else Z.of_N c - 55.

(** [parseInt] of a string with no radix argument: radix 16 after a
    [0x] prefix, radix 10 otherwise. *)
Definition parseInt_string (input : JsString) : Number :=
  let '(neg, s) := take_sign (drop_while isWhiteSpace input) in
  let signed (z : Z) := ofZ (if neg then - z else z) in
  if starts_with (js "0x") s || starts_with (js "0X") s then
    match fst (span isHexDigit (skipn 2 s)) with
    | [] => NaN
    | ds => signed (fold_left (fun acc c => 16 * acc + hex_value c) ds 0)
    end
  else
    match fst (span isDigit s) with
    | [] => NaN
    | ds => signed (digits_value ds)
    end.

(** ** Printing numbers *)

Fixpoint uint_units (d : Decimal.uint) : JsString :=
  match d with
  | Decimal.Nil => []
  | Decimal.D0 r => 48%N :: uint_units r
  | Decimal.D1 r => 49%N :: uint_units r
  | Decimal.D2 r => 50%N :: uint_units r
  | Decimal.D3 r => 51%N :: uint_units r
  | Decimal.D4 r => 52%N :: uint_units r
  | Decimal.D5 r => 53%N :: uint_units r
  | Decimal.D6 r => 54%N :: uint_units r
  | Decimal.D7 r => 55%N :: uint_units r
  | Decimal.D8 r => 56%N :: uint_units r
  | Decimal.D9 r => 57%N :: uint_units r
  end.

(** Decimal digits of a natural number, most significant first. *)
Definition digits_of (n : Z) : JsString := uint_units (N.to_uint (Z.to_N n)).

(** The least [f <= fuel] with [den] dividing [10^f]. *)
Fixpoint decimal_places (fuel : nat) (den : Z) (f : Z) : Z :=
  match fuel with
  | O => f
  | S fuel' =>
    if (10 ^ f) mod den =? 0 then f else decimal_places fuel' den (f + 1)
  end.

(** Removes trailing zeros from [m > 0], counting them. *)
Fixpoint strip_zeros (fuel : nat) (m : Z) (t : Z) : Z * Z :=
  match fuel with
  | O => (m, t)
  | S fuel' =>
    if m mod 10 =? 0 then strip_zeros fuel' (m / 10) (t + 1) else (m, t)
  end.

Definition zeros (n : Z) : JsString := repeat 48%N (Z.to_nat n).

(** [Number::toString] for a positive finite value.  With [k] digits
    [s] and [q = s * 10^(n-k)], the four layouts of the standard.  The
    finite values of a run are finite decimals (they come from decimal
    text and are combined with [+], [-] and [*] only); for any other
    rational the expansion is cut after [decimal_places]. *)
Definition positive_to_string (q : Q) : JsString :=
  let den := Z.pos (Qden q) in
  let f := decimal_places (S (Pos.to_nat (Pos.size (Qden q)))) den 0 in
  let m := (Qnum q * 10 ^ f) / den in
  let '(s, t) := strip_zeros (Z.to_nat (Z.log2 m) + 1) m 0 in
  let ds := digits_of s in
  let k := Z.of_nat (List.length ds) in
  let n := k + t - f in
  if (k <=? n) && (n <=? 21) then ds ++ zeros (n - k)
  else if (0 <? n) && (n <=? 21) then
    firstn (Z.to_nat n) ds ++ 46%N :: skipn (Z.to_nat n) ds
  else if (-6 <? n) && (n <=? 0) then
    js "0." ++ zeros (- n) ++ ds
  else
    let e := n - 1 in
    let esign := if 0 <=? e then 43%N else 45%N in
    match ds with
    | d :: ((_ :: _) as rest) => d :: 46%N :: rest
    | _ => ds
    end ++ 101%N :: esign :: digits_of (Z.abs e).

Definition Number_toString (a : Number) : JsString :=
  match a with
  | NaN => js "NaN"
  | PosInf => js "Infinity"
  | NegInf => js "-Infinity"
  | Fin q =>
    match Qc_sign q with
    | Eq => js "0"
    | Gt => positive_to_string q
    | Lt => 45%N :: positive_to_string (Qopp q)
    end
  end.

(** ** Values, exceptions and conversions *)

#[local] Set Warnings "-register-all".

Inductive JsValue : Type :=
| JUndefined
| JNull
| JBool (b : bool)
| JNum (n : Number)
| JStr (s : JsString)
| JArr (items : list JsValue)
| JObj (props : list (JsString * JsValue)).

Definition Props := list (JsString * JsValue).

Record JsError : Type := { message : JsString }.

Inductive completion (A : Type) : Type :=
| Normal (a : A)
| Throw (e : JsError).
Arguments Normal {A} a.
Arguments Throw {A} e.

Definition TypeError (msg : string) : JsError := {| message := js msg |}.

Fixpoint lookup (key : JsString) (props : Props) : option JsValue :=
  match props with
  | [] => None
  | (k, v) :: rest => if str_eqb k key then Some v else lookup key rest
  end.

Definition has_key (key : JsString) (props : Props) : bool :=
  match lookup key props with Some _ => true | None => false end.

(** [v.key], for the property names the servers read: none of them is
    defined on a prototype, so only an object's own properties can
    answer; reading a property of [undefined] or [null] throws. *)
Definition getProp (v : JsValue) (key : string) : completion JsValue :=
  match v with
  | JUndefined | JNull =>
    Throw (TypeError "Cannot read properties of undefined")
  | JObj props =>
    Normal (match lookup (js key) props with Some x => x | None => JUndefined end)
  | _ => Normal JUndefined
  end.

(** ToBoolean: the operand of [!] and of [if]. *)
Definition truthy (v : JsValue) : bool :=
  match v with
  | JUndefined | JNull => false
  | JBool b => b
  | JNum NaN => false
  | JNum (Fin q) => negb (Qeq_bool q 0)
  | JNum _ => true
  | JStr s => match s with [] => false | _ => true end
  | JArr _ | JObj _ => true
  end.

Definition completion_bind {A B} (c : completion A) (k : A -> completion B)
  : completion B :=
  match c with
  | Normal a => k a
  | Throw e => Throw e
  end.

(** ToString.  An array prints its elements joined by commas, [null]
    and [undefined] elements printing as nothing.  A plain object
    prints as [[object Object]] through [Object.prototype.toString];
    when it has a [toString] property of its own (never callable in
    parsed JSON) neither [toString] nor [valueOf] yields a primitive
    and the conversion throws. *)
Fixpoint ToString (v : JsValue) : completion JsString :=
  match v with
  | JUndefined => Normal (js "undefined")
  | JNull => Normal (js "null")
  | JBool true => Normal (js "true")
  | JBool false => Normal (js "false")
  | JNum n => Normal (Number_toString n)
  | JStr s => Normal s
  | JArr items =>
    (fix join (l : list JsValue) : completion JsString :=
       match l with
       | [] => Normal []
       | x :: rest =>
         completion_bind
           (match x with
            | JUndefined | JNull => Normal []
            | _ => ToString x
            end)
           (fun a =>
              match rest with
              | [] => Normal a
              | _ :: _ =>
                completion_bind (join rest) (fun b => Normal (a ++ 44%N :: b))
              end)
       end) items
  | JObj props =>
    if has_key (js "toString") props
    then Throw (TypeError "Cannot convert object to primitive value")
    else Normal (js "[object Object]")
  end.

(** [parseInt(v)]: the argument is converted to a string first. *)
Definition parseInt (v : JsValue) : completion Number :=
  completion_bind (ToString v) (fun s => Normal (parseInt_string s)).

(** ** The world outside the server *)

Record Request : Type := {
  url : JsString;
  user_agent : option JsString
}.

Record HttpResponse : Type := {
  ok : bool;
  status : Z;
  text : completion JsString
}.

(** A loaded document [$], seen through the three queries the
    extractors make. *)
Record Cheerio : Type := {
  (** [$(sel).first().length] *)
  first_length : JsString -> N;
  (** [$(sel).first().text()] *)
  first_text : JsString -> JsString;
  (** [$(sel).first().find(sub).text()] *)
  first_find_text : JsString -> JsString -> JsString
}.

Record World : Type := {
  fetch : Request -> completion HttpResponse;
  cheerio_load : JsString -> completion Cheerio;
  Math_random : Qc
}.

(** ** Computations: a request log and exceptions *)

Definition Log := list Request.

Definition M (A : Type) : Type := Log -> completion A * Log.

Definition ret {A} (a : A) : M A := fun log => (Normal a, log).

Definition bind {A B} (c : M A) (k : A -> M B) : M B :=
  fun log =>
    match c log with
    | (Normal a, log1) => k a log1
    | (Throw e, log1) => (Throw e, log1)
    end.

Definition lift {A} (c : completion A) : M A := fun log => (c, log).

(** [try { body } catch (error) { handler }] *)
Definition try_catch {A} (body : M A) (handler : JsError -> M A) : M A :=
  fun log =>
    match body log with
    | (Normal a, log1) => (Normal a, log1)
    | (Throw e, log1) => handler e log1
    end.

(** [await fetch(url, ...)]: the request is recorded, then the world
    answers. *)
Definition do_fetch (w : World) (r : Request) : M HttpResponse :=
  fun log => (fetch w r, log ++ [r]).

Declare Scope js_scope.
Delimit Scope js_scope with js.
Notation "x <- c ;; k" := (bind c (fun x => k))
  (at level 61, c at next level, right associativity) : js_scope.

(** What a request ends in: a reply, or an exception that escaped the
    handler. *)
Inductive Outcome : Type :=
| Reply (code : Z) (json : Props)
| Unhandled (e : JsError).

Definition run (c : M Outcome) : Outcome * Log :=
  match c [] with
  | (Normal o, log) => (o, log)
  | (Throw e, log) => (Unhandled e, log)
  end.

Definition browser_agent : JsString :=
  js "Mozilla/5.0 (Windows NT 10.0; Win64; x64) AppleWebKit/537.36 (KHTML, like Gecko) Chrome/108.0.0.0 Safari/537.36".

(** [Math.floor(Math.random() * 25) + 5], common to both revisions. *)
Definition random_bonus (r : Qc) : Number :=
  Nadd (Math_floor (Nmul (Fin r) (ofZ 25))) (ofZ 5).

Local Open Scope js_scope.

(** ** [src/server.js]: the grade-based revision *)

Module Server.

(** The parse step shared by both extractors (lines 112-120 and
    145-152): a non-empty price text is stripped with
    [/[^0-9.-]+/g] and parsed; [NaN] and an empty text give [0]. *)
Definition priceFromText (priceText : JsString) : Number :=
  if truthy (JStr priceText) then
    let price := parseFloat (strip_non_price priceText) in
    if isNaN price then ofZ 0 else price
  else ofZ 0.

Definition getCeXPrice (w : World) (model storage grade : JsValue) : M Number :=
  try_catch
    (m <- lift (ToString model) ;;
     s <- lift (ToString storage) ;;
     g <- lift (ToString grade) ;;
     let searchQuery :=
       replace_spaces (js "+") (m ++ js " " ++ s ++ js " Unlocked " ++ g) in
     let url := js "https://uk.webuy.com/search?stext=" ++ searchQuery in
     response <- do_fetch w {| url := url; user_agent := Some browser_agent |} ;;
     if negb (ok response) then ret (ofZ 0)
     else
       html <- lift (text response) ;;
       doc <- lift (cheerio_load w html) ;;
       if (first_length doc (js ".product-box-container") =? 0)%N then ret (ofZ 0)
       else
         let priceText :=
           first_find_text doc (js ".product-box-container") (js ".sell-price .price") in
         ret (priceFromText priceText))
    (fun error => ret (ofZ 0)).

Definition getMusicMagpiePrice (w : World) (brand model storage : JsValue)
  : M Number :=
  try_catch
    (b <- lift (ToString brand) ;;
     m <- lift (ToString model) ;;
     s <- lift (ToString storage) ;;
     let searchQuery :=
       replace_spaces (js "%20") (b ++ js " " ++ m ++ js " " ++ s) in
     let url :=
       js "https://www.musicmagpie.co.uk/sell-mobile-phones/search/?keyword="
          ++ searchQuery in
     response <- do_fetch w {| url := url; user_agent := Some browser_agent |} ;;
     html <- lift (text response) ;;
     doc <- lift (cheerio_load w html) ;;
     let priceText := trim (first_text doc (js ".product-price-now")) in
     ret (priceFromText priceText))
    (fun error => ret (ofZ 0)).

Definition no_price_message : JsString :=
  js "Sorry, we couldn't find a price for this model right now.".

(** Lines 50-71: the reply once both prices are known. *)
Definition quote (cexPrice musicMagpiePrice : Number) (random : Qc) : Outcome :=
  let highestCompetitorPrice := Math_max cexPrice musicMagpiePrice in
  if Nle highestCompetitorPrice (ofZ 0) then
    Reply 200 [ (js "ourPrice", JNum (ofZ 0));
                (js "cexPrice", JNum cexPrice);
                (js "musicMagpiePrice", JNum musicMagpiePrice);
                (js "message", JStr no_price_message) ]
  else
    let basePrice := highestCompetitorPrice in
    let finalOffer := Nadd (Math_round basePrice) (random_bonus random) in
    Reply 200 [ (js "ourPrice", JNum finalOffer);
                (js "cexPrice", JNum cexPrice);
                (js "musicMagpiePrice", JNum musicMagpiePrice) ].

(** [app.post('/api/get-quote', ...)].  The two extractors are started
    in source order by [Promise.all]; neither can reject, so awaiting
    both in that order gives the same reply and the same log. *)
Definition get_quote (w : World) (body : JsValue) : M Outcome :=
  brand <- lift (getProp body "brand") ;;
  model <- lift (getProp body "model") ;;
  storage <- lift (getProp body "storage") ;;
  grade <- lift (getProp body "grade") ;;
  if negb (truthy brand) || negb (truthy model) || negb (truthy storage)
     || negb (truthy grade)
  then
    ret (Reply 400
           [ (js "error", JStr (js "Please provide all device details, including grade.")) ])
  else
    (* console.log(`Scraping for: ${grade} Grade ${brand} ${model} ${storage}`) *)
    _ <- lift (ToString grade) ;;
    _ <- lift (ToString brand) ;;
    _ <- lift (ToString model) ;;
    _ <- lift (ToString storage) ;;
    try_catch
      (cexPrice <- getCeXPrice w model storage grade ;;
       musicMagpiePrice <- getMusicMagpiePrice w brand model storage ;;
       ret (quote cexPrice musicMagpiePrice (Math_random w)))
      (fun error =>
         ret (Reply 500 [ (js "error", JStr (js "An internal server error occurred.")) ])).

End Server.

(** ** [src/unnamed/part_000]: the condition-record revision *)

Module Part000.

(** Lines 137-142 and 167-171: only the first pound sign is removed
    before parsing. *)
Definition priceFromText (priceText : JsString) : Number :=
  if truthy (JStr priceText) then
    let price := parseFloat (remove_first (js "£") priceText) in
    if isNaN price then ofZ 0 else price
  else ofZ 0.

Definition getCeXPrice (w : World) (model storage : JsValue) : M Number :=
  try_catch
    (m <- lift (ToString model) ;;
     s <- lift (ToString storage) ;;
     let searchQuery := replace_spaces (js "+") (m ++ js " " ++ s) in
     let url := js "https://uk.webuy.com/search?stext=" ++ searchQuery in
     response <- do_fetch w {| url := url; user_agent := None |} ;;
     html <- lift (text response) ;;
     doc <- lift (cheerio_load w html) ;;
     let priceText :=
       first_text doc (js ".sell-price .price-info-row .price-info-val .price") in
     ret (priceFromText priceText))
    (fun error => ret (ofZ 0)).

Definition getMusicMagpiePrice (w : World) (brand model storage : JsValue)
  : M Number :=
  try_catch
    (b <- lift (ToString brand) ;;
     m <- lift (ToString model) ;;
     s <- lift (ToString storage) ;;
     let searchQuery :=
       replace_spaces (js "%20") (b ++ js " " ++ m ++ js " " ++ s) in
     let url :=
       js "https://www.musicmagpie.co.uk/sell-mobile-phones/search/?keyword="
          ++ searchQuery in
     response <- do_fetch w {| url := url; user_agent := None |} ;;
     html <- lift (text response) ;;
     doc <- lift (cheerio_load w html) ;;
     let priceText := trim (first_text doc (js ".product-price-now")) in
     ret (priceFromText priceText))
    (fun error => ret (ofZ 0)).

Definition no_price_message : JsString :=
  js "Sorry, we couldn't find a price for this model right now.".

(** Lines 89-96: the running [basePrice]. *)
Definition adjust (condition : JsValue) (highestCompetitorPrice : Number)
  : completion Number :=
  let basePrice := highestCompetitorPrice in
  completion_bind (getProp condition "screen_condition") (fun screen =>
  completion_bind (parseInt screen) (fun screen =>
  let basePrice :=
    Nsub basePrice (Nmul (Nsub (ofZ 4) screen) (Nmul basePrice (dec 15 2))) in
  completion_bind (getProp condition "body_condition") (fun body =>
  completion_bind (parseInt body) (fun body =>
  let basePrice :=
    Nsub basePrice (Nmul (Nsub (ofZ 4) body) (Nmul basePrice (dec 1 1))) in
  completion_bind (getProp condition "fully_functional") (fun fully_functional =>
  let basePrice :=
    if negb (truthy fully_functional) then Nmul basePrice (dec 4 1) else basePrice in
  completion_bind (getProp condition "camera_works") (fun camera_works =>
  let basePrice :=
    if negb (truthy camera_works) then Nmul basePrice (dec 8 1) else basePrice in
  completion_bind (getProp condition "battery_health") (fun battery_health =>
  let basePrice :=
    if negb (truthy battery_health) then Nmul basePrice (dec 9 1) else basePrice in
  completion_bind (getProp condition "original_box") (fun original_box =>
  let basePrice :=
    if truthy original_box then Nadd basePrice (ofZ 10) else basePrice in
  completion_bind (getProp condition "charger_included") (fun charger_included =>
  let basePrice :=
    if truthy charger_included then Nadd basePrice (ofZ 5) else basePrice in
  Normal basePrice))))))))).

(** Lines 75-108: the reply once both prices are known. *)
Definition quote (condition : JsValue) (cexPrice musicMagpiePrice : Number)
    (random : Qc) : completion Outcome :=
  let highestCompetitorPrice := Math_max cexPrice musicMagpiePrice in
  if Nle highestCompetitorPrice (ofZ 0) then
    Normal
      (Reply 200 [ (js "ourPrice", JNum (ofZ 0));
                   (js "cexPrice", JNum cexPrice);
                   (js "musicMagpiePrice", JNum musicMagpiePrice);
                   (js "message", JStr no_price_message) ])
  else
    completion_bind (adjust condition highestCompetitorPrice) (fun basePrice =>
    let finalOffer := Nadd (Math_round basePrice) (random_bonus random) in
    Normal
      (Reply 200 [ (js "ourPrice", JNum finalOffer);
                   (js "cexPrice", JNum cexPrice);
                   (js "musicMagpiePrice", JNum musicMagpiePrice) ])).

Definition get_quote (w : World) (body : JsValue) : M Outcome :=
  brand <- lift (getProp body "brand") ;;
  model <- lift (getProp body "model") ;;
  storage <- lift (getProp body "storage") ;;
  condition <- lift (getProp body "condition") ;;
  if negb (truthy brand) || negb (truthy model) || negb (truthy storage)
     || negb (truthy condition)
  then
    ret (Reply 400 [ (js "error", JStr (js "Please provide all device details.")) ])
  else
    (* console.log(`Scraping for: ${brand} ${model} ${storage}`) *)
    _ <- lift (ToString brand) ;;
    _ <- lift (ToString model) ;;
    _ <- lift (ToString storage) ;;
    try_catch
      (cexPrice <- getCeXPrice w model storage ;;
       musicMagpiePrice <- getMusicMagpiePrice w brand model storage ;;
       lift (quote condition cexPrice musicMagpiePrice (Math_random w)))
      (fun error =>
         ret (Reply 500 [ (js "error", JStr (js "An internal server error occurred.")) ])).

End Part000.

(** ** Observations on a run *)

(** The value read by [const { key } = req.body]; [undefined] stands in
    when the read throws. *)
Definition field (body : JsValue) (key : string) : JsValue :=
  match getProp body key with
  | Normal v => v
  | Throw _ => JUndefined
  end.

Definition prints (v : JsValue) : bool :=
  match ToString v with Normal _ => true | Throw _ => false end.

Definition value_of (r : completion Number * Log) : Number :=
  match fst r with
  | Normal n => n
  | Throw _ => NaN
  end.

(** The larger of two numbers, when neither is [NaN]. *)
Definition larger (a b : Number) : Number := if Nle a b then b else a.

Definition ourPrice (o : Outcome) : option JsValue :=
  match o with
  | Reply _ json => lookup (js "ourPrice") json
  | Unhandled _ => None
  end.

Definition has_message (o : Outcome) : bool :=
  match o with
  | Reply _ json => has_key (js "message") json
  | Unhandled _ => false
  end.

Definition in_unit_interval (r : Qc) : Prop := (0 <= r)%Qc /\ (r < 1)%Qc.

Module ServerRun.

(** The request passes validation and the log line of line 40 can be
    printed, so both extractors are started. *)
Definition accepted (body : JsValue) : bool :=
  truthy (field body "brand") && truthy (field body "model")
  && truthy (field body "storage") && truthy (field body "grade")
  && prints (field body "grade") && prints (field body "brand")
  && prints (field body "model") && prints (field body "storage").

(** The prices the two extractors return for a request. *)
Definition scraped (w : World) (body : JsValue) : Number * Number :=
  let r1 := Server.getCeXPrice w (field body "model") (field body "storage")
                               (field body "grade") [] in
  let r2 := Server.getMusicMagpiePrice w (field body "brand") (field body "model")
                                       (field body "storage") (snd r1) in
  (value_of r1, value_of r2).

End ServerRun.

Module Part000Run.

Definition accepted (body : JsValue) : bool :=
  truthy (field body "brand") && truthy (field body "model")
  && truthy (field body "storage") && truthy (field body "condition")
  && prints (field body "brand") && prints (field body "model")
  && prints (field body "storage").

Definition scraped (w : World) (body : JsValue) : Number * Number :=
  let r1 := Part000.getCeXPrice w (field body "model") (field body "storage") [] in
  let r2 := Part000.getMusicMagpiePrice w (field body "brand") (field body "model")
                                        (field body "storage") (snd r1) in
  (value_of r1, value_of r2).

End Part000Run.

(** ** The condition record *)

Module Spec.

Record Condition : Type := {
  screen_condition : Z;
  body_condition : Z;
  fully_functional : bool;
  camera_works : bool;
  battery_health : bool;
  original_box : bool;
  charger_included : bool
}.

Definition z (n : Z) : Qc := Q2Qc (inject_Z n).

(** The request-body form of a condition record. *)
Definition to_json (c : Condition) : JsValue :=
  JObj [ (js "screen_condition", JNum (ofZ (screen_condition c)));
         (js "body_condition", JNum (ofZ (body_condition c)));
         (js "fully_functional", JBool (fully_functional c));
         (js "camera_works", JBool (camera_works c));
         (js "battery_health", JBool (battery_health c));
         (js "original_box", JBool (original_box c));
         (js "charger_included", JBool (charger_included c)) ].

End Spec.

(** ** Statements about runs *)

(** [t] is the price text the world serves for the query [pick]. *)
Definition page_text_of (w : World) (pick : Cheerio -> JsString) (t : JsString)
  : Prop :=
  exists r resp html doc,
    fetch w r = Normal resp /\ text resp = Normal html
    /\ cheerio_load w html = Normal doc /\ t = pick doc.

(** What an extractor run amounts to: it returns normally, with [0] or
    with the parse of the price text of the page. *)
Definition scrapes (w : World) (parse : JsString -> Number)
    (pick : Cheerio -> JsString) (c : M Number) : Prop :=
  forall log, exists n log',
    c log = (Normal n, log')
    /\ (n = ofZ 0 \/ exists t, page_text_of w pick t /\ n = parse t).

(** An extractor run returns normally with a number that is not [NaN],
    negative only when the price text of the page has a minus sign. *)
Definition unsigned_unless_minus (w : World) (pick : Cheerio -> JsString)
    (c : M Number) : Prop :=
  forall log, exists n log',
    c log = (Normal n, log')
    /\ isNaN n = false
    /\ (Nlt n (ofZ 0) = true ->
        exists t, page_text_of w pick t /\ In 45%N t).

(** Some required field is not a property of the request body. *)
Definition missing (required : list string) (props : Props) : Prop :=
  exists key, In key required /\ has_key (js key) props = false.

(** No code unit of the text is a decimal digit. *)
Definition no_digit (t : JsString) : Prop := forall c, In c t -> isDigit c = false.

(** The reply carries an integer as [ourPrice]. *)
Definition price_is_integer (o : Outcome) : Prop :=
  exists p, ourPrice o = Some (JNum p) /\ isInteger p = true.

(** ** Sample worlds *)

(** A page that answers every query with the same price text. *)
Definition sample_doc (price : JsString) : Cheerio :=
  {| first_length := fun _ => 1%N;
     first_text := fun _ => price;
     first_find_text := fun _ _ => price |}.

(** A world in which every request is answered with status [200] (or
    [404] when [okay] is unset) and a page showing [price]. *)
Definition sample_world (okay : bool) (price : string) (random : Qc) : World :=
  {| fetch := fun _ => Normal {| ok := okay; status := if okay then 200 else 404;
                                 text := Normal (js "<html>") |};
     cheerio_load := fun _ => Normal (sample_doc (js price));
     Math_random := random |}.

(** The largest binary64 value below 1, the greatest result
    [Math.random()] can have. *)
Definition largest_draw : Qc := Q2Qc ((2 ^ 53 - 1) # (2 ^ 53)).

Definition sample_body : JsValue :=
  JObj [ (js "brand", JStr (js "Apple")); (js "model", JStr (js "iPhone 14 Pro"));
         (js "storage", JStr (js "128GB")); (js "grade", JStr (js "A")) ].

(** A request of the condition-record revision. *)
Definition sample_request_with (condition : JsValue) : JsValue :=
  JObj [ (js "brand", JStr (js "Apple")); (js "model", JStr (js "iPhone 14 Pro"));
         (js "storage", JStr (js "128GB")); (js "condition", condition) ].

Definition sample_request (c : Spec.Condition) : JsValue :=
  sample_request_with (Spec.to_json c).

(** The flawless device of the specification's examples. *)
Definition perfect : Spec.Condition :=
  {| Spec.screen_condition := 4; Spec.body_condition := 4;
     Spec.fully_functional := true; Spec.camera_works := true;
     Spec.battery_health := true; Spec.original_box := false;
     Spec.charger_included := false |}.

Definition faulty : Spec.Condition :=
  {| Spec.screen_condition := 4; Spec.body_condition := 4;
     Spec.fully_functional := false; Spec.camera_works := true;
     Spec.battery_health := true; Spec.original_box := false;
     Spec.charger_included := false |}.

(** ** The arithmetic of the offer in binary64

    The same operations on IEEE 754 double-precision values, as the
    engine carries them out, for inputs that are already numbers and
    booleans.  It serves to recompute the figures of the examples with
    rounding in place. *)

Module Binary64.

Definition prec : Z := 53.
Definition emax : Z := 1024.

Definition ofZ (z : Z) : spec_float := binary_normalize prec emax z 0 false.

(** The literal [m / 10^d]: the quotient of two exactly represented
    integers, rounded to nearest. *)
Definition dec (m : Z) (d : positive) : spec_float :=
  SFdiv prec emax (ofZ m) (ofZ (Z.pos (Pos.pow 10 d))).

Definition add : spec_float -> spec_float -> spec_float := SFadd prec emax.
Definition sub : spec_float -> spec_float -> spec_float := SFsub prec emax.
Definition mul : spec_float -> spec_float -> spec_float := SFmul prec emax.

(** [Math.floor] *)
Definition floor (x : spec_float) : spec_float :=
  match x with
  | S754_finite s m e =>
    if e <? 0 then ofZ ((if s then Z.neg m else Z.pos m) / 2 ^ (- e)) else x
  | _ => x
  end.

(** [Math.round]: [floor (x + 1/2)] computed without rounding. *)
Definition round (x : spec_float) : spec_float :=
  match x with
  | S754_finite s m e =>
    if e <? 0
    then ofZ ((2 * (if s then Z.neg m else Z.pos m) + 2 ^ (- e)) / 2 ^ (1 - e))
    else x
  | _ => x
  end.

(** Lines 89-96 of [part_000] on a typed condition record. *)
Definition adjust (c : Spec.Condition) (highestCompetitorPrice : spec_float)
  : spec_float :=
  let basePrice := highestCompetitorPrice in
  let basePrice :=
    sub basePrice (mul (sub (ofZ 4) (ofZ (Spec.screen_condition c)))
                       (mul basePrice (dec 15 2))) in
  let basePrice :=
    sub basePrice (mul (sub (ofZ 4) (ofZ (Spec.body_condition c)))
                       (mul basePrice (dec 1 1))) in
  let basePrice :=
    if negb (Spec.fully_functional c) then mul basePrice (dec 4 1) else basePrice in
  let basePrice :=
    if negb (Spec.camera_works c) then mul basePrice (dec 8 1) else basePrice in
  let basePrice :=
    if negb (Spec.battery_health c) then mul basePrice (dec 9 1) else basePrice in
  let basePrice :=
    if Spec.original_box c then add basePrice (ofZ 10) else basePrice in
  let basePrice :=
    if Spec.charger_included c then add basePrice (ofZ 5) else basePrice in
  basePrice.

(** [Math.floor(random * 25) + 5] *)
Definition random_bonus (random : spec_float) : spec_float :=
  add (floor (mul random (ofZ 25))) (ofZ 5).

(** [1 - 2^-53], the largest value below 1. *)
Definition largest_draw : spec_float := S754_finite false (2 ^ 53 - 1) (-53).

End Binary64.

(** ** The requests of a run *)

(** The string a template literal puts in place of [${v}]. *)
Definition printed (v : JsValue) : JsString :=
  match ToString v with
  | Normal s => s
  | Throw _ => []
  end.

Module Requests.

(** The requests the extractors of [server.js] issue for a body. *)
Definition server_cex (body : JsValue) : Request :=
  {| url := js "https://uk.webuy.com/search?stext="
            ++ replace_spaces (js "+")
                 (printed (field body "model") ++ js " "
                  ++ printed (field body "storage") ++ js " Unlocked "
                  ++ printed (field body "grade"));
     user_agent := Some browser_agent |}.

Definition server_magpie (body : JsValue) : Request :=
  {| url := js "https://www.musicmagpie.co.uk/sell-mobile-phones/search/?keyword="
            ++ replace_spaces (js "%20")
                 (printed (field body "brand") ++ js " "
                  ++ printed (field body "model") ++ js " "
                  ++ printed (field body "storage"));
     user_agent := Some browser_agent |}.

(** The requests the extractors of [part_000] issue for a body. *)
Definition part000_cex (body : JsValue) : Request :=
  {| url := js "https://uk.webuy.com/search?stext="
            ++ replace_spaces (js "+")
                 (printed (field body "model") ++ js " "
                  ++ printed (field body "storage"));
     user_agent := None |}.

Definition part000_magpie (body : JsValue) : Request :=
  {| url := js "https://www.musicmagpie.co.uk/sell-mobile-phones/search/?keyword="
            ++ replace_spaces (js "%20")
                 (printed (field body "brand") ++ js " "
                  ++ printed (field body "model") ++ js " "
                  ++ printed (field body "storage"));
     user_agent := None |}.

End Requests.

(** The body is an object, an array or a primitive other than
    [undefined] and [null], so that its properties can be read. *)
Definition readable (body : JsValue) : bool :=
  match body with
  | JUndefined | JNull => false
  | _ => true
  end.

Definition internal_error : Outcome :=
  Reply 500 [ (js "error", JStr (js "An internal server error occurred.")) ].

(** A world whose network is down: every [fetch] rejects. *)
Definition offline (w : World) : Prop :=
  forall r, exists e, fetch w r = Throw e.

Definition all_digits (s : JsString) : Prop :=
  Forall (fun c => isDigit c = true) s.

Definition all_price_chars (s : JsString) : Prop :=
  Forall (fun c => isPriceChar c = true) s.

(** The value of [n] pounds and the decimal fraction written with the
    digits [fp]. *)
Definition pounds_and_fraction (n : N) (fp : JsString) : Number :=
  Fin (Q2Qc (inject_Z (Z.of_N n)
             + (digits_value fp # Z.to_pos (10 ^ Z.of_nat (List.length fp))))).

(** A world without network: every [fetch] rejects. *)
Definition dead_world (random : Qc) : World :=
  {| fetch := fun _ => Throw (TypeError "fetch failed");
     cheerio_load := fun _ => Normal (sample_doc []);
     Math_random := random |}.

(** A condition record as an HTML form sends it: the grades are
    strings of decimal digits. *)
Definition form_json (c : Spec.Condition) : JsValue :=
  JObj [ (js "screen_condition", JStr (digits_of (Spec.screen_condition c)));
         (js "body_condition", JStr (digits_of (Spec.body_condition c)));
         (js "fully_functional", JBool (Spec.fully_functional c));
         (js "camera_works", JBool (Spec.camera_works c));
         (js "battery_health", JBool (Spec.battery_health c));
         (js "original_box", JBool (Spec.original_box c));
         (js "charger_included", JBool (Spec.charger_included c)) ].

(** A device that is flawless but for its screen grade. *)
Definition screen_graded (g : Z) : Spec.Condition :=
  {| Spec.screen_condition := g; Spec.body_condition := 4;
     Spec.fully_functional := true; Spec.camera_works := true;
     Spec.battery_health := true; Spec.original_box := false;
     Spec.charger_included := false |}.

(** After leading white space and an optional sign the text starts
    with [Infinity]: [parseFloat] reads it as an infinity. *)
Definition spells_infinity (input : JsString) : bool :=
  starts_with (js "Infinity") (snd (take_sign (drop_while isWhiteSpace input))).

(** A device with the lowest grades and nothing else amiss. *)
Definition battered : Spec.Condition :=
  {| Spec.screen_condition := 1; Spec.body_condition := 1;
     Spec.fully_functional := true; Spec.camera_works := true;
     Spec.battery_health := true; Spec.original_box := false;
     Spec.charger_included := false |}.

(** A worn device: every step of the adjustment but the last changes
    the price. *)
Definition worn : Spec.Condition :=
  {| Spec.screen_condition := 2; Spec.body_condition := 3;
     Spec.fully_functional := false; Spec.camera_works := true;
     Spec.battery_health := false; Spec.original_box := true;
     Spec.charger_included := false |}.

(** ** Numbers as the engine has them: binary64

    The definitions so far compute with exact rationals.  Every
    number of the source is an IEEE 754 double: each arithmetic
    operation yields the exact result rounded to the nearest double,
    ties going to the even mantissa, and overflows to an infinity.
    [Double] describes this rounding on top of the exact operations:
    [Double.add a b] is [Nadd a b] rounded, and so on.  The sign of
    zero is still not represented. *)

Module Double.

(** [2^e] for an exponent of either sign. *)
Definition pow2 (e : Z) : Q :=
  if 0 <=? e then inject_Z (2 ^ e) else 1 # Z.to_pos (2 ^ (- e)).

(** The exponent [E] with [2^E <= a < 2^(E+1)], for [a > 0]. *)
Definition ilog2 (a : Q) : Z :=
  let k := Z.log2 (Qnum a) - Z.log2 (Z.pos (Qden a)) in
  if Qle_bool (pow2 k) a then k else k - 1.

(** The integer nearest to [x], ties going to the even one. *)
Definition rne (x : Q) : Z :=
  let f := Qfloor x in
  match (x - inject_Z f ?= 1 # 2)%Q with
  | Lt => f
  | Gt => f + 1
  | Eq => if Z.even f then f else f + 1
  end.

(** The exponent of the last mantissa bit of a double of magnitude
    [a]: 53 bits of precision, and no exponent below -1074. *)
Definition ulp_exponent (a : Q) : Z := Z.max (ilog2 a - 52) (-1074).

(** Rounding to the nearest double, ties to even; magnitudes that
    round to [2^1024] or more overflow. *)
Definition round64 (q : Q) : Number :=
  match (q ?= 0)%Q with
  | Eq => Fin (Q2Qc 0)
  | c =>
    let a := Qabs q in
    let e := ulp_exponent a in
    let v := (inject_Z (rne (a / pow2 e)) * pow2 e)%Q in
    if Qle_bool (pow2 1024) v
    then match c with Lt => NegInf | _ => PosInf end
    else Fin (Q2Qc (match c with Lt => - v | _ => v end))
  end.

Definition fl (a : Number) : Number :=
  match a with
  | Fin q => round64 q
  | _ => a
  end.

(** The number is a double: rounding leaves it as it is. *)
Definition is_double (a : Number) : bool :=
  match a with
  | Fin q => match round64 q with Fin q' => Qeq_bool q q' | _ => false end
  | _ => true
  end.

(** [x] is a multiple of [2^e]. *)
Definition on_grid (e : Z) (x : Q) : Prop :=
  exists z : Z, (x == inject_Z z * pow2 e)%Q.

(** [x] is a non-negative value with a mantissa of at most 53 bits
    and an exponent that binary64 has. *)
Definition dyadic (x : Q) : Prop :=
  exists m e : Z,
    (x == inject_Z m * pow2 e)%Q /\ 0 <= m < 2 ^ 53 /\ -1074 <= e.

(** A finite double that is not negative. *)
Definition nonneg_double (a : Number) : Prop :=
  exists q : Qc, a = Fin q /\ (0 <= q)%Q /\ dyadic q /\ (q < pow2 1024)%Q.

(** A finite double from 0 to [B]. *)
Definition double_up_to (B : Q) (a : Number) : Prop :=
  exists q : Qc,
    a = Fin q /\ (0 <= q)%Q /\ (q <= B)%Q /\ dyadic q /\ (q < pow2 1024)%Q.

(** The number is the result of a rounding. *)
Definition rounded (a : Number) : Prop := exists x, a = fl x.

(** The largest finite double. *)
Definition max_value : Z := (2 ^ 53 - 1) * 2 ^ 971.

(** Halfway between [max_value] and [2^1024]: magnitudes below it do
    not overflow. *)
Definition overflow_threshold : Q := (pow2 1024 - pow2 970)%Q.

Definition add (a b : Number) : Number := fl (Nadd a b).
Definition sub (a b : Number) : Number := fl (Nsub a b).
Definition mul (a b : Number) : Number := fl (Nmul a b).

(** The decimal literal [m / 10^d] of the program text. *)
Definition lit (m : Z) (d : positive) : Number := fl (dec m d).

Definition Math_floor (a : Number) : Number := fl (Math_floor a).
Definition Math_round (a : Number) : Number := fl (Math_round a).

Definition parseFloat (s : JsString) : Number := fl (parseFloat s).
Definition parseInt_string (s : JsString) : Number := fl (parseInt_string s).

Definition parseInt (v : JsValue) : completion Number :=
  completion_bind (ToString v) (fun s => Normal (parseInt_string s)).

(** [Math.floor(Math.random() * 25) + 5] *)
Definition random_bonus (r : Qc) : Number :=
  add (Math_floor (mul (Fin r) (ofZ 25))) (ofZ 5).

End Double.

(** The rational that the literal [m / 10^d] denotes as a double. *)
Definition double_q (m : Z) (d : positive) : Qc :=
  match Double.lit m d with
  | Fin q => q
  | _ => Q2Qc 0
  end.

(** ** The two revisions in binary64

    [ServerD] and [Part000D] are [Server] and [Part000] with every
    numeric operation rounded: the parse steps, the adjustment and the
    final offer. *)

Module Part000D.

(** Lines 137-142 and 167-171 of [part_000]. *)
Definition priceFromText (priceText : JsString) : Number :=
  if truthy (JStr priceText) then
    let price := Double.parseFloat (remove_first (js "£") priceText) in
    if isNaN price then ofZ 0 else price
  else ofZ 0.

Definition getCeXPrice (w : World) (model storage : JsValue) : M Number :=
  try_catch
    (m <- lift (ToString model) ;;
     s <- lift (ToString storage) ;;
     let searchQuery := replace_spaces (js "+") (m ++ js " " ++ s) in
     let url := js "https://uk.webuy.com/search?stext=" ++ searchQuery in
     response <- do_fetch w {| url := url; user_agent := None |} ;;
     html <- lift (text response) ;;
     doc <- lift (cheerio_load w html) ;;
     let priceText :=
       first_text doc (js ".sell-price .price-info-row .price-info-val .price") in
     ret (priceFromText priceText))
    (fun error => ret (ofZ 0)).

Definition getMusicMagpiePrice (w : World) (brand model storage : JsValue)
  : M Number :=
  try_catch
    (b <- lift (ToString brand) ;;
     m <- lift (ToString model) ;;
     s <- lift (ToString storage) ;;
     let searchQuery :=
       replace_spaces (js "%20") (b ++ js " " ++ m ++ js " " ++ s) in
     let url :=
       js "https://www.musicmagpie.co.uk/sell-mobile-phones/search/?keyword="
          ++ searchQuery in
     response <- do_fetch w {| url := url; user_agent := None |} ;;
     html <- lift (text response) ;;
     doc <- lift (cheerio_load w html) ;;
     let priceText := trim (first_text doc (js ".product-price-now")) in
     ret (priceFromText priceText))
    (fun error => ret (ofZ 0)).

(** Lines 89-96 of [part_000]. *)
Definition adjust (condition : JsValue) (highestCompetitorPrice : Number)
  : completion Number :=
  let basePrice := highestCompetitorPrice in
  completion_bind (getProp condition "screen_condition") (fun screen =>
  completion_bind (Double.parseInt screen) (fun screen =>
  let basePrice :=
    Double.sub basePrice
      (Double.mul (Double.sub (ofZ 4) screen)
                  (Double.mul basePrice (Double.lit 15 2))) in
  completion_bind (getProp condition "body_condition") (fun body =>
  completion_bind (Double.parseInt body) (fun body =>
  let basePrice :=
    Double.sub basePrice
      (Double.mul (Double.sub (ofZ 4) body)
                  (Double.mul basePrice (Double.lit 1 1))) in
  completion_bind (getProp condition "fully_functional") (fun fully_functional =>
  let basePrice :=
    if negb (truthy fully_functional)
    then Double.mul basePrice (Double.lit 4 1) else basePrice in
  completion_bind (getProp condition "camera_works") (fun camera_works =>
  let basePrice :=
    if negb (truthy camera_works)
    then Double.mul basePrice (Double.lit 8 1) else basePrice in
  completion_bind (getProp condition "battery_health") (fun battery_health =>
  let basePrice :=
    if negb (truthy battery_health)
    then Double.mul basePrice (Double.lit 9 1) else basePrice in
  completion_bind (getProp condition "original_box") (fun original_box =>
  let basePrice :=
    if truthy original_box then Double.add basePrice (ofZ 10) else basePrice in
  completion_bind (getProp condition "charger_included") (fun charger_included =>
  let basePrice :=
    if truthy charger_included then Double.add basePrice (ofZ 5) else basePrice in
  Normal basePrice))))))))).

(** Lines 75-108 of [part_000]. *)
Definition quote (condition : JsValue) (cexPrice musicMagpiePrice : Number)
    (random : Qc) : completion Outcome :=
  let highestCompetitorPrice := Math_max cexPrice musicMagpiePrice in
  if Nle highestCompetitorPrice (ofZ 0) then
    Normal
      (Reply 200 [ (js "ourPrice", JNum (ofZ 0));
                   (js "cexPrice", JNum cexPrice);
                   (js "musicMagpiePrice", JNum musicMagpiePrice);
                   (js "message", JStr Part000.no_price_message) ])
  else
    completion_bind (adjust condition highestCompetitorPrice) (fun basePrice =>
    let finalOffer :=
      Double.add (Double.Math_round basePrice) (Double.random_bonus random) in
    Normal
      (Reply 200 [ (js "ourPrice", JNum finalOffer);
                   (js "cexPrice", JNum cexPrice);
                   (js "musicMagpiePrice", JNum musicMagpiePrice) ])).

Definition get_quote (w : World) (body : JsValue) : M Outcome :=
  brand <- lift (getProp body "brand") ;;
  model <- lift (getProp body "model") ;;
  storage <- lift (getProp body "storage") ;;
  condition <- lift (getProp body "condition") ;;
  if negb (truthy brand) || negb (truthy model) || negb (truthy storage)
     || negb (truthy condition)
  then
    ret (Reply 400 [ (js "error", JStr (js "Please provide all device details.")) ])
  else
    (* console.log(`Scraping for: ${brand} ${model} ${storage}`) *)
    _ <- lift (ToString brand) ;;
    _ <- lift (ToString model) ;;
    _ <- lift (ToString storage) ;;
    try_catch
      (cexPrice <- getCeXPrice w model storage ;;
       musicMagpiePrice <- getMusicMagpiePrice w brand model storage ;;
       lift (quote condition cexPrice musicMagpiePrice (Math_random w)))
      (fun error =>
         ret (Reply 500 [ (js "error", JStr (js "An internal server error occurred.")) ])).

(** The prices the two extractors return for a request. *)
Definition scraped (w : World) (body : JsValue) : Number * Number :=
  let r1 := getCeXPrice w (field body "model") (field body "storage") [] in
  let r2 := getMusicMagpiePrice w (field body "brand") (field body "model")
                                (field body "storage") (snd r1) in
  (value_of r1, value_of r2).

End Part000D.

Module ServerD.

(** Lines 112-120 and 145-152 of [server.js]. *)
Definition priceFromText (priceText : JsString) : Number :=
  if truthy (JStr priceText) then
    let price := Double.parseFloat (strip_non_price priceText) in
    if isNaN price then ofZ 0 else price
  else ofZ 0.

Definition getCeXPrice (w : World) (model storage grade : JsValue) : M Number :=
  try_catch
    (m <- lift (ToString model) ;;
     s <- lift (ToString storage) ;;
     g <- lift (ToString grade) ;;
     let searchQuery :=
       replace_spaces (js "+") (m ++ js " " ++ s ++ js " Unlocked " ++ g) in
     let url := js "https://uk.webuy.com/search?stext=" ++ searchQuery in
     response <- do_fetch w {| url := url; user_agent := Some browser_agent |} ;;
     if negb (ok response) then ret (ofZ 0)
     else
       html <- lift (text response) ;;
       doc <- lift (cheerio_load w html) ;;
       if (first_length doc (js ".product-box-container") =? 0)%N then ret (ofZ 0)
       else
         let priceText :=
           first_find_text doc (js ".product-box-container") (js ".sell-price .price") in
         ret (priceFromText priceText))
    (fun error => ret (ofZ 0)).

Definition getMusicMagpiePrice (w : World) (brand model storage : JsValue)
  : M Number :=
  try_catch
    (b <- lift (ToString brand) ;;
     m <- lift (ToString model) ;;
     s <- lift (ToString storage) ;;
     let searchQuery :=
       replace_spaces (js "%20") (b ++ js " " ++ m ++ js " " ++ s) in
     let url :=
       js "https://www.musicmagpie.co.uk/sell-mobile-phones/search/?keyword="
          ++ searchQuery in
     response <- do_fetch w {| url := url; user_agent := Some browser_agent |} ;;
     html <- lift (text response) ;;
     doc <- lift (cheerio_load w html) ;;
     let priceText := trim (first_text doc (js ".product-price-now")) in
     ret (priceFromText priceText))
    (fun error => ret (ofZ 0)).

(** Lines 50-71 of [server.js]. *)
Definition quote (cexPrice musicMagpiePrice : Number) (random : Qc) : Outcome :=
  let highestCompetitorPrice := Math_max cexPrice musicMagpiePrice in
  if Nle highestCompetitorPrice (ofZ 0) then
    Reply 200 [ (js "ourPrice", JNum (ofZ 0));
                (js "cexPrice", JNum cexPrice);
                (js "musicMagpiePrice", JNum musicMagpiePrice);
                (js "message", JStr Server.no_price_message) ]
  else
    let basePrice := highestCompetitorPrice in
    let finalOffer :=
      Double.add (Double.Math_round basePrice) (Double.random_bonus random) in
    Reply 200 [ (js "ourPrice", JNum finalOffer);
                (js "cexPrice", JNum cexPrice);
                (js "musicMagpiePrice", JNum musicMagpiePrice) ].

Definition get_quote (w : World) (body : JsValue) : M Outcome :=
  brand <- lift (getProp body "brand") ;;
  model <- lift (getProp body "model") ;;
  storage <- lift (getProp body "storage") ;;
  grade <- lift (getProp body "grade") ;;
  if negb (truthy brand) || negb (truthy model) || negb (truthy storage)
     || negb (truthy grade)
  then
    ret (Reply 400
           [ (js "error", JStr (js "Please provide all device details, including grade.")) ])
  else
    (* console.log(`Scraping for: ${grade} Grade ${brand} ${model} ${storage}`) *)
    _ <- lift (ToString grade) ;;
    _ <- lift (ToString brand) ;;
    _ <- lift (ToString model) ;;
    _ <- lift (ToString storage) ;;
    try_catch
      (cexPrice <- getCeXPrice w model storage grade ;;
       musicMagpiePrice <- getMusicMagpiePrice w brand model storage ;;
       ret (quote cexPrice musicMagpiePrice (Math_random w)))
      (fun error =>
         ret (Reply 500 [ (js "error", JStr (js "An internal server error occurred.")) ])).

Definition scraped (w : World) (body : JsValue) : Number * Number :=
  let r1 := getCeXPrice w (field body "model") (field body "storage")
                        (field body "grade") [] in
  let r2 := getMusicMagpiePrice w (field body "brand") (field body "model")
                                (field body "storage") (snd r1) in
  (value_of r1, value_of r2).

End ServerD.

(** ** Grades *)

(** [a === b] on numbers. *)
Definition Neq (a b : Number) : bool := Nle a b && Nle b a.

(** The grade read by [parseInt(condition.key)]; [NaN] stands in when
    the conversion throws. *)
Definition grade_of (condition : JsValue) (key : string) : Number :=
  match Double.parseInt (field condition key) with
  | Normal n => n
  | Throw _ => NaN
  end.

(** One of the grades 1, 2, 3 and 4 of the specification. *)
Definition is_grade (n : Number) : bool :=
  existsb (fun k => Neq n (ofZ k)) [1; 2; 3; 4].

(** ** The adjustment as the specification words it, in binary64 *)

Module SpecD.

(** Steps 1 to 7 with the products of steps 1 and 2 taken as they are
    written, from left to right: [(4 - grade) * basePrice * rate]. *)
Definition steps_as_written (b : Number) (c : Spec.Condition) : Number :=
  let basePrice := b in
  let basePrice :=
    Double.sub basePrice
      (Double.mul (Double.mul (Double.sub (ofZ 4) (ofZ (Spec.screen_condition c)))
                              basePrice)
                  (Double.lit 15 2)) in
  let basePrice :=
    Double.sub basePrice
      (Double.mul (Double.mul (Double.sub (ofZ 4) (ofZ (Spec.body_condition c)))
                              basePrice)
                  (Double.lit 1 1)) in
  let basePrice :=
    if negb (Spec.fully_functional c)
    then Double.mul basePrice (Double.lit 4 1) else basePrice in
  let basePrice :=
    if negb (Spec.camera_works c)
    then Double.mul basePrice (Double.lit 8 1) else basePrice in
  let basePrice :=
    if negb (Spec.battery_health c)
    then Double.mul basePrice (Double.lit 9 1) else basePrice in
  let basePrice :=
    if Spec.original_box c then Double.add basePrice (ofZ 10) else basePrice in
  let basePrice :=
    if Spec.charger_included c then Double.add basePrice (ofZ 5) else basePrice in
  basePrice.

(** The same steps with [basePrice * rate] taken first in steps 1 and
    2: [(4 - grade) * (basePrice * rate)]. *)
Definition steps (b : Number) (c : Spec.Condition) : Number :=
  let basePrice := b in
  let basePrice :=
    Double.sub basePrice
      (Double.mul (Double.sub (ofZ 4) (ofZ (Spec.screen_condition c)))
                  (Double.mul basePrice (Double.lit 15 2))) in
  let basePrice :=
    Double.sub basePrice
      (Double.mul (Double.sub (ofZ 4) (ofZ (Spec.body_condition c)))
                  (Double.mul basePrice (Double.lit 1 1))) in
  let basePrice :=
    if negb (Spec.fully_functional c)
    then Double.mul basePrice (Double.lit 4 1) else basePrice in
  let basePrice :=
    if negb (Spec.camera_works c)
    then Double.mul basePrice (Double.lit 8 1) else basePrice in
  let basePrice :=
    if negb (Spec.battery_health c)
    then Double.mul basePrice (Double.lit 9 1) else basePrice in
  let basePrice :=
    if Spec.original_box c then Double.add basePrice (ofZ 10) else basePrice in
  let basePrice :=
    if Spec.charger_included c then Double.add basePrice (ofZ 5) else basePrice in
  basePrice.

(** [round(basePrice)] plus the bonus. *)
Definition offer (basePrice : Number) (random : Qc) : Number :=
  Double.add (Double.Math_round basePrice) (Double.random_bonus random).

End SpecD.

(** ** The two descriptions of binary64 side by side *)

(** A value of the Standard Library's [spec_float] and a number of
    [Double] denote the same double. *)
Definition same_double (x : spec_float) (n : Number) : bool :=
  match x, n with
  | S754_nan, NaN => true
  | S754_infinity false, PosInf => true
  | S754_infinity true, NegInf => true
  | S754_zero _, Fin q => Qeq_bool q 0
  | S754_finite s m e, Fin q =>
    Qeq_bool q ((if s then -1 else 1) * inject_Z (Z.pos m) * Double.pow2 e)
  | _, _ => false
  end.

(** The double [m * 2^e] in both descriptions. *)
Definition spec_float_of (m e : Z) : spec_float :=
  binary_normalize Binary64.prec Binary64.emax m e false.

Definition double_of (m e : Z) : Number :=
  Double.round64 (inject_Z m * Double.pow2 e).

(** The operations of the offer agree on a pair of doubles. *)
Definition operations_agree (p : (Z * Z) * (Z * Z)) : bool :=
  let '((m1, e1), (m2, e2)) := p in
  same_double (spec_float_of m1 e1) (double_of m1 e1)
  && same_double (spec_float_of m2 e2) (double_of m2 e2)
  && same_double (Binary64.mul (spec_float_of m1 e1) (spec_float_of m2 e2))
                 (Double.mul (double_of m1 e1) (double_of m2 e2))
  && same_double (Binary64.add (spec_float_of m1 e1) (spec_float_of m2 e2))
                 (Double.add (double_of m1 e1) (double_of m2 e2))
  && same_double (Binary64.sub (spec_float_of m1 e1) (spec_float_of m2 e2))
                 (Double.sub (double_of m1 e1) (double_of m2 e2))
  && same_double (Binary64.round (spec_float_of m1 e1))
                 (Double.Math_round (double_of m1 e1))
  && same_double (Binary64.floor (spec_float_of m1 e1))
                 (Double.Math_floor (double_of m1 e1)).

(** The adjustment agrees on a condition record and a baseline. *)
Definition adjustments_agree (c : Spec.Condition) (m : Z) (d : positive) : bool :=
  same_double (Binary64.dec m d) (Double.lit m d)
  && same_double (Binary64.adjust c (Binary64.dec m d))
                 (SpecD.steps (Double.lit m d) c).

(** * Properties *)

(** ** Numbers *)

Lemma Fin_eq (x y : Qc) : (x == y)%Q -> Fin x = Fin y.
Proof. intros H. f_equal. now apply Qc_is_canon. Qed.

(** Closed equations between values that contain finite numbers: the
    structure is compared constructor by constructor and the rationals
    up to [Qeq]. *)
Ltac js_eq :=
  vm_compute;
  repeat lazymatch goal with
         | |- Fin _ = Fin _ => apply Fin_eq; reflexivity
         | |- ?a = ?a => reflexivity
         | |- _ /\ _ => split
         | |- _ = _ => f_equal
         end.

Lemma this_Q2Qc (q : Q) : (this (Q2Qc q) == q)%Q.
Proof. simpl. apply Qred_correct. Qed.

Lemma ofZ_inj (a b : Z) : ofZ a = ofZ b -> a = b.
Proof.
  intros H.
  apply (f_equal (fun n => match n with Fin q => this q | _ => 0%Q end)) in H.
  assert (E : (inject_Z a == inject_Z b)%Q).
  { rewrite <- (this_Q2Qc (inject_Z a)), <- (this_Q2Qc (inject_Z b)).
    unfold ofZ in H. rewrite H. reflexivity. }
  unfold Qeq in E. simpl in E. lia.
Qed.

Lemma Nadd_ofZ (a b : Z) : Nadd (ofZ a) (ofZ b) = ofZ (a + b).
Proof.
  unfold ofZ, Nadd. apply Fin_eq. unfold Qcplus.
  rewrite !this_Q2Qc. rewrite inject_Z_plus. reflexivity.
Qed.

Lemma Nle_ofZ (a b : Z) : Nle (ofZ a) (ofZ b) = (a <=? b)%Z.
Proof.
  unfold ofZ, Nle.
  destruct (Z.leb_spec a b) as [H | H].
  - apply Qle_bool_iff. rewrite !this_Q2Qc. now rewrite <- Zle_Qle.
  - destruct (Qle_bool _ _) eqn:E; [| reflexivity].
    apply Qle_bool_iff in E. rewrite !this_Q2Qc in E.
    rewrite <- Zle_Qle in E. lia.
Qed.

Lemma isInteger_ofZ (a : Z) : isInteger (ofZ a) = true.
Proof.
  unfold isInteger, ofZ. apply Qeq_bool_iff.
  rewrite (Qfloor_comp _ _ (this_Q2Qc _)), Qfloor_Z. apply this_Q2Qc.
Qed.

Lemma Math_round_Fin (q : Qc) : Math_round (Fin q) = ofZ (Qfloor (q + (1 # 2))).
Proof. reflexivity. Qed.

(** The bonus as an integer: [floor (25 r) + 5]. *)
Lemma random_bonus_ofZ (r : Qc) :
  random_bonus r = ofZ (Qfloor (r * 25) + 5).
Proof.
  unfold random_bonus. cbn [Nmul ofZ Math_floor].
  fold (ofZ (Qfloor (r * Q2Qc (inject_Z 25))%Qc)). rewrite Nadd_ofZ.
  f_equal. f_equal. apply Qfloor_comp.
  unfold Qcmult. rewrite !this_Q2Qc. reflexivity.
Qed.

Lemma floor_scaled_draw (r : Qc) :
  in_unit_interval r -> 0 <= Qfloor (r * 25) <= 24.
Proof.
  intros [H0 H1]. unfold Qcle, Qclt in *. simpl in H0, H1.
  split.
  - rewrite <- (Qfloor_Z 0). apply Qfloor_resp_le. 
    change (inject_Z 0) with 0%Q. 
    apply Qmult_le_0_compat; [exact H0 | discriminate].
  - assert (H : (inject_Z (Qfloor (r * 25)) < inject_Z 25)%Q).
    { eapply Qle_lt_trans; [apply Qfloor_le |].
      change (inject_Z 25) with (1 * 25)%Q.
      apply Qmult_lt_compat_r; [reflexivity | exact H1]. }
    rewrite <- Zlt_Qlt in H. lia.
Qed.

(** ** The extractors *)

Ltac run_step :=
  cbv beta iota;
  match goal with
  | |- context [ToString ?x] => destruct (ToString x) eqn:?
  | |- context [fetch ?w ?r] => destruct (fetch w r) as [?resp|] eqn:?
  | |- context [negb (ok ?r)] => destruct (ok r) eqn:?; cbn [negb]
  | |- context [text ?r] => destruct (text r) eqn:?
  | |- context [cheerio_load ?w ?h] => destruct (cheerio_load w h) eqn:?
  | |- context [N.eqb ?a ?b] => destruct (N.eqb a b) eqn:?
  end.

Ltac scrape_done :=
  cbv beta iota;
  do 2 eexists; split; [reflexivity |];
  first [ left; reflexivity
        | right; eexists; split; [| reflexivity];
          do 4 eexists; repeat split; eassumption ].

Lemma server_getCeXPrice_scrapes w model storage grade :
  scrapes w Server.priceFromText
    (fun doc => first_find_text doc (js ".product-box-container")
                                (js ".sell-price .price"))
    (Server.getCeXPrice w model storage grade).
Proof.
  intros log.
  unfold Server.getCeXPrice, try_catch, bind, lift, do_fetch, ret.
  repeat run_step; scrape_done.
Qed.

Lemma server_getMusicMagpiePrice_scrapes w brand model storage :
  scrapes w Server.priceFromText
    (fun doc => trim (first_text doc (js ".product-price-now")))
    (Server.getMusicMagpiePrice w brand model storage).
Proof.
  intros log.
  unfold Server.getMusicMagpiePrice, try_catch, bind, lift, do_fetch, ret.
  repeat run_step; scrape_done.
Qed.

Lemma part000_getCeXPrice_scrapes w model storage :
  scrapes w Part000.priceFromText
    (fun doc => first_text doc
                  (js ".sell-price .price-info-row .price-info-val .price"))
    (Part000.getCeXPrice w model storage).
Proof.
  intros log.
  unfold Part000.getCeXPrice, try_catch, bind, lift, do_fetch, ret.
  repeat run_step; scrape_done.
Qed.

Lemma part000_getMusicMagpiePrice_scrapes w brand model storage :
  scrapes w Part000.priceFromText
    (fun doc => trim (first_text doc (js ".product-price-now")))
    (Part000.getMusicMagpiePrice w brand model storage).
Proof.
  intros log.
  unfold Part000.getMusicMagpiePrice, try_catch, bind, lift, do_fetch, ret.
  repeat run_step; scrape_done.
Qed.

Lemma server_priceFromText_number t : isNaN (Server.priceFromText t) = false.
Proof.
  unfold Server.priceFromText.
  destruct (truthy _); [| reflexivity].
  destruct (parseFloat _); reflexivity.
Qed.

Lemma part000_priceFromText_number t : isNaN (Part000.priceFromText t) = false.
Proof.
  unfold Part000.priceFromText.
  destruct (truthy _); [| reflexivity].
  destruct (parseFloat _); reflexivity.
Qed.

(** An extractor whose parse step never yields [NaN] returns a number. *)
Lemma scrapes_number w parse pick c :
  (forall t, isNaN (parse t) = false) ->
  scrapes w parse pick c ->
  forall log, exists n log', c log = (Normal n, log') /\ isNaN n = false.
Proof.
  intros Hp Hc log. destruct (Hc log) as (n & log' & E & [-> | (t & _ & ->)]);
    eexists; exists log'; (split; [exact E |]); [reflexivity | apply Hp].
Qed.

(** ** The handlers *)

Lemma field_truthy body key :
  truthy (field body key) = true -> getProp body key = Normal (field body key).
Proof.
  unfold field. destruct (getProp body key); [reflexivity | discriminate].
Qed.

Lemma prints_ToString v :
  prints v = true -> exists s, ToString v = Normal s.
Proof.
  unfold prints. destruct (ToString v); [eauto | discriminate].
Qed.

Ltac split_accepted H :=
  repeat match type of H with
         | (_ && _)%bool = true =>
           let H1 := fresh "Hacc" in
           apply andb_prop in H; destruct H as [H H1]
         end.

(** An accepted request is answered from the two scraped prices. *)
Lemma server_get_quote_accepted w body :
  ServerRun.accepted body = true ->
  fst (run (Server.get_quote w body)) =
  Server.quote (fst (ServerRun.scraped w body)) (snd (ServerRun.scraped w body))
               (Math_random w).
Proof.
  intros H. unfold ServerRun.accepted in H. split_accepted H.
  unfold ServerRun.scraped.
  destruct (scrapes_number _ _ _ _ server_priceFromText_number
              (server_getCeXPrice_scrapes w (field body "model")
                 (field body "storage") (field body "grade")) [])
    as (c & log1 & Ec & _).
  destruct (scrapes_number _ _ _ _ server_priceFromText_number
              (server_getMusicMagpiePrice_scrapes w (field body "brand")
                 (field body "model") (field body "storage")) log1)
    as (m & log2 & Em & _).
  rewrite Ec. cbn [snd]. rewrite Em. unfold value_of. cbn [fst].
  unfold Server.get_quote, run, bind, lift, try_catch, ret.
  repeat match goal with
         | Ht : truthy (field body ?k) = true |- _ =>
           rewrite (field_truthy body k Ht); rewrite Ht; clear Ht
         | Hp : prints _ = true |- _ =>
           apply prints_ToString in Hp; destruct Hp as [? Hp]; rewrite Hp; clear Hp
         end.
  cbn [negb orb]. rewrite Ec, Em. reflexivity.
Qed.

Lemma part000_get_quote_accepted w body :
  Part000Run.accepted body = true ->
  fst (run (Part000.get_quote w body)) =
  match Part000.quote (field body "condition")
          (fst (Part000Run.scraped w body)) (snd (Part000Run.scraped w body))
          (Math_random w) with
  | Normal o => o
  | Throw _ =>
    Reply 500 [ (js "error", JStr (js "An internal server error occurred.")) ]
  end.
Proof.
  intros H. unfold Part000Run.accepted in H. split_accepted H.
  unfold Part000Run.scraped.
  destruct (scrapes_number _ _ _ _ part000_priceFromText_number
              (part000_getCeXPrice_scrapes w (field body "model")
                 (field body "storage")) [])
    as (c & log1 & Ec & _).
  destruct (scrapes_number _ _ _ _ part000_priceFromText_number
              (part000_getMusicMagpiePrice_scrapes w (field body "brand")
                 (field body "model") (field body "storage")) log1)
    as (m & log2 & Em & _).
  rewrite Ec. cbn [snd]. rewrite Em. unfold value_of. cbn [fst].
  unfold Part000.get_quote, run, bind, lift, try_catch, ret.
  repeat match goal with
         | Ht : truthy (field body ?k) = true |- _ =>
           rewrite (field_truthy body k Ht); rewrite Ht; clear Ht
         | Hp : prints _ = true |- _ =>
           apply prints_ToString in Hp; destruct Hp as [? Hp]; rewrite Hp; clear Hp
         end.
  cbn [negb orb]. rewrite Ec, Em.
  destruct (Part000.quote _ _ _ _); reflexivity.
Qed.

(** The prices an accepted request is answered from are numbers. *)
Lemma server_scraped_numbers w body :
  isNaN (fst (ServerRun.scraped w body)) = false
  /\ isNaN (snd (ServerRun.scraped w body)) = false.
Proof.
  unfold ServerRun.scraped.
  destruct (scrapes_number _ _ _ _ server_priceFromText_number
              (server_getCeXPrice_scrapes w (field body "model")
                 (field body "storage") (field body "grade")) [])
    as (c & log1 & Ec & Hc).
  destruct (scrapes_number _ _ _ _ server_priceFromText_number
              (server_getMusicMagpiePrice_scrapes w (field body "brand")
                 (field body "model") (field body "storage")) log1)
    as (m & log2 & Em & Hm).
  rewrite Ec. cbn [snd]. rewrite Em. unfold value_of. cbn [fst]. auto.
Qed.

Lemma part000_scraped_numbers w body :
  isNaN (fst (Part000Run.scraped w body)) = false
  /\ isNaN (snd (Part000Run.scraped w body)) = false.
Proof.
  unfold Part000Run.scraped.
  destruct (scrapes_number _ _ _ _ part000_priceFromText_number
              (part000_getCeXPrice_scrapes w (field body "model")
                 (field body "storage")) [])
    as (c & log1 & Ec & Hc).
  destruct (scrapes_number _ _ _ _ part000_priceFromText_number
              (part000_getMusicMagpiePrice_scrapes w (field body "brand")
                 (field body "model") (field body "storage")) log1)
    as (m & log2 & Em & Hm).
  rewrite Ec. cbn [snd]. rewrite Em. unfold value_of. cbn [fst]. auto.
Qed.

(** ** Validation *)

Lemma absent_field props key :
  has_key (js key) props = false -> getProp (JObj props) key = Normal JUndefined.
Proof.
  unfold has_key, getProp. destruct (lookup (js key) props); [discriminate | reflexivity].
Qed.

Lemma present_field props key : exists v, getProp (JObj props) key = Normal v.
Proof. unfold getProp. eauto. Qed.

(** C8: when brand, model, storage or the grade (in [server.js]; the
    condition in [part_000]) is absent from the request body, the
    handler replies 400 with an error message and the request log is
    empty: no extractor has issued a request. *)
Theorem missing_field_is_rejected (w : World) (props : Props) :
  (missing ["brand"; "model"; "storage"; "grade"]%string props ->
   run (Server.get_quote w (JObj props)) =
   (Reply 400 [ (js "error",
                 JStr (js "Please provide all device details, including grade.")) ],
    []))
  /\
  (missing ["brand"; "model"; "storage"; "condition"]%string props ->
   run (Part000.get_quote w (JObj props)) =
   (Reply 400 [ (js "error", JStr (js "Please provide all device details.")) ],
    [])).
Proof.
  split; intros (key & Hin & Habs); apply absent_field in Habs;
    unfold Server.get_quote, Part000.get_quote, run, bind, lift, ret;
    destruct (present_field props "brand") as [b Hb];
    destruct (present_field props "model") as [m Hm];
    destruct (present_field props "storage") as [s Hs];
    destruct (present_field props "grade") as [g Hg];
    destruct (present_field props "condition") as [c Hc];
    rewrite Hb, Hm, Hs, ?Hg, ?Hc;
    simpl in Hin;
    repeat (destruct Hin as [<- | Hin]; [| try contradiction]);
    try contradiction.
  all: try (assert (b = JUndefined) as -> by congruence).
  all: try (assert (m = JUndefined) as -> by congruence).
  all: try (assert (s = JUndefined) as -> by congruence).
  all: try (assert (g = JUndefined) as -> by congruence).
  all: try (assert (c = JUndefined) as -> by congruence).
  all: cbn [truthy negb orb]; rewrite ?orb_true_r; reflexivity.
Qed.

Lemma missing_field_is_rejected_witness :
  run (Server.get_quote (sample_world true "£100" (Q2Qc (1 # 2)))
         (JObj [ (js "brand", JStr (js "Apple")); (js "model", JStr (js "iPhone 14")) ;
                 (js "grade", JStr (js "A")) ])) =
  (Reply 400 [ (js "error",
                JStr (js "Please provide all device details, including grade.")) ],
   [])
  /\
  run (Part000.get_quote (sample_world true "£100" (Q2Qc (1 # 2)))
         (JObj [ (js "brand", JStr (js "Apple")); (js "model", JStr (js "iPhone 14")) ;
                 (js "grade", JStr (js "A")) ])) =
  (Reply 400 [ (js "error", JStr (js "Please provide all device details.")) ],
   []).
Proof.
  split.
  - apply (proj1 (missing_field_is_rejected _ _)).
    exists "storage"%string. split; [simpl; tauto | reflexivity].
  - apply (proj2 (missing_field_is_rejected _ _)).
    exists "storage"%string. split; [simpl; tauto | reflexivity].
Defined.

(** ** The bonus *)

Lemma bonus_bounds (r : Qc) :
  in_unit_interval r -> exists k, random_bonus r = ofZ k /\ 5 <= k <= 29.
Proof.
  intros H. exists (Qfloor (r * 25) + 5). split; [apply random_bonus_ofZ |].
  pose proof (floor_scaled_draw r H). lia.
Qed.

Lemma bonus_attained (k : Z) :
  5 <= k <= 29 ->
  exists r, in_unit_interval r /\ random_bonus r = ofZ k.
Proof.
  intros Hk. exists (Q2Qc ((k - 5) # 25)). split.
  - unfold in_unit_interval, Qcle, Qclt.
    change (this 0%Qc) with 0%Q. change (this 1%Qc) with 1%Q.
    split; rewrite this_Q2Qc; unfold Qle, Qlt; simpl; lia.
  - rewrite random_bonus_ofZ. f_equal.
    rewrite (Qfloor_comp _ (inject_Z (k - 5))).
    + rewrite Qfloor_Z. lia.
    + rewrite this_Q2Qc. unfold Qeq, Qmult, inject_Z. simpl. lia.
Qed.

(** C2: for every draw in [0, 1) the bonus
    [Math.floor(Math.random() * 25) + 5] is an integer from 5 to 29,
    each of which is attained, and it is never 30. *)
Theorem bonus_range_stops_at_29 :
  (forall r, in_unit_interval r ->
             Nle (ofZ 5) (random_bonus r) = true
             /\ Nle (random_bonus r) (ofZ 29) = true
             /\ random_bonus r <> ofZ 30)
  /\ (forall k, 5 <= k <= 29 ->
                exists r, in_unit_interval r /\ random_bonus r = ofZ k).
Proof.
  split; [| exact bonus_attained].
  intros r H. destruct (bonus_bounds r H) as (k & -> & Hk).
  rewrite !Nle_ofZ. repeat split; try (apply Z.leb_le; lia).
  intros E. apply ofZ_inj in E. lia.
Qed.

Lemma bonus_range_stops_at_29_witness :
  Nle (ofZ 5) (random_bonus largest_draw) = true
  /\ Nle (random_bonus largest_draw) (ofZ 29) = true
  /\ random_bonus largest_draw <> ofZ 30.
Proof.
  apply (proj1 bonus_range_stops_at_29 largest_draw).
  split; vm_compute; congruence.
Defined.

(** With the largest draw and a baseline of 100 the offer is 129. *)
Example server_quote_largest_draw :
  Server.quote (ofZ 100) (ofZ 80) largest_draw =
  Reply 200 [ (js "ourPrice", JNum (ofZ 129)); (js "cexPrice", JNum (ofZ 100));
              (js "musicMagpiePrice", JNum (ofZ 80)) ].
Proof. js_eq. Qed.

(** ** Offer and no-offer branches *)

Lemma Qle_bool_false (x y : Q) : Qle_bool x y = false -> (y < x)%Q.
Proof.
  intros H. apply Qnot_le_lt. intros C. apply Qle_bool_iff in C. congruence.
Qed.

Lemma Math_max_larger (a b : Number) :
  isNaN a = false -> isNaN b = false -> Math_max a b = larger a b.
Proof. destruct a, b; intros; try discriminate; reflexivity. Qed.


Lemma this_zero : this (Q2Qc (inject_Z 0)) = 0%Q.
Proof. reflexivity. Qed.

(** The larger price is at most zero exactly when both prices are. *)
Lemma larger_nonpositive (a b : Number) :
  isNaN a = false -> isNaN b = false ->
  Nle (larger a b) (ofZ 0) = Nle a (ofZ 0) && Nle b (ofZ 0).
Proof.
  intros Ha Hb. unfold larger.
  destruct a as [| | |x], b as [| | |y]; try discriminate;
    cbn [Nle ofZ andb]; rewrite ?andb_true_r, ?andb_false_r; try reflexivity.
  rewrite this_zero.
  destruct (Qle_bool x y) eqn:Exy; cbn [Nle ofZ]; rewrite ?this_zero;
    destruct (Qle_bool x 0) eqn:Ex; destruct (Qle_bool y 0) eqn:Ey;
    try reflexivity; exfalso;
    repeat match goal with
           | H : Qle_bool _ _ = true |- _ => apply Qle_bool_iff in H
           | H : Qle_bool _ _ = false |- _ => apply Qle_bool_false in H
           end; lra.
Qed.







(** ** The message field *)

Lemma getProp_truthy (v : JsValue) (key : string) :
  truthy v = true -> getProp v key = Normal (field v key).
Proof.
  unfold field. destruct v; try discriminate; reflexivity.
Qed.

(** C4 as amended: for an accepted request, in both revisions, two
    scraped prices of 0 give a 200 reply with [ourPrice], [cexPrice]
    and [musicMagpiePrice] all 0 and a non-empty message; and the
    message is present exactly when both scraped prices are at most
    0. *)
Theorem message_iff_no_positive_price (w : World) (body : JsValue) :
  (ServerRun.accepted body = true ->
   (ServerRun.scraped w body = (ofZ 0, ofZ 0) ->
    fst (run (Server.get_quote w body)) =
    Reply 200 [ (js "ourPrice", JNum (ofZ 0)); (js "cexPrice", JNum (ofZ 0));
                (js "musicMagpiePrice", JNum (ofZ 0));
                (js "message", JStr Server.no_price_message) ])
   /\ (has_message (fst (run (Server.get_quote w body))) = true <->
       Nle (fst (ServerRun.scraped w body)) (ofZ 0)
       && Nle (snd (ServerRun.scraped w body)) (ofZ 0) = true))
  /\
  (Part000Run.accepted body = true ->
   (Part000Run.scraped w body = (ofZ 0, ofZ 0) ->
    fst (run (Part000.get_quote w body)) =
    Reply 200 [ (js "ourPrice", JNum (ofZ 0)); (js "cexPrice", JNum (ofZ 0));
                (js "musicMagpiePrice", JNum (ofZ 0));
                (js "message", JStr Part000.no_price_message) ])
   /\ (has_message (fst (run (Part000.get_quote w body))) = true <->
       Nle (fst (Part000Run.scraped w body)) (ofZ 0)
       && Nle (snd (Part000Run.scraped w body)) (ofZ 0) = true))
  /\ Server.no_price_message <> [] /\ Part000.no_price_message <> [].
Proof.
  repeat split; try discriminate.
  - intros E. rewrite (server_get_quote_accepted w body H), E. reflexivity.
  - rewrite (server_get_quote_accepted w body H).
    destruct (server_scraped_numbers w body) as [Hc Hm].
    destruct (ServerRun.scraped w body) as [c m]. cbn [fst snd] in *.
    unfold Server.quote. rewrite (Math_max_larger c m Hc Hm).
    rewrite (larger_nonpositive c m Hc Hm).
    destruct (Nle c (ofZ 0) && Nle m (ofZ 0)); [reflexivity | discriminate].
  - rewrite (server_get_quote_accepted w body H).
    destruct (server_scraped_numbers w body) as [Hc Hm].
    destruct (ServerRun.scraped w body) as [c m]. cbn [fst snd] in *.
    unfold Server.quote. rewrite (Math_max_larger c m Hc Hm).
    rewrite (larger_nonpositive c m Hc Hm).
    intros ->. reflexivity.
  - intros E. rewrite (part000_get_quote_accepted w body H), E. reflexivity.
  - rewrite (part000_get_quote_accepted w body H).
    destruct (part000_scraped_numbers w body) as [Hc Hm].
    destruct (Part000Run.scraped w body) as [c m]. cbn [fst snd] in *.
    unfold Part000.quote. rewrite (Math_max_larger c m Hc Hm).
    rewrite (larger_nonpositive c m Hc Hm).
    destruct (Nle c (ofZ 0) && Nle m (ofZ 0)); [reflexivity |].
    destruct (Part000.adjust _ _); discriminate.
  - rewrite (part000_get_quote_accepted w body H).
    destruct (part000_scraped_numbers w body) as [Hc Hm].
    destruct (Part000Run.scraped w body) as [c m]. cbn [fst snd] in *.
    unfold Part000.quote. rewrite (Math_max_larger c m Hc Hm).
    rewrite (larger_nonpositive c m Hc Hm).
    intros ->. reflexivity.
Qed.

Lemma message_iff_no_positive_price_witness :
  fst (run (Server.get_quote (sample_world true "Out of stock" (Q2Qc (1 # 2)))
                             sample_body)) =
  Reply 200 [ (js "ourPrice", JNum (ofZ 0)); (js "cexPrice", JNum (ofZ 0));
              (js "musicMagpiePrice", JNum (ofZ 0));
              (js "message", JStr Server.no_price_message) ]
  /\
  fst (run (Part000.get_quote (sample_world true "Out of stock" (Q2Qc (1 # 2)))
                              (sample_request perfect))) =
  Reply 200 [ (js "ourPrice", JNum (ofZ 0)); (js "cexPrice", JNum (ofZ 0));
              (js "musicMagpiePrice", JNum (ofZ 0));
              (js "message", JStr Part000.no_price_message) ].
Proof.
  pose proof (message_iff_no_positive_price
                (sample_world true "Out of stock" (Q2Qc (1 # 2))) sample_body)
    as [Hserver _].
  pose proof (message_iff_no_positive_price
                (sample_world true "Out of stock" (Q2Qc (1 # 2)))
                (sample_request perfect))
    as [_ [Hpart _]].
  split.
  - apply (proj1 (Hserver eq_refl)). js_eq.
  - apply (proj1 (Hpart eq_refl)). js_eq.
Defined.

(** C4 as stated fails: with a price text of [-£5.00] both extractors
    return -5, not 0, and the reply still carries the message. *)
Lemma message_with_negative_prices :
  ServerRun.accepted sample_body = true
  /\ ServerRun.scraped (sample_world true "-£5.00" (Q2Qc (1 # 2))) sample_body
     = (ofZ (-5), ofZ (-5))
  /\ ofZ (-5) <> ofZ 0
  /\ fst (run (Server.get_quote (sample_world true "-£5.00" (Q2Qc (1 # 2)))
                                sample_body)) =
     Reply 200 [ (js "ourPrice", JNum (ofZ 0)); (js "cexPrice", JNum (ofZ (-5)));
                 (js "musicMagpiePrice", JNum (ofZ (-5)));
                 (js "message", JStr Server.no_price_message) ].
Proof.
  split; [reflexivity |]. split; [js_eq |]. split; [| js_eq].
  intros E. apply ofZ_inj in E. discriminate.
Qed.

(** ** The sign of a parsed price *)

Lemma drop_while_incl (p : N -> bool) (s : JsString) (c : N) :
  In c (drop_while p s) -> In c s.
Proof.
  induction s as [| a s IH]; simpl; [tauto |].
  destruct (p a); simpl; tauto.
Qed.

Lemma skipn_incl (n : nat) (s : JsString) (c : N) : In c (skipn n s) -> In c s.
Proof.
  revert s. induction n as [| n IH]; intros [| a s]; simpl; auto.
Qed.

Lemma remove_first_incl (pat s : JsString) (c : N) :
  In c (remove_first pat s) -> In c s.
Proof.
  induction s as [| a s IH]; simpl.
  - destruct (starts_with pat []); [apply skipn_incl | tauto].
  - destruct (starts_with pat (a :: s)); [apply skipn_incl |].
    simpl. tauto.
Qed.

Lemma trim_incl (s : JsString) (c : N) : In c (trim s) -> In c s.
Proof.
  unfold trim. intros H. apply in_rev in H.
  apply drop_while_incl in H. apply in_rev in H.
  now apply drop_while_incl in H.
Qed.

Lemma strip_non_price_incl (s : JsString) (c : N) :
  In c (strip_non_price s) -> In c s.
Proof. unfold strip_non_price. intros H. now apply filter_In in H. Qed.

Lemma unit_eqb_eq (a b : N) : unit_eqb a b = true -> a = b.
Proof. apply N.eqb_eq. Qed.

Lemma take_sign_minus (s s' : JsString) :
  take_sign s = (true, s') -> In 45%N s.
Proof.
  destruct s as [| c t]; simpl; [discriminate |].
  destruct (unit_eqb c 45) eqn:E.
  - apply unit_eqb_eq in E. auto.
  - destruct (unit_eqb c 43); discriminate.
Qed.

Lemma take_sign_incl (s s' : JsString) (neg : bool) (c : N) :
  take_sign s = (neg, s') -> In c s' -> In c s.
Proof.
  destruct s as [| a t]; simpl.
  - intros [= _ <-]. auto.
  - destruct (unit_eqb a 45); [intros [= _ <-]; auto |].
    destruct (unit_eqb a 43); intros [= _ <-]; simpl; auto.
Qed.

Lemma span_digits (s ds rest : JsString) :
  span isDigit s = (ds, rest) -> Forall (fun c => isDigit c = true) ds.
Proof.
  revert ds rest. induction s as [| a s IH]; simpl; intros ds rest.
  - intros [= <- _]. constructor.
  - destruct (isDigit a) eqn:E.
    + destruct (span isDigit s) as [x y]. intros [= <- _].
      constructor; [exact E | eapply IH; reflexivity].
    + intros [= <- _]. constructor.
Qed.

Lemma digits_value_nonneg (ds : JsString) :
  Forall (fun c => isDigit c = true) ds -> 0 <= digits_value ds.
Proof.
  unfold digits_value. intros H.
  assert (G : forall acc, 0 <= acc ->
                0 <= fold_left (fun acc c => 10 * acc + digit_value c) ds acc).
  { induction H as [| c ds Hc _ IH]; cbn [fold_left]; intros acc Hacc;
      [exact Hacc |].
    apply IH. unfold isDigit in Hc. apply andb_prop in Hc. destruct Hc as [Hc _].
    apply N.leb_le in Hc. unfold digit_value. lia. }
  apply G. lia.
Qed.

Lemma pow10_nonneg (e : Z) : (0 <= pow10 e)%Q.
Proof.
  unfold pow10. destruct (0 <=? e) eqn:E; rewrite this_Q2Qc.
  - change 0%Q with (inject_Z 0). rewrite <- Zle_Qle.
    apply Z.pow_nonneg. lia.
  - unfold Qle. simpl. lia.
Qed.

(** A parsed number is below zero only when the text has a minus
    sign. *)
Lemma parseFloat_negative (s : JsString) :
  Nlt (parseFloat s) (ofZ 0) = true -> In 45%N s.
Proof.
  unfold parseFloat.
  destruct (take_sign (drop_while isWhiteSpace s)) as [neg s1] eqn:Es.
  destruct neg.
  { intros _. apply take_sign_minus in Es. now apply drop_while_incl in Es. }
  destruct (starts_with (js "Infinity") s1); [discriminate |].
  destruct (span isDigit s1) as [ip r1] eqn:Eip.
  assert (Hfp : exists fp s2,
             match r1 with
             | c :: t => if unit_eqb c 46 then span isDigit t else ([], r1)
             | [] => ([], r1)
             end = (fp, s2) /\ Forall (fun c => isDigit c = true) fp).
  { destruct r1 as [| c t]; [exists [], []; split; [reflexivity | constructor] |].
    destruct (unit_eqb c 46).
    - destruct (span isDigit t) as [fp s2] eqn:Efp.
      exists fp, s2. split; [reflexivity | eapply span_digits; eassumption].
    - exists [], (c :: t). split; [reflexivity | constructor]. }
  destruct Hfp as (fp & s2 & -> & Hfp).
  pose proof (span_digits _ _ _ Eip) as Hip.
  pose proof (digits_value_nonneg (ip ++ fp)) as Hv.
  destruct (ip ++ fp) as [| d ds] eqn:Eds; [discriminate |].
  cbn [Nlt Nle ofZ]. rewrite this_zero.
  intros H. apply negb_true_iff, Qle_bool_false in H. exfalso.
  apply (Qlt_not_le _ _ H). unfold Qcmult. rewrite !this_Q2Qc.
  apply Qmult_le_0_compat; [| apply pow10_nonneg].
  change 0%Q with (inject_Z 0). rewrite <- Zle_Qle. apply Hv.
  rewrite <- Eds. apply Forall_app. split; assumption.
Qed.

Lemma server_priceFromText_negative (t : JsString) :
  Nlt (Server.priceFromText t) (ofZ 0) = true -> In 45%N t.
Proof.
  unfold Server.priceFromText.
  destruct (truthy (JStr t)); [| discriminate].
  intros H. apply strip_non_price_incl, parseFloat_negative.
  destruct (parseFloat (strip_non_price t)); try discriminate; exact H.
Qed.

Lemma part000_priceFromText_negative (t : JsString) :
  Nlt (Part000.priceFromText t) (ofZ 0) = true -> In 45%N t.
Proof.
  unfold Part000.priceFromText.
  destruct (truthy (JStr t)); [| discriminate].
  intros H. apply (remove_first_incl (js "£")), parseFloat_negative.
  destruct (parseFloat (remove_first (js "£") t)); try discriminate; exact H.
Qed.

Lemma scrapes_unsigned w parse pick c :
  (forall t, isNaN (parse t) = false) ->
  (forall t, Nlt (parse t) (ofZ 0) = true -> In 45%N t) ->
  scrapes w parse pick c ->
  unsigned_unless_minus w pick c.
Proof.
  intros Hnum Hneg Hc log.
  destruct (Hc log) as (n & log' & E & [-> | (t & Ht & ->)]);
    eexists; exists log'; (split; [exact E |]); split;
    try reflexivity; try apply Hnum; try discriminate.
  intros H. exists t. split; [exact Ht | now apply Hneg].
Qed.

(** C7 as amended: every extractor of both revisions returns normally
    with a number that is not [NaN]; the number is below zero only when
    the price text of the page contains a minus sign. *)
Theorem extractors_return_numbers (w : World) (brand model storage grade : JsValue) :
  unsigned_unless_minus w
    (fun doc => first_find_text doc (js ".product-box-container")
                                (js ".sell-price .price"))
    (Server.getCeXPrice w model storage grade)
  /\ unsigned_unless_minus w
       (fun doc => trim (first_text doc (js ".product-price-now")))
       (Server.getMusicMagpiePrice w brand model storage)
  /\ unsigned_unless_minus w
       (fun doc => first_text doc
                     (js ".sell-price .price-info-row .price-info-val .price"))
       (Part000.getCeXPrice w model storage)
  /\ unsigned_unless_minus w
       (fun doc => trim (first_text doc (js ".product-price-now")))
       (Part000.getMusicMagpiePrice w brand model storage).
Proof.
  repeat split.
  - apply (scrapes_unsigned _ Server.priceFromText);
      auto using server_priceFromText_number, server_priceFromText_negative,
                 server_getCeXPrice_scrapes.
  - apply (scrapes_unsigned _ Server.priceFromText);
      auto using server_priceFromText_number, server_priceFromText_negative,
                 server_getMusicMagpiePrice_scrapes.
  - apply (scrapes_unsigned _ Part000.priceFromText);
      auto using part000_priceFromText_number, part000_priceFromText_negative,
                 part000_getCeXPrice_scrapes.
  - apply (scrapes_unsigned _ Part000.priceFromText);
      auto using part000_priceFromText_number, part000_priceFromText_negative,
                 part000_getMusicMagpiePrice_scrapes.
Qed.

(** C7 as stated fails: a price text of [-£5.00] makes the extractor
    of [server.js] return -5. *)
Lemma server_getCeXPrice_negative :
  fst (Server.getCeXPrice (sample_world true "-£5.00" (Q2Qc (1 # 2)))
         (JStr (js "iPhone 14 Pro")) (JStr (js "128GB")) (JStr (js "A")) []) =
  Normal (ofZ (-5))
  /\ Nlt (ofZ (-5)) (ofZ 0) = true.
Proof. split; [js_eq | reflexivity]. Qed.

(** ** The parse step *)

Lemma span_no_digit (s : JsString) : no_digit s -> span isDigit s = ([], s).
Proof.
  destruct s as [| c t]; [reflexivity |].
  intros H. simpl. rewrite (H c); [reflexivity | simpl; auto].
Qed.

(** Without a digit, and without the [I] of [Infinity], no prefix of
    the text is a decimal literal. *)
Lemma parseFloat_no_digit (s : JsString) :
  no_digit s -> ~ In 73%N s -> parseFloat s = NaN.
Proof.
  intros Hd HI. unfold parseFloat.
  destruct (take_sign (drop_while isWhiteSpace s)) as [neg s1] eqn:Es.
  assert (Hin : forall c, In c s1 -> In c s).
  { intros c Hc. eapply drop_while_incl, take_sign_incl; eassumption. }
  assert (Hd1 : no_digit s1) by (intros c Hc; auto).
  destruct (starts_with (js "Infinity") s1) eqn:Einf.
  { exfalso. destruct s1 as [| y s1]; [discriminate |].
    change (js "Infinity") with (73%N :: js "nfinity") in Einf.
    cbn [starts_with] in Einf. apply andb_prop in Einf. destruct Einf as [E _].
    apply unit_eqb_eq in E. subst y. apply HI, Hin. simpl. auto. }
  rewrite (span_no_digit s1 Hd1).
  destruct s1 as [| c t]; [reflexivity |].
  destruct (unit_eqb c 46); [| reflexivity].
  rewrite (span_no_digit t); [reflexivity |].
  intros x Hx. apply Hd1. simpl. auto.
Qed.

Lemma server_priceFromText_no_digit (t : JsString) :
  no_digit t -> Server.priceFromText t = ofZ 0.
Proof.
  intros Hd. unfold Server.priceFromText.
  destruct (truthy (JStr t)); [| reflexivity].
  rewrite parseFloat_no_digit; [reflexivity | |].
  - intros c Hc. apply Hd. now apply strip_non_price_incl.
  - intros H. unfold strip_non_price in H. apply filter_In in H.
    destruct H as [_ H]. discriminate.
Qed.

(** A text without a digit is read as an infinity when it spells one,
    and as [NaN] otherwise. *)
Lemma parseFloat_no_digit_cases (s : JsString) :
  no_digit s ->
  parseFloat s =
  if spells_infinity s
  then (if fst (take_sign (drop_while isWhiteSpace s)) then NegInf else PosInf)
  else NaN.
Proof.
  intros Hd. unfold parseFloat, spells_infinity.
  destruct (take_sign (drop_while isWhiteSpace s)) as [neg s1] eqn:Es.
  cbn [fst snd].
  assert (Hd1 : no_digit s1).
  { intros c Hc. apply Hd. eapply drop_while_incl, take_sign_incl; eassumption. }
  destruct (starts_with (js "Infinity") s1); [reflexivity |].
  rewrite (span_no_digit s1 Hd1).
  destruct s1 as [| c t]; [reflexivity |].
  destruct (unit_eqb c 46); [| reflexivity].
  rewrite (span_no_digit t); [reflexivity |].
  intros x Hx. apply Hd1. simpl. auto.
Qed.

Lemma part000_priceFromText_no_digit (t : JsString) :
  no_digit t -> spells_infinity (remove_first (js "£") t) = false ->
  Part000.priceFromText t = ofZ 0.
Proof.
  intros Hd HI. unfold Part000.priceFromText.
  destruct (truthy (JStr t)); [| reflexivity].
  rewrite parseFloat_no_digit_cases, HI; [reflexivity |].
  intros c Hc. apply Hd. now apply remove_first_incl in Hc.
Qed.

Lemma part000_priceFromText_spelt (t : JsString) :
  spells_infinity (remove_first (js "£") t) = true ->
  Part000.priceFromText t = PosInf \/ Part000.priceFromText t = NegInf.
Proof.
  intros HI. unfold Part000.priceFromText.
  destruct t as [| c t]; [discriminate |]. cbn [truthy].
  unfold parseFloat. unfold spells_infinity in HI.
  destruct (take_sign _) as [neg s1]. cbn [snd] in HI. rewrite HI.
  destruct neg; cbn [isNaN]; auto.
Qed.

(** Rounding to binary64 never yields [NaN]; [NaN] and the infinities
    go through unchanged. *)
Lemma round64_number (x : Q) : isNaN (Double.round64 x) = false.
Proof.
  unfold Double.round64. destruct (x ?= 0)%Q; [reflexivity | |];
    destruct (Qle_bool _ _); reflexivity.
Qed.

Lemma fl_number (x : Number) : isNaN (Double.fl x) = isNaN x.
Proof. destruct x; try reflexivity. apply round64_number. Qed.

(** The parse steps in binary64 round the value of the text. *)
Lemma serverD_priceFromText_fl (t : JsString) :
  ServerD.priceFromText t = Double.fl (Server.priceFromText t).
Proof.
  unfold ServerD.priceFromText, Server.priceFromText, Double.parseFloat.
  destruct (truthy _); [| reflexivity].
  rewrite fl_number. destruct (isNaN _); reflexivity.
Qed.

Lemma part000D_priceFromText_fl (t : JsString) :
  Part000D.priceFromText t = Double.fl (Part000.priceFromText t).
Proof.
  unfold Part000D.priceFromText, Part000.priceFromText, Double.parseFloat.
  destruct (truthy _); [| reflexivity].
  rewrite fl_number. destruct (isNaN _); reflexivity.
Qed.

(** C5 as amended: the parse step of [server.js], shared by its two
    extractors, turns [£1,234.56] into 1234.56 (in binary64, into the
    double that the literal [1234.56] denotes) and any text without a
    digit into 0.  The parse step of [part_000] removes only the first
    pound sign: [£1,234.56] parses to 1, and a text without a digit
    parses to 0 unless what follows the leading white space and an
    optional sign, once the pound sign is removed, starts with
    [Infinity]; such a text parses to an infinity.  The four
    statements hold for the exact value of the text and for the double
    the engine returns. *)
Theorem price_text_parsing :
  (Server.priceFromText (js "£1,234.56") = dec 123456 2
   /\ ServerD.priceFromText (js "£1,234.56") = Double.lit 123456 2)
  /\ (forall t, no_digit t ->
        Server.priceFromText t = ofZ 0 /\ ServerD.priceFromText t = ofZ 0)
  /\ (Part000.priceFromText (js "£1,234.56") = ofZ 1
      /\ Part000D.priceFromText (js "£1,234.56") = ofZ 1)
  /\ (forall t, no_digit t ->
        spells_infinity (remove_first (js "£") t) = false ->
        Part000.priceFromText t = ofZ 0 /\ Part000D.priceFromText t = ofZ 0)
  /\ (forall t, spells_infinity (remove_first (js "£") t) = true ->
        (Part000.priceFromText t = PosInf \/ Part000.priceFromText t = NegInf)
        /\ (Part000D.priceFromText t = PosInf
            \/ Part000D.priceFromText t = NegInf)).
Proof.
  split; [split; js_eq |].
  split.
  { intros t Hd. rewrite serverD_priceFromText_fl.
    rewrite (server_priceFromText_no_digit t Hd). split; reflexivity. }
  split; [split; js_eq |].
  split.
  { intros t Hd HI. rewrite part000D_priceFromText_fl.
    rewrite (part000_priceFromText_no_digit t Hd HI). split; reflexivity. }
  intros t HI. rewrite part000D_priceFromText_fl.
  destruct (part000_priceFromText_spelt t HI) as [E | E]; rewrite E; auto.
Qed.

Lemma no_digit_dec (t : JsString) : forallb (fun c => negb (isDigit c)) t = true -> no_digit t.
Proof.
  intros H c Hc. rewrite forallb_forall in H. apply H in Hc.
  now apply negb_true_iff in Hc.
Qed.

Lemma price_text_parsing_witness :
  (Server.priceFromText (js "Out of stock") = ofZ 0
   /\ ServerD.priceFromText (js "Out of stock") = ofZ 0)
  /\ (Part000.priceFromText (js "In stock") = ofZ 0
      /\ Part000D.priceFromText (js "In stock") = ofZ 0)
  /\ (Part000D.priceFromText (js "£-Infinity") = PosInf
      \/ Part000D.priceFromText (js "£-Infinity") = NegInf).
Proof.
  destruct price_text_parsing as (_ & Hserver & _ & Hpart & Hinf).
  split; [| split].
  - apply Hserver. apply no_digit_dec. reflexivity.
  - apply Hpart; [apply no_digit_dec; reflexivity | reflexivity].
  - apply (Hinf (js "£-Infinity")). reflexivity.
Defined.

(** C5 as stated fails for [part_000]: the comma stops the parse. *)
Lemma part000_price_text_stops_at_comma :
  Part000.priceFromText (js "£1,234.56") = ofZ 1
  /\ ofZ 1 <> dec 123456 2.
Proof.
  split; [js_eq |]. intros E.
  apply (f_equal (fun n => match n with Fin q => Qeq_bool q 1 | _ => false end)) in E.
  vm_compute in E. discriminate.
Qed.

(** In [part_000] a text that spells [Infinity] is returned as such. *)
Example part000_price_text_infinity :
  Part000.priceFromText (js "£Infinity") = PosInf.
Proof. reflexivity. Qed.

(** ** Non-success statuses *)

(** The extractor for CeX gives up on a non-success status. *)
Lemma server_getCeXPrice_not_ok w model storage grade log :
  (forall r resp, fetch w r = Normal resp -> ok resp = false) ->
  exists log', Server.getCeXPrice w model storage grade log = (Normal (ofZ 0), log').
Proof.
  intros Hw.
  unfold Server.getCeXPrice, try_catch, bind, lift, do_fetch, ret.
  repeat run_step; try (eexists; reflexivity).
  all: match goal with
       | H : fetch _ _ = Normal _, E : ok _ = true |- _ =>
         apply Hw in H; congruence
       end.
Qed.

(** C6: the extractor for MusicMagpie in [server.js] never looks at
    the status.  In a world that answers every request with status 404
    and a page showing [£50.00] it returns 50, where the extractor for
    CeX returns 0. *)
Theorem server_getMusicMagpiePrice_ignores_status :
  (forall r, exists resp,
      fetch (sample_world false "£50.00" (Q2Qc (1 # 2))) r = Normal resp
      /\ ok resp = false /\ status resp = 404)
  /\ fst (Server.getMusicMagpiePrice (sample_world false "£50.00" (Q2Qc (1 # 2)))
            (JStr (js "Apple")) (JStr (js "iPhone 14 Pro")) (JStr (js "128GB")) [])
     = Normal (ofZ 50)
  /\ fst (Server.getCeXPrice (sample_world false "£50.00" (Q2Qc (1 # 2)))
            (JStr (js "iPhone 14 Pro")) (JStr (js "128GB")) (JStr (js "A")) [])
     = Normal (ofZ 0).
Proof.
  split; [intros r; eexists; repeat split |]. split; js_eq.
Qed.

(** ** The figures of the examples in binary64 *)

Example binary64_flawless_100 :
  Binary64.adjust perfect (Binary64.ofZ 100) = Binary64.ofZ 100
  /\ Binary64.round (Binary64.ofZ 100) = Binary64.ofZ 100.
Proof. split; vm_compute; reflexivity. Qed.

Example binary64_faulty_40 :
  Binary64.adjust faulty (Binary64.ofZ 100) = Binary64.ofZ 40.
Proof. vm_compute. reflexivity. Qed.

Example binary64_largest_bonus :
  Binary64.random_bonus Binary64.largest_draw = Binary64.ofZ 29.
Proof. vm_compute. reflexivity. Qed.

(** * Further properties *)

(** ** Outbound requests *)

Lemma prints_printed v : prints v = true -> ToString v = Normal (printed v).
Proof. unfold prints, printed. destruct (ToString v); [reflexivity | discriminate]. Qed.

Ltac log_done := cbv beta iota; cbn [snd]; reflexivity.

Lemma server_getCeXPrice_log w model storage grade log :
  prints model = true -> prints storage = true -> prints grade = true ->
  snd (Server.getCeXPrice w model storage grade log) =
  log ++ [ {| url := js "https://uk.webuy.com/search?stext="
                     ++ replace_spaces (js "+")
                          (printed model ++ js " " ++ printed storage
                           ++ js " Unlocked " ++ printed grade);
              user_agent := Some browser_agent |} ].
Proof.
  intros Hm Hs Hg.
  unfold Server.getCeXPrice, try_catch, bind, lift, do_fetch, ret.
  rewrite (prints_printed _ Hm), (prints_printed _ Hs), (prints_printed _ Hg).
  repeat run_step; log_done.
Qed.

Lemma server_getMusicMagpiePrice_log w brand model storage log :
  prints brand = true -> prints model = true -> prints storage = true ->
  snd (Server.getMusicMagpiePrice w brand model storage log) =
  log ++ [ {| url := js "https://www.musicmagpie.co.uk/sell-mobile-phones/search/?keyword="
                     ++ replace_spaces (js "%20")
                          (printed brand ++ js " " ++ printed model
                           ++ js " " ++ printed storage);
              user_agent := Some browser_agent |} ].
Proof.
  intros Hb Hm Hs.
  unfold Server.getMusicMagpiePrice, try_catch, bind, lift, do_fetch, ret.
  rewrite (prints_printed _ Hb), (prints_printed _ Hm), (prints_printed _ Hs).
  repeat run_step; log_done.
Qed.

Lemma part000_getCeXPrice_log w model storage log :
  prints model = true -> prints storage = true ->
  snd (Part000.getCeXPrice w model storage log) =
  log ++ [ {| url := js "https://uk.webuy.com/search?stext="
                     ++ replace_spaces (js "+")
                          (printed model ++ js " " ++ printed storage);
              user_agent := None |} ].
Proof.
  intros Hm Hs.
  unfold Part000.getCeXPrice, try_catch, bind, lift, do_fetch, ret.
  rewrite (prints_printed _ Hm), (prints_printed _ Hs).
  repeat run_step; log_done.
Qed.

Lemma part000_getMusicMagpiePrice_log w brand model storage log :
  prints brand = true -> prints model = true -> prints storage = true ->
  snd (Part000.getMusicMagpiePrice w brand model storage log) =
  log ++ [ {| url := js "https://www.musicmagpie.co.uk/sell-mobile-phones/search/?keyword="
                     ++ replace_spaces (js "%20")
                          (printed brand ++ js " " ++ printed model
                           ++ js " " ++ printed storage);
              user_agent := None |} ].
Proof.
  intros Hb Hm Hs.
  unfold Part000.getMusicMagpiePrice, try_catch, bind, lift, do_fetch, ret.
  rewrite (prints_printed _ Hb), (prints_printed _ Hm), (prints_printed _ Hs).
  repeat run_step; log_done.
Qed.

Lemma server_accepted_fields body :
  ServerRun.accepted body = true ->
  (truthy (field body "brand") = true /\ truthy (field body "model") = true
   /\ truthy (field body "storage") = true /\ truthy (field body "grade") = true)
  /\ (prints (field body "brand") = true /\ prints (field body "model") = true
      /\ prints (field body "storage") = true /\ prints (field body "grade") = true).
Proof.
  unfold ServerRun.accepted. intros H.
  repeat (apply andb_prop in H; destruct H as [H ?]). repeat split; assumption.
Qed.

Lemma part000_accepted_fields body :
  Part000Run.accepted body = true ->
  (truthy (field body "brand") = true /\ truthy (field body "model") = true
   /\ truthy (field body "storage") = true
   /\ truthy (field body "condition") = true)
  /\ (prints (field body "brand") = true /\ prints (field body "model") = true
      /\ prints (field body "storage") = true).
Proof.
  unfold Part000Run.accepted. intros H.
  repeat (apply andb_prop in H; destruct H as [H ?]). repeat split; assumption.
Qed.

Lemma server_run_log w body :
  ServerRun.accepted body = true ->
  snd (run (Server.get_quote w body)) =
  [Requests.server_cex body; Requests.server_magpie body].
Proof.
  intros H.
  destruct (server_accepted_fields body H)
    as [(Tb & Tm & Ts & Tg) (Pb & Pm & Ps & Pg)].
  pose proof (server_getCeXPrice_log w _ _ _ [] Pm Ps Pg) as L1.
  destruct (scrapes_number _ _ _ _ server_priceFromText_number
              (server_getCeXPrice_scrapes w (field body "model")
                 (field body "storage") (field body "grade")) [])
    as (c & log1 & Ec & _).
  rewrite Ec in L1. cbn [snd app] in L1. subst log1.
  pose proof (server_getMusicMagpiePrice_log w _ _ _
                [Requests.server_cex body] Pb Pm Ps) as L2.
  destruct (scrapes_number _ _ _ _ server_priceFromText_number
              (server_getMusicMagpiePrice_scrapes w (field body "brand")
                 (field body "model") (field body "storage"))
              [Requests.server_cex body])
    as (m & log2 & Em & _).
  rewrite Em in L2. cbn [snd app] in L2. subst log2.
  unfold Server.get_quote, run, bind, lift, try_catch, ret.
  rewrite (field_truthy body _ Tb), (field_truthy body _ Tm),
    (field_truthy body _ Ts), (field_truthy body _ Tg), Tb, Tm, Ts, Tg.
  rewrite (prints_printed _ Pb), (prints_printed _ Pm),
    (prints_printed _ Ps), (prints_printed _ Pg).
  cbn [negb orb]. fold (Requests.server_cex body) in Ec.
  rewrite Ec, Em. reflexivity.
Qed.

Lemma part000_run_log w body :
  Part000Run.accepted body = true ->
  snd (run (Part000.get_quote w body)) =
  [Requests.part000_cex body; Requests.part000_magpie body].
Proof.
  intros H.
  destruct (part000_accepted_fields body H)
    as [(Tb & Tm & Ts & Tc) (Pb & Pm & Ps)].
  pose proof (part000_getCeXPrice_log w _ _ [] Pm Ps) as L1.
  destruct (scrapes_number _ _ _ _ part000_priceFromText_number
              (part000_getCeXPrice_scrapes w (field body "model")
                 (field body "storage")) [])
    as (c & log1 & Ec & _).
  rewrite Ec in L1. cbn [snd app] in L1. subst log1.
  pose proof (part000_getMusicMagpiePrice_log w _ _ _
                [Requests.part000_cex body] Pb Pm Ps) as L2.
  destruct (scrapes_number _ _ _ _ part000_priceFromText_number
              (part000_getMusicMagpiePrice_scrapes w (field body "brand")
                 (field body "model") (field body "storage"))
              [Requests.part000_cex body])
    as (m & log2 & Em & _).
  rewrite Em in L2. cbn [snd app] in L2. subst log2.
  unfold Part000.get_quote, run, bind, lift, try_catch, ret.
  rewrite (field_truthy body _ Tb), (field_truthy body _ Tm),
    (field_truthy body _ Ts), (field_truthy body _ Tc), Tb, Tm, Ts, Tc.
  rewrite (prints_printed _ Pb), (prints_printed _ Pm), (prints_printed _ Ps).
  cbn [negb orb]. fold (Requests.part000_cex body) in Ec. rewrite Ec, Em.
  destruct (Part000.quote _ _ _ _); reflexivity.
Qed.

(** X1: an accepted request makes exactly two outbound requests, first
    to CeX and then to MusicMagpie, whatever the two sites answer: no
    retry and no short-circuit.  [server.js] sends the browser
    User-Agent with both, [part_000] sends none. *)
Theorem accepted_request_fetches_twice (w : World) (body : JsValue) :
  (ServerRun.accepted body = true ->
   snd (run (Server.get_quote w body)) =
   [Requests.server_cex body; Requests.server_magpie body])
  /\
  (Part000Run.accepted body = true ->
   snd (run (Part000.get_quote w body)) =
   [Requests.part000_cex body; Requests.part000_magpie body]).
Proof.
  split; [apply server_run_log | apply part000_run_log].
Qed.

Lemma accepted_request_fetches_twice_witness :
  map url (snd (run (Server.get_quote (sample_world false "" (Q2Qc (1 # 2)))
                                      sample_body))) =
  [ js "https://uk.webuy.com/search?stext=iPhone+14+Pro+128GB+Unlocked+A";
    js "https://www.musicmagpie.co.uk/sell-mobile-phones/search/?keyword=Apple%20iPhone%2014%20Pro%20128GB" ]
  /\
  map url (snd (run (Part000.get_quote (sample_world false "" (Q2Qc (1 # 2)))
                                       (sample_request perfect)))) =
  [ js "https://uk.webuy.com/search?stext=iPhone+14+Pro+128GB";
    js "https://www.musicmagpie.co.uk/sell-mobile-phones/search/?keyword=Apple%20iPhone%2014%20Pro%20128GB" ].
Proof.
  split.
  - rewrite (proj1 (accepted_request_fetches_twice _ sample_body) eq_refl).
    reflexivity.
  - rewrite (proj2 (accepted_request_fetches_twice _ (sample_request perfect))
               eq_refl).
    reflexivity.
Defined.

(** ** Requests that are not accepted *)

Lemma getProp_readable body key :
  readable body = true -> getProp body key = Normal (field body key).
Proof. unfold field. destruct body; try discriminate; reflexivity. Qed.

Lemma server_rejects_falsy w body :
  readable body = true ->
  truthy (field body "brand") && truthy (field body "model")
  && truthy (field body "storage") && truthy (field body "grade") = false ->
  run (Server.get_quote w body) =
  (Reply 400 [ (js "error",
                JStr (js "Please provide all device details, including grade.")) ],
   []).
Proof.
  intros Hr H. unfold Server.get_quote, run, bind, lift, ret.
  rewrite !(getProp_readable body _ Hr).
  destruct (truthy (field body "brand")), (truthy (field body "model")),
    (truthy (field body "storage"));
    cbn [andb] in H; try rewrite H; try discriminate; reflexivity.
Qed.

Lemma part000_rejects_falsy w body :
  readable body = true ->
  truthy (field body "brand") && truthy (field body "model")
  && truthy (field body "storage") && truthy (field body "condition") = false ->
  run (Part000.get_quote w body) =
  (Reply 400 [ (js "error", JStr (js "Please provide all device details.")) ],
   []).
Proof.
  intros Hr H. unfold Part000.get_quote, run, bind, lift, ret.
  rewrite !(getProp_readable body _ Hr).
  destruct (truthy (field body "brand")), (truthy (field body "model")),
    (truthy (field body "storage"));
    cbn [andb] in H; try rewrite H; try discriminate; reflexivity.
Qed.

(** X2: a required field that is present but falsy (an empty string,
    [0], [false], [null]) is rejected like a missing one: reply 400 and
    no outbound request. *)
Theorem falsy_field_is_rejected (w : World) (body : JsValue) :
  readable body = true ->
  (truthy (field body "brand") && truthy (field body "model")
   && truthy (field body "storage") && truthy (field body "grade") = false ->
   run (Server.get_quote w body) =
   (Reply 400 [ (js "error",
                 JStr (js "Please provide all device details, including grade.")) ],
    []))
  /\
  (truthy (field body "brand") && truthy (field body "model")
   && truthy (field body "storage") && truthy (field body "condition") = false ->
   run (Part000.get_quote w body) =
   (Reply 400 [ (js "error", JStr (js "Please provide all device details.")) ],
    [])).
Proof.
  intros Hr. split; [apply server_rejects_falsy | apply part000_rejects_falsy];
    exact Hr.
Qed.

Lemma falsy_field_is_rejected_witness :
  run (Server.get_quote (sample_world true "£100" (Q2Qc (1 # 2)))
         (JObj [ (js "brand", JStr (js "Apple")); (js "model", JStr []);
                 (js "storage", JNum (ofZ 0)); (js "grade", JNull) ])) =
  (Reply 400 [ (js "error",
                JStr (js "Please provide all device details, including grade.")) ],
   []).
Proof.
  match goal with
  | |- run (Server.get_quote ?w ?b) = _ =>
    apply (proj1 (falsy_field_is_rejected w b eq_refl))
  end.
  reflexivity.
Defined.

Lemma server_escapes w body :
  truthy (field body "brand") && truthy (field body "model")
  && truthy (field body "storage") && truthy (field body "grade") = true ->
  prints (field body "grade") && prints (field body "brand")
  && prints (field body "model") && prints (field body "storage") = false ->
  exists e, run (Server.get_quote w body) = (Unhandled e, []).
Proof.
  intros Ht Hp. repeat (apply andb_prop in Ht; destruct Ht as [Ht ?]).
  unfold Server.get_quote, run, bind, lift, ret.
  repeat match goal with
         | T : truthy (field body ?k) = true |- _ =>
           rewrite (field_truthy body k T); rewrite T; clear T
         end.
  cbn [negb orb]. unfold prints in Hp.
  destruct (ToString (field body "grade")); [| eauto].
  destruct (ToString (field body "brand")); [| eauto].
  destruct (ToString (field body "model")); [| eauto].
  destruct (ToString (field body "storage")); [discriminate | eauto].
Qed.

Lemma part000_escapes w body :
  truthy (field body "brand") && truthy (field body "model")
  && truthy (field body "storage") && truthy (field body "condition") = true ->
  prints (field body "brand") && prints (field body "model")
  && prints (field body "storage") = false ->
  exists e, run (Part000.get_quote w body) = (Unhandled e, []).
Proof.
  intros Ht Hp. repeat (apply andb_prop in Ht; destruct Ht as [Ht ?]).
  unfold Part000.get_quote, run, bind, lift, ret.
  repeat match goal with
         | T : truthy (field body ?k) = true |- _ =>
           rewrite (field_truthy body k T); rewrite T; clear T
         end.
  cbn [negb orb]. unfold prints in Hp.
  destruct (ToString (field body "brand")); [| eauto].
  destruct (ToString (field body "model")); [| eauto].
  destruct (ToString (field body "storage")); [discriminate | eauto].
Qed.

(** X3: when the four fields are truthy but one of them cannot be
    converted to a string (an object with a [toString] property of its
    own), the log line in front of the [try] block throws: the
    exception escapes the handler, no reply is sent and no outbound
    request is made. *)
Theorem unprintable_field_escapes (w : World) (body : JsValue) :
  (truthy (field body "brand") && truthy (field body "model")
   && truthy (field body "storage") && truthy (field body "grade") = true ->
   prints (field body "grade") && prints (field body "brand")
   && prints (field body "model") && prints (field body "storage") = false ->
   exists e, run (Server.get_quote w body) = (Unhandled e, []))
  /\
  (truthy (field body "brand") && truthy (field body "model")
   && truthy (field body "storage") && truthy (field body "condition") = true ->
   prints (field body "brand") && prints (field body "model")
   && prints (field body "storage") = false ->
   exists e, run (Part000.get_quote w body) = (Unhandled e, [])).
Proof.
  split; [apply server_escapes | apply part000_escapes].
Qed.

Lemma unprintable_field_escapes_witness :
  exists e,
    run (Server.get_quote (sample_world true "£100" (Q2Qc (1 # 2)))
           (JObj [ (js "brand", JStr (js "Apple"));
                   (js "model", JObj [ (js "toString", JNum (ofZ 1)) ]);
                   (js "storage", JStr (js "128GB"));
                   (js "grade", JStr (js "A")) ])) = (Unhandled e, []).
Proof.
  apply (proj1 (unprintable_field_escapes _ _)); reflexivity.
Defined.

(** ** Status codes *)

Lemma unreadable_escapes_server w body :
  readable body = false ->
  exists e, run (Server.get_quote w body) = (Unhandled e, []).
Proof. destruct body; try discriminate; intros _; eexists; reflexivity. Qed.

Lemma unreadable_escapes_part000 w body :
  readable body = false ->
  exists e, run (Part000.get_quote w body) = (Unhandled e, []).
Proof. destruct body; try discriminate; intros _; eexists; reflexivity. Qed.

Lemma server_quote_is_200 c m r : exists json, Server.quote c m r = Reply 200 json.
Proof. unfold Server.quote. destruct (Nle _ _); eauto. Qed.

(** X4: every request to [server.js] ends in one of three ways: a 200
    reply after exactly two outbound requests when it is accepted;
    otherwise a 400 reply or an escaped exception, with no outbound
    request.  The 500 reply of the [catch] block is never sent. *)
Theorem server_request_outcomes (w : World) (body : JsValue) :
  (ServerRun.accepted body = true
   /\ exists json,
       run (Server.get_quote w body) =
       (Reply 200 json, [Requests.server_cex body; Requests.server_magpie body]))
  \/
  (ServerRun.accepted body = false
   /\ (run (Server.get_quote w body) =
       (Reply 400 [ (js "error",
                     JStr (js "Please provide all device details, including grade.")) ],
        [])
       \/ exists e, run (Server.get_quote w body) = (Unhandled e, []))).
Proof.
  destruct (ServerRun.accepted body) eqn:Hacc.
  - left. split; [reflexivity |].
    destruct (server_quote_is_200 (fst (ServerRun.scraped w body))
                (snd (ServerRun.scraped w body)) (Math_random w)) as [json Hj].
    exists json.
    rewrite (surjective_pairing (run (Server.get_quote w body))).
    rewrite (server_get_quote_accepted w body Hacc), (server_run_log w body Hacc), Hj.
    reflexivity.
  - right. split; [reflexivity |].
    destruct (readable body) eqn:Hr;
      [| right; now apply unreadable_escapes_server].
    unfold ServerRun.accepted in Hacc.
    destruct (truthy (field body "brand") && truthy (field body "model")
              && truthy (field body "storage") && truthy (field body "grade"))
      eqn:Ht.
    + right. apply server_escapes; [exact Ht |].
      cbn [andb] in Hacc. rewrite <- !andb_assoc in Hacc |- *.
      exact Hacc.
    + left. now apply server_rejects_falsy.
Qed.

Lemma adjust_cases (condition : JsValue) (b : Number) :
  truthy condition = true ->
  if prints (field condition "screen_condition")
     && prints (field condition "body_condition")
  then exists v, Part000.adjust condition b = Normal v
  else exists e, Part000.adjust condition b = Throw e.
Proof.
  intros Ht. unfold Part000.adjust, parseInt, prints.
  rewrite !(getProp_truthy condition _ Ht). cbn [completion_bind].
  destruct (ToString (field condition "screen_condition"));
    cbn [completion_bind andb]; [| eauto].
  destruct (ToString (field condition "body_condition"));
    cbn [completion_bind andb]; eauto.
Qed.

(** X5: in [part_000] an accepted request always makes its two
    outbound requests and is then answered with 200 or with the 500 of
    the [catch] block.  The 500 is sent exactly when a price was found
    (the larger scraped price is above zero) and [screen_condition] or
    [body_condition] cannot be converted to a string; on the no-offer
    branch the condition record is never read. *)
Theorem part000_internal_error_iff (w : World) (body : JsValue) :
  Part000Run.accepted body = true ->
  snd (run (Part000.get_quote w body)) =
  [Requests.part000_cex body; Requests.part000_magpie body]
  /\ (fst (run (Part000.get_quote w body)) = internal_error
      \/ exists json, fst (run (Part000.get_quote w body)) = Reply 200 json)
  /\ (fst (run (Part000.get_quote w body)) = internal_error <->
      Nle (larger (fst (Part000Run.scraped w body))
                  (snd (Part000Run.scraped w body))) (ofZ 0) = false
      /\ prints (field (field body "condition") "screen_condition")
         && prints (field (field body "condition") "body_condition") = false).
Proof.
  intros Hacc. split; [now apply part000_run_log |].
  rewrite (part000_get_quote_accepted w body Hacc).
  destruct (part000_accepted_fields body Hacc) as [(_ & _ & _ & Tc) _].
  destruct (part000_scraped_numbers w body) as [Hc Hm].
  destruct (Part000Run.scraped w body) as [c m]. cbn [fst snd] in *.
  unfold Part000.quote. rewrite (Math_max_larger c m Hc Hm).
  pose proof (adjust_cases (field body "condition") (larger c m) Tc) as Hadj.
  destruct (Nle (larger c m) (ofZ 0)).
  - split; [right; eauto |]. split; [discriminate | intros [? _]; discriminate].
  - destruct (prints (field (field body "condition") "screen_condition")
              && prints (field (field body "condition") "body_condition")).
    + destruct Hadj as [v ->]. cbn [completion_bind].
      split; [right; eauto |]. split; [discriminate | intros [_ ?]; discriminate].
    + destruct Hadj as [e ->]. cbn [completion_bind].
      split; [left; reflexivity |]. split; auto.
Qed.

Lemma part000_internal_error_iff_witness :
  fst (run (Part000.get_quote (sample_world true "£100" (Q2Qc (1 # 2)))
             (sample_request_with
                (JObj [ (js "screen_condition",
                         JObj [ (js "toString", JStr (js "4")) ]) ]))))
  = internal_error.
Proof.
  match goal with
  | |- fst (run (Part000.get_quote ?w ?b)) = _ =>
    destruct (part000_internal_error_iff w b eq_refl) as (_ & _ & H)
  end.
  apply H. split; reflexivity.
Defined.

(** ** What the parse step of [server.js] looks at *)

Ltac bool_to_prop H :=
  repeat match type of H with
         | (_ || _)%bool = true => apply orb_true_iff in H; destruct H as [H | H]
         | (_ && _)%bool = true =>
           let H' := fresh in apply andb_true_iff in H; destruct H as [H H']
         | unit_eqb _ _ = true => apply N.eqb_eq in H
         | (_ =? _)%N = true => apply N.eqb_eq in H
         | (_ <=? _)%N = true => apply N.leb_le in H
         end.

Lemma price_char_not_white (c : N) :
  isPriceChar c = true -> isWhiteSpace c = false.
Proof.
  intros H. unfold isPriceChar, isDigit in H.
  assert (B : (45 <= c <= 57)%N).
  { bool_to_prop H;
      repeat match goal with
             | X : (_ <=? _)%N = true |- _ => apply N.leb_le in X
             end; lia. }
  unfold isWhiteSpace.
  repeat match goal with
         | |- context [(?a =? ?b)%N] => rewrite (proj2 (N.eqb_neq a b)) by lia
         | |- context [(?a <=? ?b)%N] =>
           first [ rewrite (proj2 (N.leb_gt a b)) by lia
                 | rewrite (proj2 (N.leb_le a b)) by lia ]
         end.
  reflexivity.
Qed.

Lemma strip_drop_while (s : JsString) :
  strip_non_price (drop_while isWhiteSpace s) = strip_non_price s.
Proof.
  induction s as [| c s IH]; [reflexivity |]. cbn [drop_while].
  destruct (isWhiteSpace c) eqn:E; [| reflexivity].
  rewrite IH. unfold strip_non_price. cbn [filter].
  destruct (isPriceChar c) eqn:P; [| reflexivity].
  apply price_char_not_white in P. congruence.
Qed.

Lemma strip_rev (s : JsString) :
  strip_non_price (rev s) = rev (strip_non_price s).
Proof.
  unfold strip_non_price. induction s as [| c s IH]; [reflexivity |].
  cbn [rev filter]. rewrite filter_app, IH. cbn [filter].
  destruct (isPriceChar c); [reflexivity | now rewrite app_nil_r].
Qed.

Lemma strip_trim (s : JsString) : strip_non_price (trim s) = strip_non_price s.
Proof.
  unfold trim.
  rewrite strip_rev, strip_drop_while, strip_rev, rev_involutive.
  apply strip_drop_while.
Qed.

(** The price is a function of the stripped text alone. *)
Lemma server_priceFromText_strip (t : JsString) :
  Server.priceFromText t =
  (let price := parseFloat (strip_non_price t) in
   if isNaN price then ofZ 0 else price).
Proof.
  unfold Server.priceFromText. destruct t as [| c t]; reflexivity.
Qed.

(** X6: the parse step of [server.js] looks only at the digits, dots
    and minus signs of the price text and at their order: two texts
    with the same such characters give the same price, whatever
    currency symbols, separators, letters or white space surround
    them.  In particular the [trim()] of the MusicMagpie extractor
    changes nothing. *)
Theorem server_price_ignores_other_characters :
  (forall t1 t2 : JsString,
      strip_non_price t1 = strip_non_price t2 ->
      Server.priceFromText t1 = Server.priceFromText t2)
  /\ (forall t : JsString, Server.priceFromText (trim t) = Server.priceFromText t).
Proof.
  split.
  - intros t1 t2 H. rewrite !server_priceFromText_strip, H. reflexivity.
  - intros t. rewrite !server_priceFromText_strip, strip_trim. reflexivity.
Qed.

Lemma server_price_ignores_other_characters_witness :
  Server.priceFromText (js "£1,234.56") =
  Server.priceFromText (js "GBP 1 234.56 (cash)").
Proof.
  apply (proj1 server_price_ignores_other_characters). reflexivity.
Defined.

(** ** Printing and parsing decimal digits *)

Lemma units_value_acc (d : Decimal.uint) (acc : positive) :
  fold_left (fun a c => 10 * a + digit_value c) (uint_units d) (Z.pos acc) =
  Z.pos (Pos.of_uint_acc d acc).
Proof.
  revert acc. induction d; intros acc; cbn [uint_units fold_left Pos.of_uint_acc];
    try reflexivity;
    match goal with
    | |- fold_left _ _ ?a = Z.pos (Pos.of_uint_acc _ ?b) =>
      replace a with (Z.pos b) by (unfold digit_value; lia)
    end; apply IHd.
Qed.

Lemma units_value (d : Decimal.uint) :
  digits_value (uint_units d) = Z.of_N (Pos.of_uint d).
Proof.
  unfold digits_value.
  induction d; cbn [uint_units fold_left Pos.of_uint]; try reflexivity;
    try (match goal with
         | |- fold_left _ _ ?a = Z.of_N (N.pos (Pos.of_uint_acc _ ?b)) =>
           replace a with (Z.pos b) by (unfold digit_value; lia)
         end; apply units_value_acc).
  replace (10 * 0 + digit_value 48) with 0 by (unfold digit_value; lia).
  exact IHd.
Qed.

(** Parsing the decimal digits of a natural number gives it back. *)
Lemma digits_of_value (n : N) : digits_value (digits_of (Z.of_N n)) = Z.of_N n.
Proof.
  unfold digits_of. rewrite N2Z.id, units_value.
  change (Pos.of_uint (N.to_uint n)) with (N.of_uint (N.to_uint n)).
  now rewrite DecimalN.Unsigned.of_to.
Qed.

Lemma units_all_digits (d : Decimal.uint) : all_digits (uint_units d).
Proof.
  unfold all_digits. induction d; cbn [uint_units]; constructor; auto.
Qed.

Lemma digits_of_all_digits (n : Z) : all_digits (digits_of n).
Proof. apply units_all_digits. Qed.

Lemma digits_of_nonempty (n : N) : digits_of (Z.of_N n) <> [].
Proof.
  unfold digits_of. rewrite N2Z.id. destruct n as [| p]; [discriminate |].
  cbn [N.to_uint].
  pose proof (DecimalPos.Unsigned.to_uint_nonnil p) as H.
  destruct (Pos.to_uint p); [congruence | discriminate ..].
Qed.

Lemma digit_bounds (c : N) : isDigit c = true -> (48 <= c <= 57)%N.
Proof.
  unfold isDigit. intros H. apply andb_true_iff in H. destruct H as [A B].
  apply N.leb_le in A. apply N.leb_le in B. lia.
Qed.

Lemma digit_is_price_char (c : N) : isDigit c = true -> isPriceChar c = true.
Proof. unfold isPriceChar. now intros ->. Qed.

Lemma span_all (s : JsString) : all_digits s -> span isDigit s = (s, []).
Proof.
  induction 1 as [| c s Hc _ IH]; [reflexivity |].
  cbn [span]. now rewrite Hc, IH.
Qed.

Lemma span_stop (ip rest : JsString) (c : N) :
  all_digits ip -> isDigit c = false ->
  span isDigit (ip ++ c :: rest) = (ip, c :: rest).
Proof.
  intros H Hc. induction H as [| a ip Ha _ IH]; cbn [span app].
  - now rewrite Hc.
  - now rewrite Ha, IH.
Qed.

Lemma digits_value_app (ip fp : JsString) :
  digits_value (ip ++ fp) =
  digits_value ip * 10 ^ Z.of_nat (List.length fp) + digits_value fp.
Proof.
  unfold digits_value. rewrite fold_left_app.
  generalize (fold_left (fun a c => 10 * a + digit_value c) ip 0).
  induction fp as [| c fp IH]; intros acc.
  - cbn [fold_left List.length]. change (Z.of_nat 0) with 0. lia.
  - cbn [fold_left List.length]. rewrite IH, (IH (10 * 0 + digit_value c)).
    rewrite Nat2Z.inj_succ, Z.pow_succ_r by lia. ring.
Qed.

(** With a digit in front, the text starts its decimal literal at
    once: no white space, sign or [Infinity] is consumed. *)
Lemma parseFloat_from_digit (c : N) (t : JsString) :
  isDigit c = true ->
  parseFloat (c :: t) =
  (let '(ip, s1) := span isDigit (c :: t) in
   let '(fp, s2) :=
     match s1 with
     | x :: r => if unit_eqb x 46 then span isDigit r else ([], s1)
     | [] => ([], s1)
     end in
   match ip ++ fp with
   | [] => NaN
   | ds =>
     Fin (Q2Qc (inject_Z (digits_value ds))
          * pow10 (exponent_part s2 - Z.of_nat (List.length fp)))%Qc
   end).
Proof.
  intros Hc. pose proof (digit_bounds c Hc) as B.
  unfold parseFloat. cbn [drop_while].
  rewrite (price_char_not_white c (digit_is_price_char c Hc)).
  unfold take_sign.
  replace (unit_eqb c 45) with false by (symmetry; apply N.eqb_neq; lia).
  replace (unit_eqb c 43) with false by (symmetry; apply N.eqb_neq; lia).
  change (js "Infinity") with (73%N :: js "nfinity"). cbn [starts_with].
  replace (unit_eqb 73 c) with false by (symmetry; apply N.eqb_neq; lia).
  reflexivity.
Qed.

Lemma parseFloat_integer (ip : JsString) :
  all_digits ip -> ip <> [] -> parseFloat ip = ofZ (digits_value ip).
Proof.
  intros H Hne. destruct ip as [| c t]; [congruence |].
  rewrite parseFloat_from_digit by (now inversion H).
  rewrite (span_all _ H). rewrite app_nil_r.
  cbn [exponent_part List.length]. apply Fin_eq.
  unfold Qcmult. rewrite !this_Q2Qc. change (pow10 (0 - Z.of_nat 0)) with (pow10 0).
  unfold pow10. cbn [Z.leb Z.compare]. rewrite this_Q2Qc.
  change (inject_Z (10 ^ 0)) with 1%Q. ring.
Qed.

Lemma parseFloat_fraction (n : N) (fp : JsString) :
  all_digits fp ->
  parseFloat (digits_of (Z.of_N n) ++ 46%N :: fp) = pounds_and_fraction n fp.
Proof.
  intros Hfp.
  pose proof (digits_of_all_digits (Z.of_N n)) as Hip.
  pose proof (digits_of_nonempty n) as Hne.
  pose proof (digits_of_value n) as Hv.
  destruct (digits_of (Z.of_N n)) as [| c t] eqn:E; [congruence |].
  cbn [app]. rewrite parseFloat_from_digit by (now inversion Hip).
  change (c :: t ++ 46%N :: fp) with ((c :: t) ++ 46%N :: fp).
  rewrite (span_stop (c :: t) fp 46%N Hip eq_refl).
  change (unit_eqb 46 46) with true. cbv iota.
  rewrite (span_all _ Hfp).
  destruct ((c :: t) ++ fp) as [| d ds] eqn:Eds; [discriminate |].
  rewrite <- Eds. cbn [exponent_part].
  unfold pounds_and_fraction. apply Fin_eq.
  unfold Qcmult. rewrite !this_Q2Qc.
  rewrite digits_value_app, Hv.
  set (k := Z.of_nat (List.length fp)).
  assert (Hk : 0 <= k) by (unfold k; lia).
  assert (HP : 0 < 10 ^ k) by (apply Z.pow_pos_nonneg; lia).
  unfold pow10. replace (0 - k) with (- k) by lia.
  destruct (0 <=? - k) eqn:Ek.
  - apply Z.leb_le in Ek. assert (k = 0) by lia.
    replace k with 0 in * by lia. rewrite this_Q2Qc.
    change (10 ^ 0) with 1. change (- 0) with 0. change (10 ^ 0) with 1.
    change (inject_Z 1) with 1%Q. change (Z.to_pos 1) with 1%positive.
    unfold Qeq, Qmult, Qplus, inject_Z. cbn [Qnum Qden].
    rewrite ?Pos2Z.inj_mul. ring.
  - rewrite this_Q2Qc, Z.opp_involutive.
    unfold Qeq, Qmult, Qplus, inject_Z. cbn [Qnum Qden].
    rewrite !Pos2Z.inj_mul, !Z2Pos.id by lia. ring.
Qed.

(** The exact value of a plain price text. *)
Lemma exact_plain_price_text (n : N) (fp : JsString) :
  all_digits fp ->
  Server.priceFromText (js "£" ++ digits_of (Z.of_N n)) = ofZ (Z.of_N n)
  /\ Part000.priceFromText (js "£" ++ digits_of (Z.of_N n)) = ofZ (Z.of_N n)
  /\ Server.priceFromText (js "£" ++ digits_of (Z.of_N n) ++ 46%N :: fp)
     = pounds_and_fraction n fp
  /\ Part000.priceFromText (js "£" ++ digits_of (Z.of_N n) ++ 46%N :: fp)
     = pounds_and_fraction n fp.
Proof.
  intros Hfp.
  pose proof (digits_of_all_digits (Z.of_N n)) as Hip.
  pose proof (digits_of_nonempty n) as Hne.
  assert (Hs : forall s, all_digits s ->
                 strip_non_price (js "£" ++ digits_of (Z.of_N n) ++ s)
                 = digits_of (Z.of_N n) ++ s /\
                 strip_non_price (js "£" ++ digits_of (Z.of_N n) ++ 46%N :: s)
                 = digits_of (Z.of_N n) ++ 46%N :: s).
  { intros s Hsd. change (js "£") with [163%N]. unfold strip_non_price.
    cbn [app filter]. change (isPriceChar 163) with false. cbv iota.
    assert (F : forall l, all_digits l -> filter isPriceChar l = l).
    { induction 1 as [| a l Ha _ IH]; [reflexivity |].
      cbn [filter]. now rewrite (digit_is_price_char a Ha), IH. }
    rewrite !filter_app. cbn [filter]. change (isPriceChar 46) with true.
    cbv iota. now rewrite !F. }
  destruct (Hs [] (Forall_nil _)) as [S1 _]. rewrite app_nil_r in S1.
  destruct (Hs fp Hfp) as [_ S2].
  unfold Server.priceFromText, Part000.priceFromText.
  change (js "£") with [163%N]. cbn [app truthy remove_first starts_with].
  change (unit_eqb 163 163) with true. cbn [andb List.length skipn].
  change ([163%N] ++ digits_of (Z.of_N n)) with (js "£" ++ digits_of (Z.of_N n)) in S1.
  change (163%N :: digits_of (Z.of_N n)) with (js "£" ++ digits_of (Z.of_N n)).
  change (163%N :: digits_of (Z.of_N n) ++ 46%N :: fp)
    with (js "£" ++ digits_of (Z.of_N n) ++ 46%N :: fp).
  rewrite S1, S2, (parseFloat_integer _ Hip Hne), (parseFloat_fraction n fp Hfp).
  rewrite digits_of_value. repeat split; reflexivity.
Qed.

(** ** When the network is down *)

Lemma server_getCeXPrice_offline w model storage grade log :
  offline w ->
  fst (Server.getCeXPrice w model storage grade log) = Normal (ofZ 0).
Proof.
  intros Hw. unfold Server.getCeXPrice, try_catch, bind, lift, do_fetch, ret.
  destruct (ToString model); [| reflexivity].
  destruct (ToString storage); [| reflexivity].
  destruct (ToString grade); [| reflexivity].
  cbv beta iota.
  match goal with |- context [fetch w ?r] => destruct (Hw r) as [e ->] end.
  reflexivity.
Qed.

Lemma server_getMusicMagpiePrice_offline w brand model storage log :
  offline w ->
  fst (Server.getMusicMagpiePrice w brand model storage log) = Normal (ofZ 0).
Proof.
  intros Hw. unfold Server.getMusicMagpiePrice, try_catch, bind, lift, do_fetch, ret.
  destruct (ToString brand); [| reflexivity].
  destruct (ToString model); [| reflexivity].
  destruct (ToString storage); [| reflexivity].
  cbv beta iota.
  match goal with |- context [fetch w ?r] => destruct (Hw r) as [e ->] end.
  reflexivity.
Qed.

Lemma part000_getCeXPrice_offline w model storage log :
  offline w ->
  fst (Part000.getCeXPrice w model storage log) = Normal (ofZ 0).
Proof.
  intros Hw. unfold Part000.getCeXPrice, try_catch, bind, lift, do_fetch, ret.
  destruct (ToString model); [| reflexivity].
  destruct (ToString storage); [| reflexivity].
  cbv beta iota.
  match goal with |- context [fetch w ?r] => destruct (Hw r) as [e ->] end.
  reflexivity.
Qed.

Lemma part000_getMusicMagpiePrice_offline w brand model storage log :
  offline w ->
  fst (Part000.getMusicMagpiePrice w brand model storage log) = Normal (ofZ 0).
Proof.
  intros Hw. unfold Part000.getMusicMagpiePrice, try_catch, bind, lift, do_fetch, ret.
  destruct (ToString brand); [| reflexivity].
  destruct (ToString model); [| reflexivity].
  destruct (ToString storage); [| reflexivity].
  cbv beta iota.
  match goal with |- context [fetch w ?r] => destruct (Hw r) as [e ->] end.
  reflexivity.
Qed.

(** X10: when every [fetch] rejects, an accepted request is still
    answered with status 200: both extractors absorb the failure, the
    reply is the no-offer reply with both prices 0, and the two
    requests were attempted once each.  The failure never surfaces as a
    500, and in [part_000] the condition record is not even read. *)
Theorem network_outage_gives_no_offer (w : World) (body : JsValue) :
  offline w ->
  (ServerRun.accepted body = true ->
   run (Server.get_quote w body) =
   (Reply 200 [ (js "ourPrice", JNum (ofZ 0)); (js "cexPrice", JNum (ofZ 0));
                (js "musicMagpiePrice", JNum (ofZ 0));
                (js "message", JStr Server.no_price_message) ],
    [Requests.server_cex body; Requests.server_magpie body]))
  /\
  (Part000Run.accepted body = true ->
   run (Part000.get_quote w body) =
   (Reply 200 [ (js "ourPrice", JNum (ofZ 0)); (js "cexPrice", JNum (ofZ 0));
                (js "musicMagpiePrice", JNum (ofZ 0));
                (js "message", JStr Part000.no_price_message) ],
    [Requests.part000_cex body; Requests.part000_magpie body])).
Proof.
  intros Hw. split; intros Hacc.
  - rewrite (surjective_pairing (run (Server.get_quote w body))).
    rewrite (server_get_quote_accepted w body Hacc), (server_run_log w body Hacc).
    unfold ServerRun.scraped, value_of. cbn [fst snd].
    rewrite (server_getCeXPrice_offline _ _ _ _ _ Hw),
      (server_getMusicMagpiePrice_offline _ _ _ _ _ Hw).
    reflexivity.
  - rewrite (surjective_pairing (run (Part000.get_quote w body))).
    rewrite (part000_get_quote_accepted w body Hacc), (part000_run_log w body Hacc).
    unfold Part000Run.scraped, value_of. cbn [fst snd].
    rewrite (part000_getCeXPrice_offline _ _ _ _ Hw),
      (part000_getMusicMagpiePrice_offline _ _ _ _ _ Hw).
    reflexivity.
Qed.

Lemma network_outage_gives_no_offer_witness :
  fst (run (Server.get_quote (dead_world (Q2Qc (1 # 2))) sample_body)) =
  Reply 200 [ (js "ourPrice", JNum (ofZ 0)); (js "cexPrice", JNum (ofZ 0));
              (js "musicMagpiePrice", JNum (ofZ 0));
              (js "message", JStr Server.no_price_message) ].
Proof.
  assert (Hw : offline (dead_world (Q2Qc (1 # 2)))).
  { intros r. eexists. reflexivity. }
  rewrite (proj1 (network_outage_gives_no_offer _ sample_body Hw) eq_refl).
  reflexivity.
Defined.

(** ** The search URLs *)

Lemma replace_spaces_no_space (by_ s : JsString) :
  ~ In 32%N by_ -> ~ In 32%N (replace_spaces by_ s).
Proof.
  intros Hby H. unfold replace_spaces in H. apply in_flat_map in H.
  destruct H as (c & _ & H). destruct (unit_eqb c 32) eqn:E; [auto |].
  destruct H as [-> | []]. discriminate.
Qed.

Lemma replace_spaces_id (by_ s : JsString) :
  ~ In 32%N s -> replace_spaces by_ s = s.
Proof.
  unfold replace_spaces. induction s as [| c s IH]; [reflexivity |].
  intros H. cbn [flat_map].
  destruct (unit_eqb c 32) eqn:E.
  - apply N.eqb_eq in E. subst c. exfalso. apply H. now left.
  - cbn [app]. f_equal. apply IH. intros X. apply H. now right.
Qed.

Lemma no_space_check (s : JsString) :
  forallb (fun c => negb (unit_eqb c 32)) s = true -> ~ In 32%N s.
Proof.
  intros H X. rewrite forallb_forall in H. apply H in X. discriminate.
Qed.

Lemma url_no_space (prefix by_ s : JsString) :
  ~ In 32%N prefix -> ~ In 32%N by_ ->
  ~ In 32%N (prefix ++ replace_spaces by_ s).
Proof.
  intros Hp Hb H. apply in_app_or in H. destruct H as [H | H]; [auto |].
  now apply (replace_spaces_no_space by_ s).
Qed.

Lemma server_unaccepted_log w body :
  ServerRun.accepted body = false -> snd (run (Server.get_quote w body)) = [].
Proof.
  intros Hacc.
  destruct (readable body) eqn:Hr;
    [| destruct (unreadable_escapes_server w body Hr) as [e ->]; reflexivity].
  unfold ServerRun.accepted in Hacc.
  destruct (truthy (field body "brand") && truthy (field body "model")
            && truthy (field body "storage") && truthy (field body "grade"))
    eqn:Ht.
  - destruct (server_escapes w body Ht) as [e ->]; [| reflexivity].
    cbn [andb] in Hacc. rewrite <- !andb_assoc in Hacc |- *. exact Hacc.
  - now rewrite (server_rejects_falsy w body Hr Ht).
Qed.

Lemma part000_unaccepted_log w body :
  Part000Run.accepted body = false -> snd (run (Part000.get_quote w body)) = [].
Proof.
  intros Hacc.
  destruct (readable body) eqn:Hr;
    [| destruct (unreadable_escapes_part000 w body Hr) as [e ->]; reflexivity].
  unfold Part000Run.accepted in Hacc.
  destruct (truthy (field body "brand") && truthy (field body "model")
            && truthy (field body "storage") && truthy (field body "condition"))
    eqn:Ht.
  - destruct (part000_escapes w body Ht) as [e ->]; [| reflexivity].
    cbn [andb] in Hacc. rewrite <- !andb_assoc in Hacc |- *. exact Hacc.
  - now rewrite (part000_rejects_falsy w body Hr Ht).
Qed.

(** X11: no URL requested by either revision, for any request body
    and any world, contains a space: every space of the query is
    replaced, by [+] for CeX and by [%20] for MusicMagpie.  Nothing
    else is escaped: a query without spaces is appended to the URL as
    it is. *)
Theorem search_urls_have_no_space (w : World) (body : JsValue) :
  (forall r,
      In r (snd (run (Server.get_quote w body)))
      \/ In r (snd (run (Part000.get_quote w body))) ->
      ~ In 32%N (url r))
  /\ (forall by_ query, ~ In 32%N query -> replace_spaces by_ query = query).
Proof.
  split; [| intros by_ query; apply replace_spaces_id].
  intros r [H | H].
  - destruct (ServerRun.accepted body) eqn:Hacc.
    + rewrite (server_run_log w body Hacc) in H.
      destruct H as [<- | [<- | []]]; apply url_no_space;
        apply no_space_check; reflexivity.
    + now rewrite (server_unaccepted_log w body Hacc) in H.
  - destruct (Part000Run.accepted body) eqn:Hacc.
    + rewrite (part000_run_log w body Hacc) in H.
      destruct H as [<- | [<- | []]]; apply url_no_space;
        apply no_space_check; reflexivity.
    + now rewrite (part000_unaccepted_log w body Hacc) in H.
Qed.

Lemma search_urls_have_no_space_witness :
  ~ In 32%N (url (Requests.server_cex sample_body))
  /\ replace_spaces (js "+") (js "Pixel&8#Pro") = js "Pixel&8#Pro".
Proof.
  destruct (search_urls_have_no_space (sample_world true "£100" (Q2Qc (1 # 2)))
                                      sample_body) as [Hurl Hid].
  split.
  - apply Hurl. left. simpl. auto.
  - apply Hid. apply no_space_check. reflexivity.
Defined.

(** ** Strings of digits read by [parseInt] *)

Lemma parseInt_string_digits (s : JsString) :
  all_digits s -> s <> [] -> parseInt_string s = ofZ (digits_value s).
Proof.
  intros H Hne. destruct s as [| c t]; [congruence |].
  assert (Hc : isDigit c = true) by (now inversion H).
  pose proof (digit_bounds c Hc) as B.
  unfold parseInt_string. cbn [drop_while].
  rewrite (price_char_not_white c (digit_is_price_char c Hc)).
  unfold take_sign.
  replace (unit_eqb c 45) with false by (symmetry; apply N.eqb_neq; lia).
  replace (unit_eqb c 43) with false by (symmetry; apply N.eqb_neq; lia).
  assert (Hx : forall p, starts_with (48%N :: p :: []) (c :: t) = true ->
                         isDigit p = true).
  { intros p Hp. cbn [starts_with] in Hp.
    destruct t as [| y t']; [now rewrite andb_false_r in Hp |].
    apply andb_true_iff in Hp. destruct Hp as [_ Hp].
    apply andb_true_iff in Hp. destruct Hp as [Hp _].
    apply N.eqb_eq in Hp. subst y. inversion H as [| ? ? _ Ht]. now inversion Ht. }
  change (js "0x") with [48%N; 120%N]. change (js "0X") with [48%N; 88%N].
  destruct (starts_with [48%N; 120%N] (c :: t)) eqn:E1;
    [apply Hx in E1; discriminate |].
  destruct (starts_with [48%N; 88%N] (c :: t)) eqn:E2;
    [apply Hx in E2; discriminate |].
  cbn [orb]. rewrite (span_all _ H). reflexivity.
Qed.

Lemma this_mult (x y : Qc) : (this (x * y)%Qc == this x * this y)%Q.
Proof. unfold Qcmult. apply this_Q2Qc. Qed.

Lemma this_minus (x y : Qc) : (this (x - y)%Qc == this x - this y)%Q.
Proof.
  unfold Qcminus, Qcplus, Qcopp. rewrite this_Q2Qc, this_Q2Qc. reflexivity.
Qed.

(** ** Where a non-zero price comes from *)

(** X13: in [server.js] a price other than 0 returned by [getCeXPrice]
    always comes from a response with a success status whose page has
    a product box, and is the parse of the sell price found in the
    first box; a price other than 0 returned by [getMusicMagpiePrice]
    is the parse of the trimmed text of the first price element, of a
    response of any status. *)
Theorem server_nonzero_price_origin (w : World)
    (brand model storage grade : JsValue) (log : Log) (n : Number) :
  n <> ofZ 0 ->
  (fst (Server.getCeXPrice w model storage grade log) = Normal n ->
   exists r resp html doc,
     fetch w r = Normal resp /\ ok resp = true /\ text resp = Normal html
     /\ cheerio_load w html = Normal doc
     /\ first_length doc (js ".product-box-container") <> 0%N
     /\ n = Server.priceFromText
              (first_find_text doc (js ".product-box-container")
                               (js ".sell-price .price")))
  /\
  (fst (Server.getMusicMagpiePrice w brand model storage log) = Normal n ->
   exists r resp html doc,
     fetch w r = Normal resp /\ text resp = Normal html
     /\ cheerio_load w html = Normal doc
     /\ n = Server.priceFromText (trim (first_text doc (js ".product-price-now")))).
Proof.
  intros Hn. split.
  - unfold Server.getCeXPrice, try_catch, bind, lift, do_fetch, ret.
    repeat run_step; cbv beta iota; cbn [fst]; intros [= E];
      try (exfalso; apply Hn; now rewrite <- E).
    do 4 eexists. repeat split; try eassumption; [| now rewrite <- E].
    intros Z0.
    match goal with
    | H : (_ =? 0)%N = false |- _ => apply N.eqb_neq in H; now apply H
    end.
  - unfold Server.getMusicMagpiePrice, try_catch, bind, lift, do_fetch, ret.
    repeat run_step; cbv beta iota; cbn [fst]; intros [= E];
      try (exfalso; apply Hn; now rewrite <- E).
    do 4 eexists. repeat split; try eassumption. now rewrite <- E.
Qed.

Lemma server_nonzero_price_origin_witness :
  exists r resp html doc,
    fetch (sample_world true "£50.00" (Q2Qc (1 # 2))) r = Normal resp
    /\ ok resp = true /\ text resp = Normal html
    /\ cheerio_load (sample_world true "£50.00" (Q2Qc (1 # 2))) html = Normal doc
    /\ first_length doc (js ".product-box-container") <> 0%N
    /\ ofZ 50 = Server.priceFromText
                  (first_find_text doc (js ".product-box-container")
                                   (js ".sell-price .price")).
Proof.
  apply (proj1 (server_nonzero_price_origin
                  (sample_world true "£50.00" (Q2Qc (1 # 2)))
                  (JStr (js "Apple")) (JStr (js "iPhone 14 Pro"))
                  (JStr (js "128GB")) (JStr (js "A")) [] (ofZ 50)
                  ltac:(intros E; apply ofZ_inj in E; discriminate))).
  js_eq.
Defined.

(** ** The offer grows with the baseline *)



(** * The offer in binary64 *)

(** ** Powers of 2 and rounding to the nearest integer *)

Module Rounding.

Import Double.

Local Open Scope Q_scope.

Lemma pow2_Qpower (e : Z) : pow2 e == 2 ^ e.
Proof.
  unfold pow2. destruct (Z.leb_spec 0 e) as [H | H].
  - rewrite Zpower_Qpower by exact H. reflexivity.
  - destruct e as [| p | p]; try lia.
    change (- Z.neg p)%Z with (Z.pos p).
    change (2 ^ Z.neg p) with (/ (inject_Z 2 ^ Z.pos p)).
    rewrite <- Zpower_Qpower by lia.
    assert (Hp : (0 < 2 ^ Z.pos p)%Z) by (apply Z.pow_pos_nonneg; lia).
    destruct (2 ^ Z.pos p)%Z as [| n | n] eqn:E; try lia.
    reflexivity.
Qed.

Lemma pow2_pos (e : Z) : 0 < pow2 e.
Proof. rewrite pow2_Qpower. apply Qpower_0_lt. reflexivity. Qed.

Lemma pow2_add (a b : Z) : pow2 (a + b) == pow2 a * pow2 b.
Proof. rewrite !pow2_Qpower. apply Qpower_plus. discriminate. Qed.

Lemma pow2_le (a b : Z) : (a <= b)%Z -> pow2 a <= pow2 b.
Proof.
  intros H. rewrite !pow2_Qpower. apply Qpower_le_compat_l; [exact H | discriminate].
Qed.

Lemma pow2_lt (a b : Z) : (a < b)%Z -> pow2 a < pow2 b.
Proof.
  intros H. rewrite !pow2_Qpower. apply Qpower_lt_compat_l; [exact H | reflexivity].
Qed.

Lemma pow2_nonneg (e : Z) : (0 <= e)%Z -> pow2 e = inject_Z (2 ^ e).
Proof. intros H. unfold pow2. now rewrite (proj2 (Z.leb_le 0 e) H). Qed.

Lemma pow2_split (a b : Z) : pow2 a == pow2 (a - b) * pow2 b.
Proof. rewrite <- pow2_add. now replace (a - b + b)%Z with a by lia. Qed.

Lemma pow2_div (x : Q) (e : Z) : x / pow2 e * pow2 e == x.
Proof. field. intros H. pose proof (pow2_pos e). lra. Qed.

(** [ilog2] brackets a positive rational between two powers of 2. *)
Lemma ilog2_spec (a : Q) :
  0 < a -> pow2 (ilog2 a) <= a /\ a < pow2 (ilog2 a + 1).
Proof.
  intros Ha. destruct a as [n d]. unfold ilog2. cbn [Qnum Qden].
  assert (Hn : (0 < n)%Z).
  { unfold Qlt in Ha. cbn in Ha. lia. }
  set (i := Z.log2 n). set (j := Z.log2 (Z.pos d)).
  assert (Hi : (2 ^ i <= n < 2 ^ (i + 1))%Z).
  { unfold i. pose proof (Z.log2_spec n Hn). now rewrite <- Z.add_1_r in H. }
  assert (Hj : (2 ^ j <= Z.pos d < 2 ^ (j + 1))%Z).
  { unfold j. pose proof (Z.log2_spec (Z.pos d) (Pos2Z.is_pos d)).
    now rewrite <- Z.add_1_r in H. }
  assert (Hi0 : (0 <= i)%Z) by apply Z.log2_nonneg.
  assert (Hj0 : (0 <= j)%Z) by apply Z.log2_nonneg.
  assert (Ea : (n # d) * inject_Z (Z.pos d) == inject_Z n).
  { unfold Qeq, Qmult, inject_Z. cbn. lia. }
  assert (Hd : 0 < inject_Z (Z.pos d)) by reflexivity.
  assert (Pi : inject_Z (2 ^ i) <= inject_Z n < inject_Z (2 ^ (i + 1))).
  { split; [rewrite <- Zle_Qle | rewrite <- Zlt_Qlt]; apply Hi. }
  assert (Pj : inject_Z (2 ^ j) <= inject_Z (Z.pos d) < inject_Z (2 ^ (j + 1))).
  { split; [rewrite <- Zle_Qle | rewrite <- Zlt_Qlt]; apply Hj. }
  rewrite <- !pow2_nonneg in Pi, Pj by lia.
  assert (Up : (n # d) < pow2 (i - j + 1)).
  { apply Qmult_lt_r with (z := pow2 j); [apply pow2_pos |].
    rewrite <- pow2_add. replace (i - j + 1 + j)%Z with (i + 1)%Z by lia.
    apply Qle_lt_trans with (y := (n # d) * inject_Z (Z.pos d)).
    - apply Qmult_le_l; [exact Ha | tauto].
    - rewrite Ea. tauto. }
  assert (Lo : pow2 (i - j - 1) <= (n # d)).
  { apply Qmult_le_r with (z := pow2 (j + 1)); [apply pow2_pos |].
    rewrite <- pow2_add. replace (i - j - 1 + (j + 1))%Z with i by lia.
    apply Qle_trans with (y := (n # d) * inject_Z (Z.pos d)).
    - rewrite Ea. tauto.
    - apply Qmult_le_l; [exact Ha |]. apply Qlt_le_weak. tauto. }
  destruct (Qle_bool (pow2 (i - j)) (n # d)) eqn:T.
  - apply Qle_bool_iff in T. split; [exact T | exact Up].
  - apply Qle_bool_false in T. split; [exact Lo |].
    now replace (i - j - 1 + 1)%Z with (i - j)%Z by lia.
Qed.

(** The bracket determines the exponent. *)
Lemma ilog2_unique (a : Q) (k : Z) :
  pow2 k <= a -> a < pow2 (k + 1) -> ilog2 a = k.
Proof.
  intros Lo Up.
  assert (Ha : 0 < a) by (pose proof (pow2_pos k); lra).
  destruct (ilog2_spec a Ha) as [Lo' Up'].
  destruct (Z.lt_trichotomy (ilog2 a) k) as [H | [H | H]]; [| exact H |].
  - assert (pow2 (ilog2 a + 1) <= pow2 k) by (apply pow2_le; lia). lra.
  - assert (pow2 (k + 1) <= pow2 (ilog2 a)) by (apply pow2_le; lia). lra.
Qed.

Lemma ilog2_comp (a b : Q) : 0 < a -> a == b -> ilog2 a = ilog2 b.
Proof.
  intros Ha E. symmetry. destruct (ilog2_spec a Ha) as [Lo Up].
  apply ilog2_unique; rewrite <- E; assumption.
Qed.

Lemma ilog2_mono (a b : Q) : 0 < a -> a <= b -> (ilog2 a <= ilog2 b)%Z.
Proof.
  intros Ha Hab.
  destruct (ilog2_spec a Ha) as [Lo _].
  destruct (ilog2_spec b) as [_ Up]; [lra |].
  destruct (Z_lt_le_dec (ilog2 b) (ilog2 a)) as [H | H]; [| exact H].
  assert (pow2 (ilog2 b + 1) <= pow2 (ilog2 a)) by (apply pow2_le; lia). lra.
Qed.

(** ** Rounding to the nearest integer *)

Lemma rne_cases (x : Q) : rne x = Qfloor x \/ rne x = (Qfloor x + 1)%Z.
Proof.
  unfold rne. destruct (x - inject_Z (Qfloor x) ?= 1 # 2); auto.
  destruct (Z.even (Qfloor x)); auto.
Qed.

Lemma rne_up (x : Q) :
  rne x = (Qfloor x + 1)%Z -> inject_Z (Qfloor x) + (1 # 2) <= x.
Proof.
  unfold rne. destruct (x - inject_Z (Qfloor x) ?= 1 # 2) eqn:C.
  - intros _. apply Qeq_alt in C. lra.
  - intros E. lia.
  - intros _. apply Qgt_alt in C. lra.
Qed.

Lemma rne_down (x : Q) :
  rne x = Qfloor x -> x <= inject_Z (Qfloor x) + (1 # 2).
Proof.
  unfold rne. destruct (x - inject_Z (Qfloor x) ?= 1 # 2) eqn:C.
  - intros _. apply Qeq_alt in C. lra.
  - intros _. apply Qlt_alt in C. lra.
  - intros E. lia.
Qed.

Lemma rne_comp (x y : Q) : x == y -> rne x = rne y.
Proof.
  intros E. unfold rne. rewrite (Qfloor_comp x y E).
  assert (C : (x - inject_Z (Qfloor y) ?= 1 # 2) = (y - inject_Z (Qfloor y) ?= 1 # 2)).
  { apply Qcompare_comp; [now rewrite E | reflexivity]. }
  now rewrite C.
Qed.

Lemma rne_Z (z : Z) : rne (inject_Z z) = z.
Proof.
  destruct (rne_cases (inject_Z z)) as [E | E]; rewrite Qfloor_Z in E; [exact E |].
  pose proof (rne_up (inject_Z z)) as H. rewrite Qfloor_Z in H.
  specialize (H E). lra.
Qed.

Lemma rne_le (x : Q) (n : Z) : x <= inject_Z n -> (rne x <= n)%Z.
Proof.
  intros H. pose proof (Qfloor_le x) as Hf.
  destruct (rne_cases x) as [E | E].
  - rewrite E, Zle_Qle. lra.
  - pose proof (rne_up x E). rewrite E.
    assert (inject_Z (Qfloor x) < inject_Z n) by lra.
    rewrite <- Zlt_Qlt in H1. lia.
Qed.

Lemma rne_ge (x : Q) (n : Z) : inject_Z n <= x -> (n <= rne x)%Z.
Proof.
  intros H. apply Qfloor_resp_le in H. rewrite Qfloor_Z in H.
  destruct (rne_cases x) as [E | E]; lia.
Qed.

(** Below a half-integer the rounding stays at the integer beneath. *)
Lemma rne_lt_half (x : Q) (n : Z) : x < inject_Z n + (1 # 2) -> (rne x <= n)%Z.
Proof.
  intros H. pose proof (Qfloor_le x) as Hf.
  destruct (rne_cases x) as [E | E].
  - rewrite E. assert (inject_Z (Qfloor x) < inject_Z (n + 1)).
    { rewrite inject_Z_plus. change (inject_Z 1) with 1. lra. }
    rewrite <- Zlt_Qlt in H0. lia.
  - pose proof (rne_up x E). rewrite E.
    assert (inject_Z (Qfloor x) < inject_Z n) by lra.
    rewrite <- Zlt_Qlt in H1. lia.
Qed.

Lemma rne_half_above (x : Q) : inject_Z (rne x) <= x + (1 # 2).
Proof.
  pose proof (Qfloor_le x) as Hf.
  destruct (rne_cases x) as [E | E].
  - rewrite E. lra.
  - pose proof (rne_up x E). rewrite E, inject_Z_plus.
    change (inject_Z 1) with 1. lra.
Qed.

Lemma rne_half_below (x : Q) : x - (1 # 2) <= inject_Z (rne x).
Proof.
  pose proof (Qlt_floor x) as Hf. rewrite inject_Z_plus in Hf.
  change (inject_Z 1) with 1 in Hf.
  destruct (rne_cases x) as [E | E].
  - pose proof (rne_down x E). rewrite E. lra.
  - rewrite E, inject_Z_plus. change (inject_Z 1) with 1. lra.
Qed.

(** ** Rounding to the nearest double *)

Lemma Fin_Q2Qc (q q' : Q) : q == q' -> Fin (Q2Qc q) = Fin (Q2Qc q').
Proof.
  intros E. apply Fin_eq.
  apply Qeq_trans with (y := q); [apply this_Q2Qc |].
  apply Qeq_trans with (y := q'); [exact E | apply Qeq_sym, this_Q2Qc].
Qed.

Lemma ulp_exponent_bounds (a : Q) :
  (-1074 <= ulp_exponent a)%Z /\ (ilog2 a - 52 <= ulp_exponent a)%Z.
Proof. unfold ulp_exponent. lia. Qed.

Lemma on_grid_weaken (e e' : Z) (x : Q) :
  (e <= e')%Z -> on_grid e' x -> on_grid e x.
Proof.
  intros H [z E]. exists (z * 2 ^ (e' - e))%Z.
  rewrite E, inject_Z_mult, <- pow2_nonneg by lia.
  rewrite (pow2_split e' e). ring.
Qed.

Lemma on_grid_comp (e : Z) (x y : Q) : x == y -> on_grid e x -> on_grid e y.
Proof. intros E [z H]. exists z. now rewrite <- E. Qed.

Lemma dyadic_comp (x y : Q) : x == y -> dyadic x -> dyadic y.
Proof. intros E (m & e & H & R). exists m, e. split; [now rewrite <- E | exact R]. Qed.

Lemma dyadic_0 : dyadic 0.
Proof. exists 0%Z, 0%Z. split; [reflexivity | lia]. Qed.

Lemma inject_Z_lt_pow2 (m k : Z) :
  (0 <= k)%Z -> (m < 2 ^ k)%Z -> inject_Z m < pow2 k.
Proof. intros Hk H. rewrite pow2_nonneg by exact Hk. now rewrite <- Zlt_Qlt. Qed.

Lemma inject_Z_le_pow2 (m k : Z) :
  (0 <= k)%Z -> (m <= 2 ^ k)%Z -> inject_Z m <= pow2 k.
Proof. intros Hk H. rewrite pow2_nonneg by exact Hk. now rewrite <- Zle_Qle. Qed.

(** A double at or above [a] is a multiple of the last mantissa bit
    of [a]. *)
Lemma on_grid_of_dyadic (a B : Q) :
  0 < a -> a <= B -> dyadic B -> on_grid (ulp_exponent a) B.
Proof.
  intros Ha Hab (m & eb & E & Hm & He).
  apply on_grid_weaken with (e' := eb); [| exists m; exact E].
  unfold ulp_exponent. apply Z.max_lub; [| exact He].
  destruct (Z_lt_le_dec eb (ilog2 a - 52)) as [C | C]; [| exact C]. exfalso.
  destruct (ilog2_spec a Ha) as [Lo _].
  assert (H1 : inject_Z m < pow2 53) by (apply inject_Z_lt_pow2; lia).
  assert (H2 : pow2 (53 + eb) <= pow2 (ilog2 a)) by (apply pow2_le; lia).
  rewrite pow2_add in H2.
  assert (H3 : inject_Z m * pow2 eb < pow2 53 * pow2 eb).
  { apply Qmult_lt_r; [apply pow2_pos | exact H1]. }
  rewrite <- E in H3. lra.
Qed.

Lemma round64_pos (q : Q) :
  0 < q ->
  round64 q =
  if Qle_bool (pow2 1024)
       (inject_Z (rne (q / pow2 (ulp_exponent q))) * pow2 (ulp_exponent q))
  then PosInf
  else Fin (Q2Qc (inject_Z (rne (q / pow2 (ulp_exponent q)))
                  * pow2 (ulp_exponent q))).
Proof.
  destruct q as [[| p | p] d]; intros H; try discriminate. reflexivity.
Qed.

Lemma round64_0 (q : Q) : q == 0 -> round64 q = ofZ 0.
Proof.
  intros E. unfold round64. apply Qeq_alt in E. rewrite E. reflexivity.
Qed.

Lemma round64_comp (q q' : Q) : 0 <= q -> q == q' -> round64 q = round64 q'.
Proof.
  intros H E. destruct (Qlt_le_dec 0 q) as [P | P].
  - rewrite !round64_pos by lra.
    assert (U : ulp_exponent q = ulp_exponent q').
    { unfold ulp_exponent. now rewrite (ilog2_comp q q' P E). }
    rewrite <- U.
    assert (R : rne (q / pow2 (ulp_exponent q)) = rne (q' / pow2 (ulp_exponent q))).
    { apply rne_comp. apply Qdiv_comp; [exact E | reflexivity]. }
    now rewrite R.
  - rewrite !round64_0; [reflexivity | lra | lra].
Qed.

Lemma mantissa_bounds (a : Q) :
  0 < a -> (0 <= rne (a / pow2 (ulp_exponent a)) <= 2 ^ 53)%Z.
Proof.
  intros Ha. pose proof (pow2_pos (ulp_exponent a)) as Hp.
  destruct (ulp_exponent_bounds a) as [_ He].
  destruct (ilog2_spec a Ha) as [_ Up].
  split.
  - apply rne_ge. apply Qle_shift_div_l; [exact Hp |].
    change (inject_Z 0) with 0. lra.
  - apply rne_le. apply Qle_shift_div_r; [exact Hp |].
    rewrite <- pow2_nonneg, <- pow2_add by lia.
    assert (pow2 (ilog2 a + 1) <= pow2 (53 + ulp_exponent a)) by (apply pow2_le; lia).
    lra.
Qed.

Lemma dyadic_scaled (M e : Z) :
  (0 <= M <= 2 ^ 53)%Z -> (-1074 <= e)%Z -> dyadic (inject_Z M * pow2 e).
Proof.
  intros HM He. destruct (Z.eq_dec M (2 ^ 53)) as [-> | N].
  - exists (2 ^ 52)%Z, (e + 1)%Z. split; [| lia].
    rewrite pow2_add. change (pow2 1) with 2.
    setoid_replace (inject_Z (2 ^ 53)) with (inject_Z (2 ^ 52) * 2) by reflexivity.
    ring.
  - exists M, e. split; [reflexivity | lia].
Qed.

(** The result of rounding a positive value. *)
Lemma round64_pos_cases (a : Q) :
  0 < a ->
  round64 a = PosInf
  \/ exists v, round64 a = Fin (Q2Qc v) /\ 0 <= v /\ dyadic v /\ v < pow2 1024.
Proof.
  intros Ha. rewrite (round64_pos a Ha).
  destruct (mantissa_bounds a Ha) as [M0 M1].
  destruct (ulp_exponent_bounds a) as [He _].
  pose proof (pow2_pos (ulp_exponent a)) as Hp.
  destruct (Qle_bool _ _) eqn:T; [left; reflexivity | right].
  apply Qle_bool_false in T. eexists. split; [reflexivity |].
  split; [| split; [apply dyadic_scaled; [split; assumption | exact He] | exact T]].
  apply Qmult_le_0_compat; [| lra].
  change 0 with (inject_Z 0). rewrite <- Zle_Qle. exact M0.
Qed.

(** Rounding does not pass a double above the value. *)
Lemma round64_upper (a B : Q) :
  0 < a -> a <= B -> dyadic B -> B < pow2 1024 ->
  exists v, round64 a = Fin (Q2Qc v) /\ 0 <= v /\ v <= B /\ dyadic v.
Proof.
  intros Ha Hab HB Hfin. rewrite (round64_pos a Ha).
  destruct (mantissa_bounds a Ha) as [M0 M1].
  destruct (ulp_exponent_bounds a) as [He _].
  pose proof (pow2_pos (ulp_exponent a)) as Hp.
  destruct (on_grid_of_dyadic a B Ha Hab HB) as [Z EB].
  assert (HM : (rne (a / pow2 (ulp_exponent a)) <= Z)%Z).
  { apply rne_le. apply Qle_shift_div_r; [exact Hp |]. now rewrite <- EB. }
  assert (Hv : inject_Z (rne (a / pow2 (ulp_exponent a))) * pow2 (ulp_exponent a) <= B).
  { rewrite EB. apply Qmult_le_compat_r; [| lra]. now rewrite <- Zle_Qle. }
  assert (H0 : 0 <= inject_Z (rne (a / pow2 (ulp_exponent a))) * pow2 (ulp_exponent a)).
  { apply Qmult_le_0_compat; [| lra].
    change 0 with (inject_Z 0). rewrite <- Zle_Qle. exact M0. }
  destruct (Qle_bool _ _) eqn:T.
  - apply Qle_bool_iff in T. lra.
  - eexists. split; [reflexivity |]. split; [exact H0 |]. split; [exact Hv |].
    apply dyadic_scaled; [split; assumption | exact He].
Qed.

(** A double is left as it is. *)
Lemma round64_exact (a : Q) :
  0 <= a -> dyadic a -> a < pow2 1024 -> round64 a = Fin (Q2Qc a).
Proof.
  intros Ha Hd Hfin. destruct (Qlt_le_dec 0 a) as [P | P].
  - rewrite (round64_pos a P).
    pose proof (pow2_pos (ulp_exponent a)) as Hp.
    destruct (on_grid_of_dyadic a a P (Qle_refl a) Hd) as [Z EB].
    assert (R : rne (a / pow2 (ulp_exponent a)) = Z).
    { rewrite <- (rne_Z Z). apply rne_comp. rewrite EB at 1. field. lra. }
    rewrite R.
    destruct (Qle_bool _ _) eqn:T.
    + apply Qle_bool_iff in T. rewrite <- EB in T. lra.
    + apply Fin_Q2Qc. now rewrite <- EB.
  - rewrite round64_0 by lra. apply Fin_Q2Qc. change (inject_Z 0) with 0. lra.
Qed.

Lemma threshold_half :
  (inject_Z (2 ^ 53 - 1) + (1 # 2)) * pow2 971 == overflow_threshold.
Proof. vm_compute. reflexivity. Qed.

Lemma threshold_integer : inject_Z (2 ^ 54 - 1) * pow2 970 == overflow_threshold.
Proof. vm_compute. reflexivity. Qed.

Lemma threshold_below : overflow_threshold < pow2 1024.
Proof. vm_compute. reflexivity. Qed.

(** Values below [2^1024 - 2^970] do not overflow. *)
Lemma round64_finite (a : Q) :
  0 < a -> a < overflow_threshold ->
  exists v, round64 a = Fin (Q2Qc v) /\ 0 <= v /\ dyadic v /\ v < pow2 1024.
Proof.
  intros Ha Hthr.
  destruct (round64_pos_cases a Ha) as [E | H]; [| exact H]. exfalso.
  rewrite (round64_pos a Ha) in E.
  destruct (Qle_bool _ _) eqn:T; [| discriminate]. clear E.
  apply Qle_bool_iff in T.
  pose proof (pow2_pos (ulp_exponent a)) as Hp.
  pose proof threshold_below as Hb.
  destruct (ilog2_spec a Ha) as [Lo _].
  assert (HE : (ilog2 a <= 1023)%Z).
  { destruct (Z_lt_le_dec 1023 (ilog2 a)) as [C | C]; [| exact C].
    assert (pow2 1024 <= pow2 (ilog2 a)) by (apply pow2_le; lia). lra. }
  assert (He : (ulp_exponent a <= 971)%Z) by (unfold ulp_exponent; lia).
  destruct (Z.eq_dec (ulp_exponent a) 971) as [E1 | E1].
  - rewrite E1 in *.
    assert (HM : (rne (a / pow2 971) <= 2 ^ 53 - 1)%Z).
    { apply rne_lt_half. apply Qlt_shift_div_r; [exact Hp |].
      rewrite threshold_half. exact Hthr. }
    assert (inject_Z (rne (a / pow2 971)) * pow2 971
            <= inject_Z (2 ^ 53 - 1) * pow2 971).
    { apply Qmult_le_compat_r; [| lra]. now rewrite <- Zle_Qle. }
    assert (inject_Z (2 ^ 53 - 1) * pow2 971 < pow2 1024) by (vm_compute; reflexivity).
    lra.
  - set (e := ulp_exponent a) in *.
    assert (Et : overflow_threshold == inject_Z ((2 ^ 54 - 1) * 2 ^ (970 - e)) * pow2 e).
    { rewrite inject_Z_mult, <- pow2_nonneg by lia.
      rewrite <- threshold_integer, (pow2_split 970 e). ring. }
    assert (HM : (rne (a / pow2 e) <= (2 ^ 54 - 1) * 2 ^ (970 - e))%Z).
    { apply rne_le. apply Qle_shift_div_r; [exact Hp |]. rewrite <- Et. lra. }
    assert (inject_Z (rne (a / pow2 e)) * pow2 e <= overflow_threshold).
    { rewrite Et. apply Qmult_le_compat_r; [| lra]. now rewrite <- Zle_Qle. }
    lra.
Qed.

(** Integers round to integers. *)
Lemma round64_integer (z : Z) :
  (0 <= z)%Z ->
  round64 (inject_Z z) = PosInf
  \/ exists z', (0 <= z')%Z /\ round64 (inject_Z z) = ofZ z'.
Proof.
  intros Hz. destruct (Z.eq_dec z 0) as [-> | N].
  - right. exists 0%Z. split; [lia | reflexivity].
  - assert (Ha : 0 < inject_Z z).
    { change 0 with (inject_Z 0). rewrite <- Zlt_Qlt. lia. }
    rewrite (round64_pos _ Ha).
    destruct (mantissa_bounds _ Ha) as [M0 _].
    pose proof (pow2_pos (ulp_exponent (inject_Z z))) as Hp.
    set (e := ulp_exponent (inject_Z z)) in *.
    destruct (Qle_bool _ _); [left; reflexivity | right].
    destruct (Z_lt_le_dec e 0) as [C | C].
    + assert (G : inject_Z z == inject_Z (z * 2 ^ (- e)) * pow2 e).
      { rewrite inject_Z_mult, <- pow2_nonneg by lia.
        rewrite <- Qmult_assoc, <- pow2_add.
        replace (- e + e)%Z with 0%Z by lia. change (pow2 0) with 1. ring. }
      assert (R : rne (inject_Z z / pow2 e) = (z * 2 ^ (- e))%Z).
      { rewrite <- (rne_Z (z * 2 ^ (- e))). apply rne_comp.
        rewrite G at 1. field. lra. }
      exists z. split; [exact Hz |]. rewrite R. apply Fin_Q2Qc. now rewrite <- G.
    + exists (rne (inject_Z z / pow2 e) * 2 ^ e)%Z. split.
      * apply Z.mul_nonneg_nonneg; [exact M0 | apply Z.pow_nonneg; lia].
      * apply Fin_Q2Qc. rewrite inject_Z_mult, <- pow2_nonneg by exact C.
        reflexivity.
Qed.

Lemma dyadic_max_value : dyadic (inject_Z max_value).
Proof.
  exists (2 ^ 53 - 1)%Z, 971%Z. split; [vm_compute; reflexivity | lia].
Qed.

Lemma max_value_finite : inject_Z max_value < pow2 1024.
Proof. vm_compute. reflexivity. Qed.

(** A finite double is at most [max_value]. *)
Lemma dyadic_le_max (q : Q) : dyadic q -> q < pow2 1024 -> q <= inject_Z max_value.
Proof.
  intros (m & e & E & Hm & He) Hfin. rewrite E in *.
  pose proof (pow2_pos e) as Hp.
  assert (Mx : inject_Z max_value == inject_Z (2 ^ 53 - 1) * pow2 971)
    by (vm_compute; reflexivity).
  destruct (Z_le_gt_dec e 971) as [C | C].
  - rewrite Mx. apply Qle_trans with (y := inject_Z (2 ^ 53 - 1) * pow2 e).
    + apply Qmult_le_compat_r; [| lra]. rewrite <- Zle_Qle. lia.
    + apply Qmult_le_l; [reflexivity | apply pow2_le; exact C].
  - assert (G : inject_Z m * pow2 e == inject_Z (m * 2 ^ (e - 971)) * pow2 971).
    { rewrite inject_Z_mult, <- pow2_nonneg by lia.
      rewrite (pow2_split e 971). ring. }
    rewrite G in *.
    assert (P : pow2 1024 == inject_Z (2 ^ 53) * pow2 971) by (vm_compute; reflexivity).
    rewrite P in Hfin.
    apply Qmult_lt_r in Hfin; [| apply pow2_pos].
    rewrite <- Zlt_Qlt in Hfin.
    rewrite Mx. apply Qmult_le_compat_r; [| pose proof (pow2_pos 971); lra].
    rewrite <- Zle_Qle. lia.
Qed.

(** A third of a value of which at most a sixth was taken before
    rounding fits three times into the value ([p] being a double). *)
Lemma round64_sixth (x p v : Q) :
  0 < x -> 6 * x <= p -> dyadic p ->
  round64 x = Fin (Q2Qc v) -> 3 * v <= p.
Proof.
  intros Hx H6 Hp E. rewrite (round64_pos x Hx) in E.
  destruct (Qle_bool _ _); [discriminate |].
  assert (Ev : v == inject_Z (rne (x / pow2 (ulp_exponent x))) * pow2 (ulp_exponent x)).
  { apply (f_equal (fun n => match n with Fin q => this q | _ => 0 end)) in E.
    rewrite <- (this_Q2Qc v), <- E. apply this_Q2Qc. }
  clear E.
  pose proof (pow2_pos (ulp_exponent x)) as Hq.
  destruct (on_grid_of_dyadic x p Hx ltac:(lra) Hp) as [P EP].
  set (e := ulp_exponent x) in *. set (y := x / pow2 e) in *.
  pose proof (rne_half_above y) as Hh.
  assert (Hy : 6 * y <= inject_Z P).
  { unfold y. apply Qmult_le_r with (z := pow2 e); [exact Hq |].
    rewrite <- EP. setoid_replace (6 * (x / pow2 e) * pow2 e) with (6 * x);
      [exact H6 | field; lra]. }
  assert (HZ : (6 * rne y <= P + 3)%Z).
  { rewrite Zle_Qle, inject_Z_mult, inject_Z_plus.
    change (inject_Z 6) with 6. change (inject_Z 3) with 3. lra. }
  assert (H0 : (0 <= rne y)%Z) by (apply mantissa_bounds; exact Hx).
  assert (Hy0 : 0 <= y).
  { unfold y. apply Qle_shift_div_l; [exact Hq | lra]. }
  assert (HP : (0 <= P)%Z).
  { rewrite Zle_Qle. change (inject_Z 0) with 0. lra. }
  assert (H3 : (3 * rne y <= P)%Z) by lia.
  rewrite Ev, EP. rewrite Qmult_assoc. apply Qmult_le_compat_r; [| lra].
  rewrite Zle_Qle, inject_Z_mult in H3. exact H3.
Qed.

(** Rounding keeps the sign. *)
Lemma round64_nonpos (x : Q) (q : Qc) : x <= 0 -> round64 x = Fin q -> q <= 0.
Proof.
  intros Hx E. destruct (Qlt_le_dec x 0) as [N | N].
  - assert (Ha : 0 < Qabs x).
    { rewrite Qabs_neg by lra. lra. }
    destruct (mantissa_bounds _ Ha) as [M0 _].
    pose proof (pow2_pos (ulp_exponent (Qabs x))) as Hp.
    unfold round64 in E. rewrite (proj1 (Qlt_alt x 0) N) in E.
    destruct (Qle_bool _ _); [discriminate |].
    injection E as E. rewrite <- E, this_Q2Qc.
    assert (0 <= inject_Z (rne (Qabs x / pow2 (ulp_exponent (Qabs x))))
                 * pow2 (ulp_exponent (Qabs x))).
    { apply Qmult_le_0_compat; [| lra].
      change 0 with (inject_Z 0). rewrite <- Zle_Qle. exact M0. }
    lra.
  - rewrite round64_0 in E by lra. injection E as E. rewrite <- E.
    change (this (Q2Qc (inject_Z 0))) with 0. lra.
Qed.

End Rounding.

(** ** The operations on doubles that are not negative *)

Section NonNegative.

Local Open Scope Q_scope.

Lemma this_plus (x y : Qc) : this (x + y)%Qc == this x + this y.
Proof. unfold Qcplus. apply this_Q2Qc. Qed.

Lemma this_ofZ (z : Z) : this (Q2Qc (inject_Z z)) == inject_Z z.
Proof. apply this_Q2Qc. Qed.

Lemma nonneg_round (x B : Q) :
  0 <= x -> x <= B -> Double.dyadic B -> B < Double.pow2 1024 ->
  exists q : Qc,
    Double.round64 x = Fin q /\ 0 <= q /\ q <= B /\ Double.dyadic q.
Proof.
  intros H0 HB Hd Hf. destruct (Qlt_le_dec 0 x) as [P | P].
  - destruct (Rounding.round64_upper x B P HB Hd Hf) as (v & E & V0 & VB & Vd).
    exists (Q2Qc v). split; [exact E |].
    split; [| split].
    + rewrite this_Q2Qc. exact V0.
    + rewrite this_Q2Qc. exact VB.
    + apply (Rounding.dyadic_comp v); [symmetry; apply this_Q2Qc | exact Vd].
  - rewrite Rounding.round64_0 by lra. exists (Q2Qc (inject_Z 0)).
    split; [reflexivity |]. change (this (Q2Qc (inject_Z 0))) with 0.
    split; [lra | split; [lra | apply Rounding.dyadic_0]].
Qed.

Lemma nonneg_round_sixth (x p : Q) :
  0 <= x -> 6 * x <= p -> Double.dyadic p -> p < Double.pow2 1024 ->
  exists q : Qc, Double.round64 x = Fin q /\ 0 <= q /\ 3 * q <= p.
Proof.
  intros H0 H6 Hd Hf. destruct (Qlt_le_dec 0 x) as [P | P].
  - destruct (Rounding.round64_upper x p P ltac:(lra) Hd Hf) as (v & E & V0 & _).
    exists (Q2Qc v). split; [exact E |].
    split; rewrite this_Q2Qc; [exact V0 |].
    exact (Rounding.round64_sixth x p v P H6 Hd E).
  - rewrite Rounding.round64_0 by lra. exists (Q2Qc (inject_Z 0)).
    split; [reflexivity |]. change (this (Q2Qc (inject_Z 0))) with 0. lra.
Qed.

Lemma nonneg_round_finite (x : Q) :
  0 <= x -> x < Double.overflow_threshold ->
  Double.nonneg_double (Double.round64 x).
Proof.
  intros H0 Hf. destruct (Qlt_le_dec 0 x) as [P | P].
  - destruct (Rounding.round64_finite x P Hf) as (v & E & V0 & Vd & Vf).
    exists (Q2Qc v). split; [exact E |].
    split; [rewrite this_Q2Qc; exact V0 |].
    split; [| rewrite this_Q2Qc; exact Vf].
    apply (Rounding.dyadic_comp v); [symmetry; apply this_Q2Qc | exact Vd].
  - rewrite Rounding.round64_0 by lra. exists (Q2Qc (inject_Z 0)).
    split; [reflexivity |]. change (this (Q2Qc (inject_Z 0))) with 0.
    split; [lra | split; [apply Rounding.dyadic_0 | apply Rounding.pow2_pos]].
Qed.

Lemma mul_round (a b : Qc) :
  0 <= a -> 0 <= b -> Double.mul (Fin a) (Fin b) = Double.round64 (a * b).
Proof.
  intros Ha Hb. unfold Double.mul. cbn [Nmul Double.fl].
  symmetry. apply Rounding.round64_comp.
  - apply Qmult_le_0_compat; assumption.
  - symmetry. apply this_mult.
Qed.

Lemma add_round (a b : Qc) :
  0 <= a -> 0 <= b -> Double.add (Fin a) (Fin b) = Double.round64 (a + b).
Proof.
  intros Ha Hb. unfold Double.add. cbn [Nadd Double.fl].
  symmetry. apply Rounding.round64_comp; [lra |]. symmetry. apply this_plus.
Qed.

Lemma sub_round (a b : Qc) :
  b <= a -> Double.sub (Fin a) (Fin b) = Double.round64 (a - b).
Proof.
  intros Hab. unfold Double.sub, Nsub. cbn [Nneg Nadd Double.fl].
  symmetry. apply Rounding.round64_comp; [lra |]. symmetry. apply this_minus.
Qed.

Lemma fl_ofZ (z : Z) :
  (0 <= z)%Z -> Double.fl (ofZ z) = Double.round64 (inject_Z z).
Proof.
  intros Hz. unfold ofZ. cbn [Double.fl]. symmetry.
  apply Rounding.round64_comp.
  - change 0 with (inject_Z 0). now rewrite <- Zle_Qle.
  - symmetry. apply this_ofZ.
Qed.

Lemma ofZ_value (z : Z) (q : Qc) : ofZ z = Fin q -> q == inject_Z z.
Proof.
  intros E. injection E as E. rewrite <- E. apply this_ofZ.
Qed.

(** Rounding an integer that is not negative, with a double above
    it. *)
Lemma round_integer_upper (z B : Z) :
  (0 <= z <= B)%Z -> Double.dyadic (inject_Z B) ->
  inject_Z B < Double.pow2 1024 ->
  exists z', Double.fl (ofZ z) = ofZ z' /\ (0 <= z' <= B)%Z.
Proof.
  intros Hz Hd Hf. rewrite fl_ofZ by lia.
  assert (H0 : 0 <= inject_Z z).
  { change 0 with (inject_Z 0). rewrite <- Zle_Qle. lia. }
  assert (HB : inject_Z z <= inject_Z B) by (rewrite <- Zle_Qle; lia).
  destruct (nonneg_round _ _ H0 HB Hd Hf) as (q & E & _ & Q1 & _).
  destruct (Rounding.round64_integer z ltac:(lia)) as [I | (z' & Z0 & I)].
  - rewrite I in E. discriminate.
  - exists z'. split; [exact I |]. split; [exact Z0 |].
    rewrite I in E. apply ofZ_value in E. rewrite E in Q1.
    now rewrite <- Zle_Qle in Q1.
Qed.

Lemma round_integer_finite (z : Z) :
  (0 <= z)%Z -> inject_Z z < Double.overflow_threshold ->
  exists z', Double.fl (ofZ z) = ofZ z' /\ (0 <= z')%Z.
Proof.
  intros Hz Hf. rewrite fl_ofZ by lia.
  assert (H0 : 0 <= inject_Z z).
  { change 0 with (inject_Z 0). rewrite <- Zle_Qle. lia. }
  destruct (nonneg_round_finite _ H0 Hf) as (q & E & _).
  destruct (Rounding.round64_integer z Hz) as [I | (z' & Z0 & I)].
  - rewrite I in E. discriminate.
  - exists z'. split; assumption.
Qed.

Lemma dyadic_small (z : Z) : (0 <= z < 2 ^ 53)%Z -> Double.dyadic (inject_Z z).
Proof.
  intros H. exists z, 0%Z. split; [| lia].
  change (Double.pow2 0) with 1. ring.
Qed.

(** Steps 1 and 2: a discount of [g] times a rate of at most a sixth,
    [g] from 0 to 3, leaves a double between 0 and the price. *)
Lemma discount_nonneg (p c : Qc) (g : Z) :
  0 <= p -> Double.dyadic p -> p < Double.pow2 1024 ->
  0 <= c -> 6 * c <= 1 -> (0 <= g <= 3)%Z ->
  exists q : Qc,
    Double.sub (Fin p) (Double.mul (ofZ g) (Double.mul (Fin p) (Fin c))) = Fin q
    /\ 0 <= q /\ q <= p /\ Double.dyadic q.
Proof.
  intros Hp Hd Hf Hc H6 Hg.
  rewrite (mul_round p c Hp Hc).
  assert (P0 : 0 <= p * c) by (apply Qmult_le_0_compat; assumption).
  assert (P6 : 6 * (p * c) <= p).
  { setoid_replace (6 * (p * c)) with (p * (6 * c)) by ring.
    setoid_replace (this p) with (p * 1) at 2 by ring.
    destruct (Qlt_le_dec 0 p) as [L | L].
    - apply Qmult_le_l; assumption.
    - setoid_replace (this p) with 0 by lra. lra. }
  destruct (nonneg_round_sixth _ _ P0 P6 Hd Hf) as (t & -> & T0 & T3).
  assert (G0 : 0 <= inject_Z g).
  { change 0 with (inject_Z 0). rewrite <- Zle_Qle. lia. }
  assert (G3 : inject_Z g <= 3).
  { change 3 with (inject_Z 3). rewrite <- Zle_Qle. lia. }
  unfold ofZ at 1. rewrite mul_round; [| rewrite this_ofZ; exact G0 | exact T0].
  assert (U0 : 0 <= Q2Qc (inject_Z g) * t).
  { apply Qmult_le_0_compat; [rewrite this_ofZ; exact G0 | exact T0]. }
  assert (U1 : Q2Qc (inject_Z g) * t <= p).
  { rewrite this_ofZ. apply Qle_trans with (y := 3 * t); [| exact T3].
    apply Qmult_le_compat_r; assumption. }
  destruct (nonneg_round _ _ U0 U1 Hd Hf) as (u & -> & V0 & V1 & _).
  rewrite (sub_round p u V1).
  apply nonneg_round; [lra | lra | exact Hd | exact Hf].
Qed.

(** Steps 3 to 5: a factor of at most 1. *)
Lemma scale_nonneg (p c : Qc) :
  0 <= p -> Double.dyadic p -> p < Double.pow2 1024 ->
  0 <= c -> c <= 1 ->
  exists q : Qc,
    Double.mul (Fin p) (Fin c) = Fin q /\ 0 <= q /\ q <= p /\ Double.dyadic q.
Proof.
  intros Hp Hd Hf Hc H1. rewrite (mul_round p c Hp Hc).
  apply nonneg_round; [apply Qmult_le_0_compat; assumption | | exact Hd | exact Hf].
  setoid_replace (this p) with (p * 1) at 2 by ring.
  destruct (Qlt_le_dec 0 p) as [L | L].
  - apply Qmult_le_l; assumption.
  - setoid_replace (this p) with 0 by lra. lra.
Qed.

Lemma max_value_room :
  inject_Z Double.max_value + 32 < Double.overflow_threshold.
Proof. vm_compute. reflexivity. Qed.

(** Steps 6 and 7: adding 10 or 5 does not overflow. *)
Lemma extra_nonneg (p : Qc) (k : Z) :
  0 <= p -> Double.dyadic p -> p < Double.pow2 1024 -> (0 <= k <= 32)%Z ->
  Double.nonneg_double (Double.add (Fin p) (ofZ k)).
Proof.
  intros Hp Hd Hf Hk.
  assert (K0 : 0 <= inject_Z k).
  { change 0 with (inject_Z 0). rewrite <- Zle_Qle. lia. }
  assert (K1 : inject_Z k <= 32).
  { change 32 with (inject_Z 32). rewrite <- Zle_Qle. lia. }
  unfold ofZ. rewrite add_round; [| exact Hp | rewrite this_ofZ; exact K0].
  pose proof (Rounding.dyadic_le_max p Hd Hf) as Hm.
  pose proof max_value_room as Hr.
  apply nonneg_round_finite; rewrite this_ofZ; lra.
Qed.

End NonNegative.

(** ** The adjustment and the offer on doubles *)

Section OfferOnDoubles.

Local Open Scope Q_scope.

Lemma Neq_ofZ (n : Number) (k : Z) : Neq n (ofZ k) = true -> n = ofZ k.
Proof.
  unfold Neq. destruct n as [| | | q]; cbn [Nle ofZ andb]; try discriminate.
  intros H. apply andb_prop in H. destruct H as [H1 H2].
  apply Qle_bool_iff in H1, H2. apply Fin_eq. lra.
Qed.

Lemma is_grade_cases (n : Number) :
  is_grade n = true -> exists k, (1 <= k <= 4)%Z /\ n = ofZ k.
Proof.
  unfold is_grade. cbn [existsb]. intros H.
  repeat (apply orb_prop in H; destruct H as [H | H]);
    try discriminate; apply Neq_ofZ in H; eexists; (split; [| exact H]); lia.
Qed.

Lemma grade_of_parseInt (condition : JsValue) (key : string) (k : Z) :
  grade_of condition key = ofZ k ->
  Double.parseInt (field condition key) = Normal (ofZ k).
Proof.
  unfold grade_of. destruct (Double.parseInt _); [congruence | discriminate].
Qed.

Lemma four_minus (k : Z) :
  (1 <= k <= 4)%Z -> Double.sub (ofZ 4) (ofZ k) = ofZ (4 - k).
Proof.
  intros H. assert (E : (k = 1 \/ k = 2 \/ k = 3 \/ k = 4)%Z) by lia.
  destruct E as [-> | [-> | [-> | ->]]]; js_eq.
Qed.

(** The rates of lines 89-93 as doubles. *)
Lemma rate_sixth (m : Z) (d : positive) :
  match Double.lit m d with
  | Fin c => Qle_bool 0 c && Qle_bool (6 * c) 1
  | _ => false
  end = true ->
  exists c : Qc, Double.lit m d = Fin c /\ 0 <= c /\ 6 * c <= 1.
Proof.
  destruct (Double.lit m d) as [| | | c]; try discriminate.
  intros T. apply andb_prop in T. destruct T as [T1 T2].
  apply Qle_bool_iff in T1, T2. eauto.
Qed.

Lemma rate_unit (m : Z) (d : positive) :
  match Double.lit m d with
  | Fin c => Qle_bool 0 c && Qle_bool c 1
  | _ => false
  end = true ->
  exists c : Qc, Double.lit m d = Fin c /\ 0 <= c /\ c <= 1.
Proof.
  destruct (Double.lit m d) as [| | | c]; try discriminate.
  intros T. apply andb_prop in T. destruct T as [T1 T2].
  apply Qle_bool_iff in T1, T2. eauto.
Qed.

Lemma double_up_to_nonneg (B : Q) (p : Number) :
  Double.double_up_to B p -> Double.nonneg_double p.
Proof. intros (q & E & Q0 & _ & Qd & Qf). exists q. auto. Qed.

Lemma nonneg_double_up_to (q : Qc) :
  Double.nonneg_double (Fin q) -> Double.double_up_to q (Fin q).
Proof.
  intros (q' & E & Q0 & Qd & Qf). injection E as <-.
  exists q. repeat split; try assumption. apply Qle_refl.
Qed.

Lemma discount_step (B : Q) (p : Number) (m : Z) (d : positive) (k : Z) :
  match Double.lit m d with
  | Fin c => Qle_bool 0 c && Qle_bool (6 * c) 1
  | _ => false
  end = true ->
  (1 <= k <= 4)%Z ->
  Double.double_up_to B p ->
  Double.double_up_to B
    (Double.sub p (Double.mul (Double.sub (ofZ 4) (ofZ k))
                              (Double.mul p (Double.lit m d)))).
Proof.
  intros T Hk (q & -> & Q0 & QB & Qd & Qf).
  destruct (rate_sixth m d T) as (c & -> & C0 & C6).
  rewrite (four_minus k Hk).
  destruct (discount_nonneg q c (4 - k) Q0 Qd Qf C0 C6 ltac:(lia))
    as (q' & -> & P0 & P1 & Pd).
  exists q'. split; [reflexivity |]. split; [exact P0 |].
  split; [lra |]. split; [exact Pd | lra].
Qed.

Lemma scale_step (B : Q) (p : Number) (m : Z) (d : positive) (flag : bool) :
  match Double.lit m d with
  | Fin c => Qle_bool 0 c && Qle_bool c 1
  | _ => false
  end = true ->
  Double.double_up_to B p ->
  Double.double_up_to B (if flag then Double.mul p (Double.lit m d) else p).
Proof.
  intros T H. destruct flag; [| exact H].
  destruct H as (q & -> & Q0 & QB & Qd & Qf).
  destruct (rate_unit m d T) as (c & -> & C0 & C1).
  destruct (scale_nonneg q c Q0 Qd Qf C0 C1) as (q' & -> & P0 & P1 & Pd).
  exists q'. split; [reflexivity |]. split; [exact P0 |].
  split; [lra |]. split; [exact Pd | lra].
Qed.

Lemma extra_step (p : Number) (k : Z) (flag : bool) :
  (0 <= k <= 32)%Z ->
  Double.nonneg_double p ->
  Double.nonneg_double (if flag then Double.add p (ofZ k) else p).
Proof.
  intros Hk H. destruct flag; [| exact H].
  destruct H as (q & -> & Q0 & Qd & Qf). now apply extra_nonneg.
Qed.

(** Steps 1 to 5 on a typed record keep a double between 0 and the
    baseline. *)
Lemma discounts_up_to (B : Q) (b : Number) (s g : Z) (ff cw bh : bool) :
  (1 <= s <= 4)%Z -> (1 <= g <= 4)%Z ->
  Double.double_up_to B b ->
  Double.double_up_to B
    (let basePrice := b in
     let basePrice :=
       Double.sub basePrice
         (Double.mul (Double.sub (ofZ 4) (ofZ s))
                     (Double.mul basePrice (Double.lit 15 2))) in
     let basePrice :=
       Double.sub basePrice
         (Double.mul (Double.sub (ofZ 4) (ofZ g))
                     (Double.mul basePrice (Double.lit 1 1))) in
     let basePrice :=
       if ff then Double.mul basePrice (Double.lit 4 1) else basePrice in
     let basePrice :=
       if cw then Double.mul basePrice (Double.lit 8 1) else basePrice in
     let basePrice :=
       if bh then Double.mul basePrice (Double.lit 9 1) else basePrice in
     basePrice).
Proof.
  intros Hs Hg H. cbv zeta.
  apply scale_step; [reflexivity |]. apply scale_step; [reflexivity |].
  apply scale_step; [reflexivity |].
  apply discount_step; [reflexivity | exact Hg |].
  apply discount_step; [reflexivity | exact Hs | exact H].
Qed.

(** With grades from 1 to 4 the adjusted price of a double that is
    not negative is again such a double. *)
Lemma adjust_nonneg_double (condition : JsValue) (b : Number) :
  truthy condition = true ->
  is_grade (grade_of condition "screen_condition") = true ->
  is_grade (grade_of condition "body_condition") = true ->
  Double.nonneg_double b ->
  exists p, Part000D.adjust condition b = Normal p /\ Double.nonneg_double p.
Proof.
  intros Ht Hs Hb H.
  destruct (is_grade_cases _ Hs) as (s & Rs & Es).
  destruct (is_grade_cases _ Hb) as (g & Rg & Eg).
  apply grade_of_parseInt in Es, Eg.
  unfold Part000D.adjust.
  rewrite !(getProp_truthy condition _ Ht). cbn [completion_bind].
  rewrite Es. cbn [completion_bind]. rewrite Eg. cbn [completion_bind].
  eexists. split; [reflexivity |].
  apply extra_step; [lia |]. apply extra_step; [lia |].
  destruct H as (q & -> & H).
  apply (double_up_to_nonneg q).
  apply (discounts_up_to q (Fin q) s g); [exact Rs | exact Rg |].
  apply nonneg_double_up_to. exists q. split; [reflexivity | exact H].
Qed.

Lemma floor_nonneg (q : Q) : 0 <= q -> (0 <= Qfloor q)%Z.
Proof. intros H. apply Qfloor_resp_le in H. exact H. Qed.

Lemma floor_upper (q : Q) (n : Z) : q <= inject_Z n -> (Qfloor q <= n)%Z.
Proof.
  intros H. apply Qfloor_resp_le in H. now rewrite Qfloor_Z in H.
Qed.

(** The bonus of a draw in [0, 1) is an integer from 0 to 30. *)
Lemma random_bonus_integer (r : Qc) :
  in_unit_interval r ->
  exists k, Double.random_bonus r = ofZ k /\ (0 <= k <= 30)%Z.
Proof.
  intros [R0 R1]. unfold Qcle, Qclt in *.
  change (this 0%Qc) with 0 in R0. change (this 1%Qc) with 1 in R1.
  unfold Double.random_bonus. unfold ofZ at 1.
  rewrite mul_round; [| exact R0 | rewrite this_ofZ; discriminate].
  assert (B25 : Double.dyadic (inject_Z 25)) by (apply dyadic_small; lia).
  assert (F25 : inject_Z 25 < Double.pow2 1024) by reflexivity.
  assert (P0 : 0 <= r * Q2Qc (inject_Z 25)).
  { rewrite this_ofZ. change (inject_Z 25) with 25. lra. }
  assert (P1 : r * Q2Qc (inject_Z 25) <= inject_Z 25).
  { rewrite this_ofZ. change (inject_Z 25) with 25. lra. }
  destruct (nonneg_round _ _ P0 P1 B25 F25) as (q & -> & Q0 & Q1 & _).
  unfold Double.Math_floor. cbn [Math_floor].
  destruct (round_integer_upper (Qfloor q) 25) as (k & -> & K);
    [split; [apply floor_nonneg; exact Q0 | apply floor_upper; exact Q1]
    | exact B25 | exact F25 |].
  unfold Double.add. rewrite Nadd_ofZ.
  destruct (round_integer_upper (k + 5) 30) as (k' & -> & K');
    [lia | apply dyadic_small; lia | reflexivity |].
  exists k'. split; [reflexivity | exact K'].
Qed.

(** [Math.round] of a double that is not negative is an integer. *)
Lemma round_nonneg_double (p : Number) :
  Double.nonneg_double p ->
  exists z, Double.Math_round p = ofZ z /\ (0 <= z <= Double.max_value)%Z.
Proof.
  intros (q & -> & Q0 & Qd & Qf).
  unfold Double.Math_round. rewrite Math_round_Fin.
  pose proof (Rounding.dyadic_le_max q Qd Qf) as Hm.
  apply round_integer_upper.
  - split.
    + apply floor_nonneg. lra.
    + assert (L : (Qfloor (q + (1 # 2)) < Double.max_value + 1)%Z).
      { rewrite Zlt_Qlt. pose proof (Qfloor_le (q + (1 # 2))) as F.
        rewrite inject_Z_plus. change (inject_Z 1) with 1. lra. }
      lia.
  - apply Rounding.dyadic_max_value.
  - apply Rounding.max_value_finite.
Qed.

(** The final offer on a double that is not negative is an integer. *)
Lemma offer_integer_double (p : Number) (r : Qc) :
  Double.nonneg_double p -> in_unit_interval r ->
  exists z,
    Double.add (Double.Math_round p) (Double.random_bonus r) = ofZ z
    /\ (0 <= z)%Z.
Proof.
  intros Hp Hr.
  destruct (round_nonneg_double p Hp) as (z & -> & Z0 & Z1).
  destruct (random_bonus_integer r Hr) as (k & -> & K).
  unfold Double.add. rewrite Nadd_ofZ.
  apply round_integer_finite; [lia |].
  pose proof max_value_room as Hroom.
  assert (inject_Z (z + k) <= inject_Z Double.max_value + 32).
  { change 32 with (inject_Z 32). rewrite <- inject_Z_plus, <- Zle_Qle. lia. }
  lra.
Qed.

End OfferOnDoubles.

(** ** The two revisions in binary64 *)

Lemma serverD_priceFromText_number t : isNaN (ServerD.priceFromText t) = false.
Proof.
  rewrite serverD_priceFromText_fl, fl_number. apply server_priceFromText_number.
Qed.

Lemma part000D_priceFromText_number t : isNaN (Part000D.priceFromText t) = false.
Proof.
  rewrite part000D_priceFromText_fl, fl_number. apply part000_priceFromText_number.
Qed.

Lemma serverD_getCeXPrice_scrapes w model storage grade :
  scrapes w ServerD.priceFromText
    (fun doc => first_find_text doc (js ".product-box-container")
                                (js ".sell-price .price"))
    (ServerD.getCeXPrice w model storage grade).
Proof.
  intros log.
  unfold ServerD.getCeXPrice, try_catch, bind, lift, do_fetch, ret.
  repeat run_step; scrape_done.
Qed.

Lemma serverD_getMusicMagpiePrice_scrapes w brand model storage :
  scrapes w ServerD.priceFromText
    (fun doc => trim (first_text doc (js ".product-price-now")))
    (ServerD.getMusicMagpiePrice w brand model storage).
Proof.
  intros log.
  unfold ServerD.getMusicMagpiePrice, try_catch, bind, lift, do_fetch, ret.
  repeat run_step; scrape_done.
Qed.

Lemma part000D_getCeXPrice_scrapes w model storage :
  scrapes w Part000D.priceFromText
    (fun doc => first_text doc
                  (js ".sell-price .price-info-row .price-info-val .price"))
    (Part000D.getCeXPrice w model storage).
Proof.
  intros log.
  unfold Part000D.getCeXPrice, try_catch, bind, lift, do_fetch, ret.
  repeat run_step; scrape_done.
Qed.

Lemma part000D_getMusicMagpiePrice_scrapes w brand model storage :
  scrapes w Part000D.priceFromText
    (fun doc => trim (first_text doc (js ".product-price-now")))
    (Part000D.getMusicMagpiePrice w brand model storage).
Proof.
  intros log.
  unfold Part000D.getMusicMagpiePrice, try_catch, bind, lift, do_fetch, ret.
  repeat run_step; scrape_done.
Qed.

(** An extractor whose parse step rounds returns a number that is the
    result of a rounding. *)
Lemma scrapes_rounded w parse pick c :
  (forall t, isNaN (parse t) = false) ->
  (forall t, Double.rounded (parse t)) ->
  scrapes w parse pick c ->
  forall log, exists n log',
      c log = (Normal n, log') /\ isNaN n = false /\ Double.rounded n.
Proof.
  intros Hn Hr Hc log.
  destruct (Hc log) as (n & log' & E & [-> | (t & _ & ->)]);
    eexists; exists log'; (split; [exact E |]).
  - split; [reflexivity | exists (ofZ 0); reflexivity].
  - split; [apply Hn | apply Hr].
Qed.

Lemma serverD_priceFromText_rounded t : Double.rounded (ServerD.priceFromText t).
Proof. eexists. apply serverD_priceFromText_fl. Qed.

Lemma part000D_priceFromText_rounded t : Double.rounded (Part000D.priceFromText t).
Proof. eexists. apply part000D_priceFromText_fl. Qed.

Lemma serverD_scraped_rounded w body :
  (isNaN (fst (ServerD.scraped w body)) = false
   /\ Double.rounded (fst (ServerD.scraped w body)))
  /\ (isNaN (snd (ServerD.scraped w body)) = false
      /\ Double.rounded (snd (ServerD.scraped w body))).
Proof.
  unfold ServerD.scraped.
  destruct (scrapes_rounded _ _ _ _ serverD_priceFromText_number
              serverD_priceFromText_rounded
              (serverD_getCeXPrice_scrapes w (field body "model")
                 (field body "storage") (field body "grade")) [])
    as (c & log1 & Ec & Hc).
  destruct (scrapes_rounded _ _ _ _ serverD_priceFromText_number
              serverD_priceFromText_rounded
              (serverD_getMusicMagpiePrice_scrapes w (field body "brand")
                 (field body "model") (field body "storage")) log1)
    as (m & log2 & Em & Hm).
  rewrite Ec. cbn [snd]. rewrite Em. unfold value_of. cbn [fst snd]. auto.
Qed.

Lemma part000D_scraped_rounded w body :
  (isNaN (fst (Part000D.scraped w body)) = false
   /\ Double.rounded (fst (Part000D.scraped w body)))
  /\ (isNaN (snd (Part000D.scraped w body)) = false
      /\ Double.rounded (snd (Part000D.scraped w body))).
Proof.
  unfold Part000D.scraped.
  destruct (scrapes_rounded _ _ _ _ part000D_priceFromText_number
              part000D_priceFromText_rounded
              (part000D_getCeXPrice_scrapes w (field body "model")
                 (field body "storage")) [])
    as (c & log1 & Ec & Hc).
  destruct (scrapes_rounded _ _ _ _ part000D_priceFromText_number
              part000D_priceFromText_rounded
              (part000D_getMusicMagpiePrice_scrapes w (field body "brand")
                 (field body "model") (field body "storage")) log1)
    as (m & log2 & Em & Hm).
  rewrite Ec. cbn [snd]. rewrite Em. unfold value_of. cbn [fst snd]. auto.
Qed.

(** An accepted request is answered from the two scraped prices. *)
Lemma serverD_get_quote_accepted w body :
  ServerRun.accepted body = true ->
  fst (run (ServerD.get_quote w body)) =
  ServerD.quote (fst (ServerD.scraped w body)) (snd (ServerD.scraped w body))
                (Math_random w).
Proof.
  intros H. unfold ServerRun.accepted in H. split_accepted H.
  unfold ServerD.scraped.
  destruct (scrapes_number _ _ _ _ serverD_priceFromText_number
              (serverD_getCeXPrice_scrapes w (field body "model")
                 (field body "storage") (field body "grade")) [])
    as (c & log1 & Ec & _).
  destruct (scrapes_number _ _ _ _ serverD_priceFromText_number
              (serverD_getMusicMagpiePrice_scrapes w (field body "brand")
                 (field body "model") (field body "storage")) log1)
    as (m & log2 & Em & _).
  rewrite Ec. cbn [snd]. rewrite Em. unfold value_of. cbn [fst].
  unfold ServerD.get_quote, run, bind, lift, try_catch, ret.
  repeat match goal with
         | Ht : truthy (field body ?k) = true |- _ =>
           rewrite (field_truthy body k Ht); rewrite Ht; clear Ht
         | Hp : prints _ = true |- _ =>
           apply prints_ToString in Hp; destruct Hp as [? Hp]; rewrite Hp; clear Hp
         end.
  cbn [negb orb]. rewrite Ec, Em. reflexivity.
Qed.

Lemma part000D_get_quote_accepted w body :
  Part000Run.accepted body = true ->
  fst (run (Part000D.get_quote w body)) =
  match Part000D.quote (field body "condition")
          (fst (Part000D.scraped w body)) (snd (Part000D.scraped w body))
          (Math_random w) with
  | Normal o => o
  | Throw _ =>
    Reply 500 [ (js "error", JStr (js "An internal server error occurred.")) ]
  end.
Proof.
  intros H. unfold Part000Run.accepted in H. split_accepted H.
  unfold Part000D.scraped.
  destruct (scrapes_number _ _ _ _ part000D_priceFromText_number
              (part000D_getCeXPrice_scrapes w (field body "model")
                 (field body "storage")) [])
    as (c & log1 & Ec & _).
  destruct (scrapes_number _ _ _ _ part000D_priceFromText_number
              (part000D_getMusicMagpiePrice_scrapes w (field body "brand")
                 (field body "model") (field body "storage")) log1)
    as (m & log2 & Em & _).
  rewrite Ec. cbn [snd]. rewrite Em. unfold value_of. cbn [fst].
  unfold Part000D.get_quote, run, bind, lift, try_catch, ret.
  repeat match goal with
         | Ht : truthy (field body ?k) = true |- _ =>
           rewrite (field_truthy body k Ht); rewrite Ht; clear Ht
         | Hp : prints _ = true |- _ =>
           apply prints_ToString in Hp; destruct Hp as [? Hp]; rewrite Hp; clear Hp
         end.
  cbn [negb orb]. rewrite Ec, Em.
  destruct (Part000D.quote _ _ _ _); reflexivity.
Qed.

(** A finite positive result of a rounding is a double that is not
    negative. *)
Lemma rounded_positive (n : Number) :
  Double.rounded n -> isFinite n = true -> Nle n (ofZ 0) = false ->
  Double.nonneg_double n.
Proof.
  intros [x ->] Hf Hp. destruct x as [| | | x]; try discriminate.
  cbn [Double.fl] in *.
  destruct (Double.round64 x) as [| | | q] eqn:E; try discriminate.
  cbn [Nle ofZ] in Hp. rewrite this_zero in Hp. apply Qle_bool_false in Hp.
  destruct (Qlt_le_dec 0 x) as [P | P].
  - destruct (Rounding.round64_pos_cases x P) as [I | (v & Ev & V0 & Vd & Vf)];
      [congruence |].
    rewrite E in Ev. exists q. split; [reflexivity |].
    injection Ev as Ev. rewrite Ev.
    split; [rewrite this_Q2Qc; exact V0 |].
    split; [| rewrite this_Q2Qc; exact Vf].
    apply (Rounding.dyadic_comp v); [symmetry; apply this_Q2Qc | exact Vd].
  - pose proof (Rounding.round64_nonpos x q P E). lra.
Qed.

Lemma larger_rounded_positive (c m : Number) :
  Double.rounded c -> Double.rounded m ->
  isFinite c && isFinite m = true ->
  Nle (larger c m) (ofZ 0) = false ->
  Double.nonneg_double (larger c m).
Proof.
  intros Hc Hm Hf Hp. apply andb_prop in Hf. destruct Hf as [Fc Fm].
  unfold larger in *. destruct (Nle c m); now apply rounded_positive.
Qed.

(** [NaN] goes through every operation. *)
Lemma sub_nan_r (x : Number) : Double.sub x NaN = NaN.
Proof. destruct x; reflexivity. Qed.

Lemma mul_nan_r (x : Number) : Double.mul x NaN = NaN.
Proof. destruct x; reflexivity. Qed.

Lemma adjust_nan (condition : JsValue) (b : Number) :
  truthy condition = true ->
  prints (field condition "screen_condition") = true ->
  prints (field condition "body_condition") = true ->
  isNaN (grade_of condition "screen_condition")
  || isNaN (grade_of condition "body_condition") = true ->
  Part000D.adjust condition b = Normal NaN.
Proof.
  intros Ht Ps Pb H. unfold grade_of, Double.parseInt in H.
  unfold Part000D.adjust, Double.parseInt.
  rewrite !(getProp_truthy condition _ Ht). cbn [completion_bind].
  apply prints_ToString in Ps, Pb. destruct Ps as [s Es]. destruct Pb as [g Eg].
  rewrite Es, Eg in *. cbn [completion_bind] in *.
  assert (E : Double.sub
                (Double.sub b
                   (Double.mul (Double.sub (ofZ 4) (Double.parseInt_string s))
                               (Double.mul b (Double.lit 15 2))))
                (Double.mul (Double.sub (ofZ 4) (Double.parseInt_string g))
                   (Double.mul
                      (Double.sub b
                         (Double.mul (Double.sub (ofZ 4) (Double.parseInt_string s))
                                     (Double.mul b (Double.lit 15 2))))
                      (Double.lit 1 1))) = NaN).
  { apply orb_prop in H. destruct H as [H | H].
    - destruct (Double.parseInt_string s); try discriminate.
      change (Double.sub (ofZ 4) NaN) with NaN.
      change (Double.mul NaN ?x) with NaN.
      rewrite sub_nan_r. reflexivity.
    - destruct (Double.parseInt_string g); try discriminate.
      change (Double.sub (ofZ 4) NaN) with NaN.
      change (Double.mul NaN ?x) with NaN.
      apply sub_nan_r. }
  cbv zeta. rewrite E.
  destruct (truthy (field condition "fully_functional"));
    destruct (truthy (field condition "camera_works"));
    destruct (truthy (field condition "battery_health"));
    destruct (truthy (field condition "original_box"));
    destruct (truthy (field condition "charger_included"));
    reflexivity.
Qed.

(** ** Integrality of the offer *)

(** C9 as amended, in binary64.  For an accepted request, a draw in
    [0, 1) and two finite scraped prices, [ourPrice] is an integer in
    every reply of [server.js], and in every reply of [part_000] when
    [parseInt] reads a grade from 1 to 4 for both [screen_condition]
    and [body_condition].  On the offer branch of [part_000], when
    [parseInt] reads [NaN] for one of the two grades (the grade is
    missing or not numeric), [ourPrice] is [NaN]. *)
Theorem ourPrice_integer_when_inputs_numeric (w : World) (body : JsValue) :
  in_unit_interval (Math_random w) ->
  (ServerRun.accepted body = true ->
   isFinite (fst (ServerD.scraped w body))
   && isFinite (snd (ServerD.scraped w body)) = true ->
   price_is_integer (fst (run (ServerD.get_quote w body))))
  /\
  (Part000Run.accepted body = true ->
   isFinite (fst (Part000D.scraped w body))
   && isFinite (snd (Part000D.scraped w body)) = true ->
   is_grade (grade_of (field body "condition") "screen_condition") = true ->
   is_grade (grade_of (field body "condition") "body_condition") = true ->
   price_is_integer (fst (run (Part000D.get_quote w body))))
  /\
  (Part000Run.accepted body = true ->
   Nle (Math_max (fst (Part000D.scraped w body)) (snd (Part000D.scraped w body)))
       (ofZ 0) = false ->
   prints (field (field body "condition") "screen_condition") = true ->
   prints (field (field body "condition") "body_condition") = true ->
   isNaN (grade_of (field body "condition") "screen_condition")
   || isNaN (grade_of (field body "condition") "body_condition") = true ->
   ourPrice (fst (run (Part000D.get_quote w body))) = Some (JNum NaN)).
Proof.
  intros Hr. split; [| split].
  - intros Hacc Hfin. rewrite (serverD_get_quote_accepted w body Hacc).
    destruct (serverD_scraped_rounded w body) as [[Nc Rc] [Nm Rm]].
    destruct (ServerD.scraped w body) as [c m]. cbn [fst snd] in *.
    unfold ServerD.quote. rewrite (Math_max_larger c m Nc Nm).
    destruct (Nle (larger c m) (ofZ 0)) eqn:L.
    + exists (ofZ 0). split; [reflexivity | apply isInteger_ofZ].
    + destruct (offer_integer_double (larger c m) (Math_random w)
                  (larger_rounded_positive c m Rc Rm Hfin L) Hr) as (z & E & _).
      exists (ofZ z). split; [cbn; now rewrite E | apply isInteger_ofZ].
  - intros Hacc Hfin Hs Hb.
    rewrite (part000D_get_quote_accepted w body Hacc).
    assert (Ht : truthy (field body "condition") = true).
    { unfold Part000Run.accepted in Hacc. split_accepted Hacc. assumption. }
    destruct (part000D_scraped_rounded w body) as [[Nc Rc] [Nm Rm]].
    destruct (Part000D.scraped w body) as [c m]. cbn [fst snd] in *.
    unfold Part000D.quote. rewrite (Math_max_larger c m Nc Nm).
    destruct (Nle (larger c m) (ofZ 0)) eqn:L.
    + exists (ofZ 0). split; [reflexivity | apply isInteger_ofZ].
    + destruct (adjust_nonneg_double _ _ Ht Hs Hb
                  (larger_rounded_positive c m Rc Rm Hfin L)) as (p & -> & Hp).
      cbn [completion_bind].
      destruct (offer_integer_double p (Math_random w) Hp Hr) as (z & E & _).
      exists (ofZ z). split; [cbn; now rewrite E | apply isInteger_ofZ].
  - intros Hacc Hpos Ps Pb Hnan.
    rewrite (part000D_get_quote_accepted w body Hacc).
    assert (Ht : truthy (field body "condition") = true).
    { unfold Part000Run.accepted in Hacc. split_accepted Hacc. assumption. }
    unfold Part000D.quote. rewrite Hpos.
    rewrite (adjust_nan _ _ Ht Ps Pb Hnan). reflexivity.
Qed.

Lemma ourPrice_integer_when_inputs_numeric_witness :
  price_is_integer
    (fst (run (ServerD.get_quote (sample_world true "£1,234.56" (Q2Qc (1 # 2)))
                                 sample_body)))
  /\
  price_is_integer
    (fst (run (Part000D.get_quote (sample_world true "£129.99" (Q2Qc (1 # 2)))
                                  (sample_request worn))))
  /\
  ourPrice
    (fst (run (Part000D.get_quote (sample_world true "£129.99" (Q2Qc (1 # 2)))
                                  (sample_request_with (JObj []))))) =
  Some (JNum NaN).
Proof.
  assert (Hr : in_unit_interval (Q2Qc (1 # 2))) by (split; [discriminate | reflexivity]).
  split; [| split].
  - apply (proj1 (ourPrice_integer_when_inputs_numeric
                    (sample_world true "£1,234.56" (Q2Qc (1 # 2))) sample_body Hr));
      reflexivity.
  - apply (proj1 (proj2 (ourPrice_integer_when_inputs_numeric
                           (sample_world true "£129.99" (Q2Qc (1 # 2)))
                           (sample_request worn) Hr)));
      reflexivity.
  - apply (proj2 (proj2 (ourPrice_integer_when_inputs_numeric
                           (sample_world true "£129.99" (Q2Qc (1 # 2)))
                           (sample_request_with (JObj [])) Hr)));
      reflexivity.
Defined.

(** C9 as stated fails: a condition record without grades passes
    validation, [parseInt(undefined)] is [NaN], and the 200 reply
    carries [NaN] as [ourPrice]. *)
Lemma ourPrice_not_a_number :
  Part000Run.accepted (sample_request_with (JObj [])) = true
  /\ fst (run (Part000D.get_quote (sample_world true "£100" (Q2Qc (1 # 2)))
                                  (sample_request_with (JObj [])))) =
     Reply 200 [ (js "ourPrice", JNum NaN); (js "cexPrice", JNum (ofZ 100));
                 (js "musicMagpiePrice", JNum (ofZ 100)) ]
  /\ isInteger NaN = false.
Proof. split; [reflexivity |]. split; [js_eq | reflexivity]. Qed.

(** Numeric grades outside 1 to 4 are not checked either: with a
    grade of [1e308], sent as a string of 309 digits, the first
    discount overflows, the price becomes [Infinity] and the second
    discount turns it into [NaN]. *)
Example huge_grade_is_not_an_integer :
  let condition :=
    JObj [ (js "screen_condition", JStr (js "1" ++ repeat 48%N 308)%list);
           (js "body_condition", JNum (ofZ 4)) ] in
  isFinite (grade_of condition "screen_condition") = true
  /\ ourPrice
       (fst (run (Part000D.get_quote (sample_world true "£100" (Q2Qc (1 # 2)))
                                     (sample_request_with condition)))) =
     Some (JNum NaN).
Proof. split; vm_compute; reflexivity. Qed.

(** A price too large for a double is read as [Infinity], and so is
    the offer of [server.js]. *)
Example huge_price_is_not_an_integer :
  ourPrice
    (fst (run (ServerD.get_quote
                 {| fetch := fetch (sample_world true "" (Q2Qc (1 # 2)));
                    cheerio_load :=
                      fun _ => Normal (sample_doc (repeat 57%N 310));
                    Math_random := Q2Qc (1 # 2) |}
                 sample_body))) =
  Some (JNum PosInf).
Proof. vm_compute. reflexivity. Qed.

(** ** The condition adjustment *)

Lemma double_parseInt_grade (k : Z) :
  1 <= k <= 4 -> Double.parseInt (JNum (ofZ k)) = Normal (ofZ k).
Proof.
  intros H.
  assert (E : k = 1 \/ k = 2 \/ k = 3 \/ k = 4) by lia.
  destruct E as [-> | [-> | [-> | ->]]]; js_eq.
Qed.

(** On a well-formed condition record the running [basePrice] of lines
    89-96 goes through the seven steps, the product [basePrice * rate]
    of steps 1 and 2 being taken first. *)
Lemma adjust_follows_steps (b : Number) (c : Spec.Condition) :
  1 <= Spec.screen_condition c <= 4 ->
  1 <= Spec.body_condition c <= 4 ->
  Part000D.adjust (Spec.to_json c) b = Normal (SpecD.steps b c).
Proof.
  destruct c as [sc bc ff cw bh box ch]. cbn [Spec.screen_condition Spec.body_condition].
  intros Hsc Hbc. unfold Part000D.adjust, Spec.to_json.
  change (getProp (JObj ?l) "screen_condition") with (Normal (JNum (ofZ sc))).
  cbn [completion_bind]. rewrite (double_parseInt_grade sc Hsc). cbn [completion_bind].
  change (getProp (JObj ?l) "body_condition") with (Normal (JNum (ofZ bc))).
  cbn [completion_bind]. rewrite (double_parseInt_grade bc Hbc). cbn [completion_bind].
  reflexivity.
Qed.

(** C1 as amended, in binary64: for a baseline [b > 0] and a condition
    record with grades from 1 to 4, the reply of [part_000] carries as
    [ourPrice] the result of the seven steps applied in order to [b],
    the discounts of steps 1 and 2 being
    [(4 - grade) * (basePrice * rate)], rounded, plus the bonus.  With
    the flawless record and a baseline of 100 the value before the
    bonus is exactly 100; with [fully_functional] unset it is exactly
    40. *)
Theorem v1_offer_follows_the_steps :
  (forall (b : Qc) (c : Spec.Condition) (cexPrice musicMagpiePrice : Number)
          (random : Qc),
      Math_max cexPrice musicMagpiePrice = Fin b ->
      (0 < b)%Qc ->
      1 <= Spec.screen_condition c <= 4 ->
      1 <= Spec.body_condition c <= 4 ->
      Part000D.quote (Spec.to_json c) cexPrice musicMagpiePrice random =
      Normal (Reply 200 [ (js "ourPrice",
                           JNum (SpecD.offer (SpecD.steps (Fin b) c) random));
                          (js "cexPrice", JNum cexPrice);
                          (js "musicMagpiePrice", JNum musicMagpiePrice) ]))
  /\ Part000D.adjust (Spec.to_json perfect) (ofZ 100) = Normal (ofZ 100)
  /\ Double.Math_round (ofZ 100) = ofZ 100
  /\ Part000D.adjust (Spec.to_json faulty) (ofZ 100) = Normal (ofZ 40).
Proof.
  split.
  - intros b c cex mm r Hmax Hpos Hsc Hbc. unfold Part000D.quote.
    rewrite Hmax. cbn [Nle ofZ]. rewrite this_zero.
    assert (Hb : Qle_bool b 0 = false).
    { destruct (Qle_bool b 0) eqn:E; [| reflexivity].
      apply Qle_bool_iff in E. unfold Qclt in Hpos.
      change (this 0%Qc) with 0%Q in Hpos. lra. }
    rewrite Hb, (adjust_follows_steps (Fin b) c Hsc Hbc). reflexivity.
  - split; [js_eq |]. split; js_eq.
Qed.

Lemma v1_offer_follows_the_steps_witness :
  Part000D.quote (Spec.to_json worn) (ofZ 100) (ofZ 80) (Q2Qc (1 # 2)) =
  Normal (Reply 200 [ (js "ourPrice",
                       JNum (SpecD.offer (SpecD.steps (ofZ 100) worn) (Q2Qc (1 # 2))));
                      (js "cexPrice", JNum (ofZ 100));
                      (js "musicMagpiePrice", JNum (ofZ 80)) ]).
Proof.
  apply (proj1 v1_offer_follows_the_steps (Q2Qc (inject_Z 100)) worn).
  - js_eq.
  - reflexivity.
  - simpl; lia.
  - simpl; lia.
Defined.

(** C1 as stated fails in binary64: taken from left to right, as the
    steps of the specification are written, the products of steps 1
    and 2 round differently.  For a page price of 970.12987012987 and
    grades 1 and 1 the code keeps 373.4999999999999 and offers 373
    plus the bonus, the steps as written keep 373.5 and give 374 plus
    the bonus. *)
Lemma v1_offer_differs_from_the_written_steps :
  fst (run (Part000D.get_quote (sample_world true "£970.12987012987" (Q2Qc 0))
                               (sample_request battered))) =
  Reply 200 [ (js "ourPrice", JNum (ofZ 378));
              (js "cexPrice", JNum (Double.parseFloat (js "970.12987012987")));
              (js "musicMagpiePrice",
               JNum (Double.parseFloat (js "970.12987012987"))) ]
  /\ Nlt (ofZ 0) (Double.parseFloat (js "970.12987012987")) = true
  /\ SpecD.offer (SpecD.steps_as_written
                    (Double.parseFloat (js "970.12987012987")) battered)
                 (Q2Qc 0) = ofZ 379
  /\ ofZ 378 <> ofZ 379.
Proof.
  split; [js_eq |]. split; [reflexivity |]. split; [js_eq |].
  intros E. apply ofZ_inj in E. discriminate.
Qed.

(** Rounding is part of the result: for a page price of
    3.896103896103896 the adjusted price of the battered device is
    exactly 1.5 in binary64, and the offer at a draw of 0 is 7; in
    exact arithmetic the adjusted price is below 1.5 and the offer
    would be 6. *)
Example rounding_changes_the_offer :
  ourPrice (fst (run (Part000D.get_quote
                        (sample_world true "£3.896103896103896" (Q2Qc 0))
                        (sample_request battered)))) = Some (JNum (ofZ 7))
  /\ Part000D.adjust (Spec.to_json battered)
       (Double.parseFloat (js "3.896103896103896")) = Normal (Double.lit 15 1)
  /\ ourPrice (fst (run (Part000.get_quote
                           (sample_world true "£3.896103896103896" (Q2Qc 0))
                           (sample_request battered)))) = Some (JNum (ofZ 6)).
Proof. split; [js_eq |]. split; js_eq. Qed.

(** Likewise for the bonus: at the double nearest to 0.96 the product
    with 25 is below 24 in exact arithmetic and rounds to 24. *)
Example rounding_changes_the_bonus :
  Double.random_bonus (double_q 96 2) = ofZ 29
  /\ random_bonus (double_q 96 2) = ofZ 28.
Proof. split; js_eq. Qed.

(** The worn device of the witness: every step changes the price. *)
Example worn_device_offer :
  SpecD.steps (ofZ 100) worn = Double.parseFloat (js "32.68000000000001")
  /\ Nlt (Double.lit 3268 2) (SpecD.steps (ofZ 100) worn) = true
  /\ SpecD.offer (SpecD.steps (ofZ 100) worn) (Q2Qc (1 # 2)) = ofZ 50.
Proof. split; [js_eq |]. split; [vm_compute; reflexivity | js_eq]. Qed.

(** The order of the steps matters: discounting for the screen after
    the box has been added gives another price, and in binary64 even
    the factors of steps 3 and 5 do not commute. *)
Example steps_do_not_commute :
  let c := {| Spec.screen_condition := 3; Spec.body_condition := 4;
              Spec.fully_functional := true; Spec.camera_works := true;
              Spec.battery_health := true; Spec.original_box := true;
              Spec.charger_included := false |} in
  SpecD.steps (ofZ 100) c = ofZ 95
  /\ Double.sub (Double.add (ofZ 100) (ofZ 10))
       (Double.mul (Double.sub (ofZ 4) (ofZ 3))
                   (Double.mul (Double.add (ofZ 100) (ofZ 10)) (Double.lit 15 2)))
     = Double.lit 935 1
  /\ Nlt (Double.mul (Double.mul (Double.lit 5 2) (Double.lit 9 1)) (Double.lit 4 1))
         (Double.mul (Double.mul (Double.lit 5 2) (Double.lit 4 1)) (Double.lit 9 1))
     = true.
Proof. cbv zeta. split; [js_eq |]. split; [js_eq | vm_compute; reflexivity]. Qed.

(** ** Prices and grades that doubles hold exactly *)

Lemma fl_small (z : Z) : 0 <= z < 2 ^ 53 -> Double.fl (ofZ z) = ofZ z.
Proof.
  intros H. rewrite fl_ofZ by lia. apply Rounding.round64_exact.
  - change 0%Q with (inject_Z 0). rewrite <- Zle_Qle. lia.
  - apply dyadic_small. exact H.
  - apply Qlt_trans with (y := Double.pow2 53); [| reflexivity].
    apply Rounding.inject_Z_lt_pow2; lia.
Qed.

(** X7: a price text made of a pound sign and the decimal digits of a
    whole number of pounds, optionally followed by a dot and further
    digits, is parsed by the parse steps of both revisions to the
    double nearest to that amount; a whole amount below [2^53] is
    parsed exactly. *)
Theorem plain_price_text_parses (n : N) (fp : JsString) :
  all_digits fp ->
  (ServerD.priceFromText (js "£" ++ digits_of (Z.of_N n))
   = Double.round64 (inject_Z (Z.of_N n))
   /\ Part000D.priceFromText (js "£" ++ digits_of (Z.of_N n))
      = Double.round64 (inject_Z (Z.of_N n)))
  /\ (ServerD.priceFromText (js "£" ++ digits_of (Z.of_N n) ++ 46%N :: fp)
      = Double.fl (pounds_and_fraction n fp)
      /\ Part000D.priceFromText (js "£" ++ digits_of (Z.of_N n) ++ 46%N :: fp)
         = Double.fl (pounds_and_fraction n fp))
  /\ (Z.of_N n < 2 ^ 53 ->
      ServerD.priceFromText (js "£" ++ digits_of (Z.of_N n)) = ofZ (Z.of_N n)
      /\ Part000D.priceFromText (js "£" ++ digits_of (Z.of_N n)) = ofZ (Z.of_N n)).
Proof.
  intros Hfp. destruct (exact_plain_price_text n fp Hfp) as (E1 & E2 & E3 & E4).
  rewrite !serverD_priceFromText_fl, !part000D_priceFromText_fl, E1, E2, E3, E4.
  split; [| split].
  - rewrite fl_ofZ by lia. auto.
  - auto.
  - intros H. rewrite fl_small by lia. auto.
Qed.

Lemma plain_price_text_parses_witness :
  ServerD.priceFromText (js "£" ++ digits_of 1234 ++ 46%N :: js "56")
  = Double.lit 123456 2
  /\ Part000D.priceFromText (js "£" ++ digits_of 9007199254740993)
     = ofZ 9007199254740992.
Proof.
  destruct (plain_price_text_parses 1234 (js "56")) as (_ & [H1 _] & _);
    [repeat constructor |].
  destruct (plain_price_text_parses 9007199254740993 []) as ([_ H2] & _);
    [constructor |].
  split.
  - refine (eq_trans H1 _). js_eq.
  - refine (eq_trans H2 _). js_eq.
Defined.

(** ** How far the offer is from the baseline *)

Section Draws.

Local Open Scope Q_scope.

(** A double is a multiple of a power of 2 with a 53-bit mantissa. *)
Lemma is_double_dyadic (r : Qc) :
  0 <= r -> Double.is_double (Fin r) = true ->
  Double.dyadic r /\ r < Double.pow2 1024.
Proof.
  intros H0 H. unfold Double.is_double in H.
  destruct (Double.round64 r) as [| | | q] eqn:E; try discriminate.
  apply Qeq_bool_iff in H.
  destruct (Qlt_le_dec 0 r) as [P | P].
  - destruct (Rounding.round64_pos_cases r P) as [I | (v & Ev & _ & Vd & Vf)];
      [congruence |].
    rewrite E in Ev. injection Ev as Ev.
    assert (Er : v == r).
    { rewrite H, Ev. symmetry. apply this_Q2Qc. }
    split; [apply (Rounding.dyadic_comp v); assumption | now rewrite <- Er].
  - split; [apply (Rounding.dyadic_comp 0); [lra | apply Rounding.dyadic_0] |].
    pose proof (Rounding.pow2_pos 1024). lra.
Qed.

(** The doubles below 1 end at [1 - 2^-53]. *)
Lemma double_below_one (r : Q) :
  Double.dyadic r -> r < 1 -> r <= 1 - Double.pow2 (-53).
Proof.
  intros (m & e & E & Hm & He) H1. rewrite E in *.
  pose proof (Rounding.pow2_pos e) as Hp.
  destruct (Z_lt_le_dec e (-53)) as [C | C].
  - assert (A : inject_Z m < Double.pow2 53)
      by (apply Rounding.inject_Z_lt_pow2; lia).
    assert (B : Double.pow2 e <= Double.pow2 (-54)) by (apply Rounding.pow2_le; lia).
    assert (M0 : 0 <= inject_Z m).
    { change 0 with (inject_Z 0). rewrite <- Zle_Qle. lia. }
    apply Qle_trans with (y := Double.pow2 53 * Double.pow2 (-54));
      [| vm_compute; discriminate].
    apply Qle_trans with (y := inject_Z m * Double.pow2 (-54)).
    + rewrite (Qmult_comm (inject_Z m)), (Qmult_comm (inject_Z m)).
      apply Qmult_le_compat_r; assumption.
    + apply Qmult_le_compat_r; [lra | vm_compute; discriminate].
  - assert (G : inject_Z m * Double.pow2 e
                == inject_Z (m * 2 ^ (e + 53)) * Double.pow2 (-53)).
    { rewrite inject_Z_mult, <- Rounding.pow2_nonneg by lia.
      rewrite <- Qmult_assoc, <- Rounding.pow2_add.
      now replace (e + 53 + -53)%Z with e by lia. }
    rewrite G in *.
    assert (O : 1 == inject_Z (2 ^ 53) * Double.pow2 (-53)) by reflexivity.
    rewrite O in H1. apply Qmult_lt_r in H1; [| apply Rounding.pow2_pos].
    rewrite <- Zlt_Qlt in H1.
    setoid_replace (1 - Double.pow2 (-53))
      with (inject_Z (2 ^ 53 - 1) * Double.pow2 (-53)) by reflexivity.
    apply Qmult_le_compat_r; [| vm_compute; discriminate].
    rewrite <- Zle_Qle. lia.
Qed.

(** 25 times a double below 1 rounds below 25. *)
Lemma scaled_draw_below_25 (r : Q) :
  0 <= r -> r <= 1 - Double.pow2 (-53) ->
  exists q : Qc, Double.round64 (r * 25) = Fin q /\ 0 <= q /\ q < 25.
Proof.
  intros H0 H1.
  set (u := Double.pow2 (-53)) in *.
  set (B := inject_Z (25 * 2 ^ 48 - 1) * Double.pow2 (-48)).
  assert (U0 : 0 < u) by reflexivity.
  assert (U1 : u < 1 # 4) by reflexivity.
  assert (HB : B == 25 - 32 * u) by reflexivity.
  assert (HT : (inject_Z (25 * 2 ^ 48 - 1) + (1 # 2)) * Double.pow2 (-48)
               == 25 - 16 * u) by reflexivity.
  assert (Bd : Double.dyadic B).
  { exists (25 * 2 ^ 48 - 1)%Z, (-48)%Z. split; [reflexivity | lia]. }
  assert (Bf : B < Double.pow2 1024) by reflexivity.
  assert (Hp : 0 < Double.pow2 (-48)) by reflexivity.
  assert (VB : forall M : Z, (M <= 25 * 2 ^ 48 - 1)%Z ->
                 inject_Z M * Double.pow2 (-48) <= B).
  { intros M HM. unfold B. apply Qmult_le_compat_r; [| lra].
    now rewrite <- Zle_Qle. }
  clearbody u B.
  destruct (Qlt_le_dec B (r * 25)) as [C | C].
  - assert (P : 0 < r * 25) by lra.
    assert (L : Double.ilog2 (r * 25) = 4%Z).
    { apply Rounding.ilog2_unique.
      - change (Double.pow2 4) with 16. lra.
      - change (Double.pow2 (4 + 1)) with 32. lra. }
    assert (U : Double.ulp_exponent (r * 25) = (-48)%Z).
    { unfold Double.ulp_exponent. rewrite L. reflexivity. }
    rewrite (Rounding.round64_pos _ P), U.
    assert (M : (Double.rne (r * 25 / Double.pow2 (-48)) <= 25 * 2 ^ 48 - 1)%Z).
    { apply Rounding.rne_lt_half. apply Qlt_shift_div_r; [exact Hp |].
      rewrite HT. lra. }
    assert (M0 : (0 <= Double.rne (r * 25 / Double.pow2 (-48)))%Z).
    { rewrite <- U. apply Rounding.mantissa_bounds. exact P. }
    pose proof (VB _ M) as V.
    assert (V0 : 0 <= inject_Z (Double.rne (r * 25 / Double.pow2 (-48)))
                      * Double.pow2 (-48)).
    { apply Qmult_le_0_compat; [| lra].
      change 0 with (inject_Z 0). now rewrite <- Zle_Qle. }
    destruct (Qle_bool _ _) eqn:T.
    + apply Qle_bool_iff in T. lra.
    + eexists. split; [reflexivity |]. rewrite this_Q2Qc. lra.
  - destruct (nonneg_round (r * 25) B ltac:(lra) C Bd Bf) as (q & E & Q0 & Q1 & _).
    exists q. split; [exact E |]. split; [exact Q0 | lra].
Qed.

End Draws.

Section OfferAboveBaseline.

Local Open Scope Q_scope.

(** The bonus of a draw that is a double in [0, 1) is an integer from
    5 to 29. *)
Lemma random_bonus_double (r : Qc) :
  in_unit_interval r -> Double.is_double (Fin r) = true ->
  exists k, Double.random_bonus r = ofZ k /\ (5 <= k <= 29)%Z.
Proof.
  intros [R0 R1] Hd. unfold Qcle, Qclt in *.
  change (this 0%Qc) with 0 in R0. change (this 1%Qc) with 1 in R1.
  pose proof (double_below_one r (proj1 (is_double_dyadic r R0 Hd)) R1) as Hr.
  destruct (scaled_draw_below_25 r R0 Hr) as (q & E & Q0 & Q1).
  unfold Double.random_bonus. unfold ofZ at 1.
  rewrite mul_round; [| exact R0 | rewrite this_ofZ; discriminate].
  rewrite (Rounding.round64_comp _ (r * 25)), E.
  - unfold Double.Math_floor. cbn [Math_floor].
    assert (K0 : (0 <= Qfloor q)%Z) by (apply floor_nonneg; exact Q0).
    assert (K1 : (Qfloor q < 25)%Z).
    { rewrite Zlt_Qlt. pose proof (Qfloor_le q).
      change (inject_Z 25) with 25. lra. }
    rewrite fl_small by lia. unfold Double.add. rewrite Nadd_ofZ.
    rewrite fl_small by lia. eexists. split; [reflexivity | lia].
  - rewrite this_ofZ. change (inject_Z 25) with 25. lra.
  - rewrite this_ofZ. reflexivity.
Qed.

(** X8: in [server.js], for an accepted request with a positive
    baseline [b] of at most [2^52] and a draw that is a double in
    [0, 1), the offer lies above the baseline by more than 4.5 and by
    at most 29.5.  (Above [2^53] the bonus can be lost in the
    rounding of the sum.) *)
Theorem server_offer_exceeds_baseline (w : World) (body : JsValue) (b : Qc) :
  ServerRun.accepted body = true ->
  in_unit_interval (Math_random w) ->
  Double.is_double (Fin (Math_random w)) = true ->
  larger (fst (ServerD.scraped w body)) (snd (ServerD.scraped w body)) = Fin b ->
  0 < b -> b <= inject_Z (2 ^ 52) ->
  exists p : Qc,
    ourPrice (fst (run (ServerD.get_quote w body))) = Some (JNum (Fin p))
    /\ b + (9 # 2) < p /\ p <= b + (59 # 2).
Proof.
  intros Hacc Hr Hd Hb Hpos Hmax. rewrite (serverD_get_quote_accepted w body Hacc).
  destruct (serverD_scraped_rounded w body) as [[Hc _] [Hm _]].
  destruct (ServerD.scraped w body) as [c m]. cbn [fst snd] in *.
  unfold ServerD.quote. rewrite (Math_max_larger c m Hc Hm), Hb.
  assert (Hle : Nle (Fin b) (ofZ 0) = false).
  { cbn [Nle ofZ]. rewrite this_zero.
    destruct (Qle_bool b 0) eqn:E; [| reflexivity].
    apply Qle_bool_iff in E. lra. }
  rewrite Hle. destruct (random_bonus_double _ Hr Hd) as (k & -> & Hk).
  unfold Double.Math_round. rewrite Math_round_Fin.
  pose proof (Qfloor_le (b + (1 # 2))) as F1.
  pose proof (Qlt_floor (b + (1 # 2))) as F2.
  rewrite inject_Z_plus in F2. change (inject_Z 1) with 1 in F2.
  assert (Z0 : (0 <= Qfloor (b + (1 # 2)))%Z) by (apply floor_nonneg; lra).
  assert (Z1 : (Qfloor (b + (1 # 2)) < 2 ^ 52 + 1)%Z).
  { rewrite Zlt_Qlt, inject_Z_plus. change (inject_Z 1) with 1. lra. }
  rewrite fl_small by lia. unfold Double.add. rewrite Nadd_ofZ.
  rewrite fl_small by lia.
  exists (Q2Qc (inject_Z (Qfloor (b + (1 # 2)) + k))).
  split; [reflexivity |].
  assert (K1 : inject_Z 5 <= inject_Z k) by (rewrite <- Zle_Qle; lia).
  assert (K2 : inject_Z k <= inject_Z 29) by (rewrite <- Zle_Qle; lia).
  change (inject_Z 5) with 5 in K1. change (inject_Z 29) with 29 in K2.
  split; rewrite this_Q2Qc, inject_Z_plus; lra.
Qed.

Lemma server_offer_exceeds_baseline_witness :
  exists p : Qc,
    ourPrice (fst (run (ServerD.get_quote
                          (sample_world true "£1,234.56" largest_draw)
                          sample_body))) = Some (JNum (Fin p))
    /\ double_q 123456 2 + (9 # 2) < p /\ p <= double_q 123456 2 + (59 # 2).
Proof.
  apply (server_offer_exceeds_baseline
           (sample_world true "£1,234.56" largest_draw) sample_body
           (double_q 123456 2)).
  - reflexivity.
  - split; vm_compute; congruence.
  - reflexivity.
  - js_eq.
  - reflexivity.
  - vm_compute. discriminate.
Defined.

End OfferAboveBaseline.

(** Beyond [2^53] the sum is rounded: at a baseline of [1e17] the
    bonus of a draw of 0 is lost, and the offer is the baseline. *)
Example bonus_lost_in_rounding :
  ServerD.quote (Double.parseFloat (js "100000000000000000")) (ofZ 0) (Q2Qc 0) =
  Reply 200 [ (js "ourPrice", JNum (Double.parseFloat (js "100000000000000000")));
              (js "cexPrice", JNum (Double.parseFloat (js "100000000000000000")));
              (js "musicMagpiePrice", JNum (ofZ 0)) ].
Proof. js_eq. Qed.

(** ** The discounts never raise the price *)

(** X9: in binary64, whatever the rounding, steps 1 to 5 never raise
    the price and never make it negative: on a condition record with
    grades from 1 to 4, without box and charger, the adjusted price of
    a baseline that is a double and not negative lies between 0 and
    the baseline. *)
Theorem v1_discounts_stay_within_baseline (c : Spec.Condition) (b : Qc) :
  1 <= Spec.screen_condition c <= 4 ->
  1 <= Spec.body_condition c <= 4 ->
  Spec.original_box c = false ->
  Spec.charger_included c = false ->
  (0 <= b)%Q -> Double.is_double (Fin b) = true ->
  exists p : Qc,
    Part000D.adjust (Spec.to_json c) (Fin b) = Normal (Fin p)
    /\ (0 <= p)%Q /\ (p <= b)%Q.
Proof.
  intros Hs Hg Hbox Hch H0 Hd.
  rewrite (adjust_follows_steps (Fin b) c Hs Hg). unfold SpecD.steps.
  rewrite Hbox, Hch.
  destruct (is_double_dyadic b H0 Hd) as [Bd Bf].
  destruct (discounts_up_to b (Fin b) (Spec.screen_condition c)
              (Spec.body_condition c) (negb (Spec.fully_functional c))
              (negb (Spec.camera_works c)) (negb (Spec.battery_health c))
              Hs Hg) as (p & E & P0 & P1 & _).
  { exists b. repeat split; try assumption. apply Qle_refl. }
  exists p. split; [| split; assumption].
  cbv zeta in E |- *. now rewrite E.
Qed.

Lemma v1_discounts_stay_within_baseline_witness :
  exists p : Qc,
    Part000D.adjust (Spec.to_json faulty) (Fin (double_q 12999 2)) = Normal (Fin p)
    /\ (0 <= p)%Q /\ (p <= double_q 12999 2)%Q.
Proof.
  apply (v1_discounts_stay_within_baseline faulty (double_q 12999 2)).
  - simpl; lia.
  - simpl; lia.
  - reflexivity.
  - reflexivity.
  - vm_compute. discriminate.
  - vm_compute. reflexivity.
Defined.

(** ** Grades sent as strings *)

Lemma double_parseInt_grade_string (g : Z) :
  0 <= g < 2 ^ 53 -> Double.parseInt (JStr (digits_of g)) = Normal (ofZ g).
Proof.
  intros Hg. unfold Double.parseInt, Double.parseInt_string.
  cbn [ToString completion_bind].
  assert (E : parseInt_string (digits_of g) = ofZ g).
  { rewrite <- (Z2N.id g) at 1 2 by lia.
    rewrite (parseInt_string_digits _ (digits_of_all_digits _) (digits_of_nonempty _)).
    rewrite digits_of_value, Z2N.id by lia. reflexivity. }
  rewrite E, fl_small by exact Hg. reflexivity.
Qed.

(** X12: the grades of a condition record may arrive as strings of
    decimal digits, as an HTML form sends them: [parseInt] turns them
    into numbers and the adjustment of [part_000] is the seven steps
    applied to those numbers, for any grades from 0 to [2^53 - 1].
    The grades are not checked against the range 1 to 4: with a
    screen grade of 7 on an otherwise flawless device a baseline of
    100 becomes 145. *)
Theorem v1_grades_are_not_range_checked :
  (forall (b : Number) (c : Spec.Condition),
      0 <= Spec.screen_condition c < 2 ^ 53 ->
      0 <= Spec.body_condition c < 2 ^ 53 ->
      Part000D.adjust (form_json c) b = Normal (SpecD.steps b c))
  /\ Part000D.adjust (form_json (screen_graded 7)) (ofZ 100) = Normal (ofZ 145)
  /\ Nlt (ofZ 100) (ofZ 145) = true.
Proof.
  split; [| split; [js_eq | reflexivity]].
  intros b c Hsc Hbc.
  destruct c as [sc bc ff cw bh box ch].
  cbn [Spec.screen_condition Spec.body_condition] in Hsc, Hbc.
  unfold Part000D.adjust, form_json.
  cbn [Spec.screen_condition Spec.body_condition Spec.fully_functional
       Spec.camera_works Spec.battery_health Spec.original_box
       Spec.charger_included].
  change (getProp (JObj ?l) "screen_condition") with (Normal (JStr (digits_of sc))).
  cbn [completion_bind]. rewrite (double_parseInt_grade_string sc Hsc).
  cbn [completion_bind].
  change (getProp (JObj ?l) "body_condition") with (Normal (JStr (digits_of bc))).
  cbn [completion_bind]. rewrite (double_parseInt_grade_string bc Hbc).
  cbn [completion_bind]. reflexivity.
Qed.

Lemma v1_grades_are_not_range_checked_witness :
  Part000D.adjust (form_json worn) (ofZ 100) = Normal (SpecD.steps (ofZ 100) worn).
Proof.
  apply (proj1 v1_grades_are_not_range_checked (ofZ 100) worn); simpl; lia.
Defined.

(** ** The rounding checked against the Standard Library's binary64 *)

(** [Double] rounds the exact result by its definition; the Standard
    Library's [SpecFloat] computes on mantissas and exponents.  The two
    agree on the operations of the offer: on ordinary prices, on ties,
    on subnormal numbers and at the overflow threshold. *)
Example double_agrees_with_spec_float :
  forallb operations_agree
    [ ((15, 0), (3, -2));
      ((2183009689708361, -41), (5404319552844595, -55));
      ((8533352581284903, -43), (7205759403792794, -56));
      ((2 ^ 53 + 1, 0), (1, 0));
      ((2 ^ 53 + 3, -30), (2 ^ 53 - 1, -83));
      ((1, -1074), (1, -1));
      ((3, -1075), (5, -1076));
      ((2 ^ 53 - 1, 971), (1, 970));
      ((2 ^ 53 - 1, 971), (2 ^ 53 - 1, 917));
      ((- (2 ^ 52 + 12345), 900), (7, 120));
      ((5, -1), (-7, -1));
      ((12345678901234567890123, -1120), (1, 50)) ] = true.
Proof. vm_compute. reflexivity. Qed.

(** The adjustment agrees on the devices and baselines of the
    examples above. *)
Example adjustment_agrees_with_spec_float :
  forallb (fun c => adjustments_agree c 1000 1
                    && adjustments_agree c 97012987012987 11
                    && adjustments_agree c 3896103896103896 15
                    && adjustments_agree c 12999 2)
    [ perfect; faulty; worn; screen_graded 1; screen_graded 7 ] = true.
Proof. vm_compute. reflexivity. Qed.
